(** * facedetect/lib.py: normalisation, ranking, similarity and detection

    A shallow embedding of the class [FaceDetector] of [src/facedetect/lib.py].

    - Python floats (and numpy [float64] scalars) are Rocq's primitive binary64
      floats: same format, same rounding, same NaN and infinity behaviour.
    - Python ints are [Z].
    - A two-dimensional numpy array is its shape together with its indexing
      function ([ndarray]); slices follow Python's rules for negative and
      out-of-range bounds.
    - Exceptions are the [Raise] outcomes of the [result] monad.
    - The OpenCV entry points the module calls are the members of the
      interface [Cv2]: what OpenCV fixes about shapes, errors and output depth
      is written out in the wrappers [cv2_resize], [cv2_equalizeHist] and
      [cv2_Laplacian_8U]; the sample values themselves are the interface's. *)

From Stdlib Require Import String ZArith List Lia Bool Floats QArith Lqa.
From Stdlib Require Import Permutation Sorted.
From Stdlib Require Uint63.
Import ListNotations.

Set Warnings "-inexact-float".
Local Open Scope Z_scope.

(** ** Exceptions *)

Inductive exn : Type :=
| ValueError
| ZeroDivisionError
| OverflowError
| KeyError
| cv2_error.

Inductive result (A : Type) : Type :=
| Ok (a : A)
| Raise (e : exn).

Arguments Ok {A} a.
Arguments Raise {A} e.

Definition bind {A B : Type} (c : result A) (k : A -> result B) : result B :=
  match c with
  | Ok a => k a
  | Raise e => Raise e
  end.

Notation "x <- c ;; k" := (bind c (fun x => k))
  (at level 61, c at next level, right associativity).
Notation "' p <- c ;; k" := (bind c (fun x => let p := x in k))
  (at level 61, p pattern, c at next level, right associativity).

Definition result_map {A B : Type} (g : A -> B) (c : result A) : result B :=
  match c with
  | Ok a => Ok (g a)
  | Raise e => Raise e
  end.

Fixpoint mapM {A B : Type} (f : A -> result B) (l : list A) : result (list B) :=
  match l with
  | [] => Ok []
  | a :: l' => b <- f a ;; bs <- mapM f l' ;; Ok (b :: bs)
  end.

(** ** numpy arrays of two dimensions *)

Record ndarray (A : Type) : Type := mk_array {
  shape0 : nat;              (* rows: [im.shape[0]] *)
  shape1 : nat;              (* columns: [im.shape[1]] *)
  item : nat -> nat -> A     (* [im[i, j]] for [i < shape0], [j < shape1] *)
}.

Arguments mk_array {A} shape0 shape1 item.
Arguments shape0 {A} n.
Arguments shape1 {A} n.
Arguments item {A} n i j.

Definition shape {A} (a : ndarray A) : nat * nat := (shape0 a, shape1 a).

(** [im.size] *)
Definition size {A} (a : ndarray A) : Z := Z.of_nat (shape0 a) * Z.of_nat (shape1 a).

Definition is_empty {A} (a : ndarray A) : bool :=
  (Nat.eqb (shape0 a) 0 || Nat.eqb (shape1 a) 0)%bool.

Definition array_map {A B} (g : A -> B) (a : ndarray A) : ndarray B :=
  mk_array (shape0 a) (shape1 a) (fun i j => g (item a i j)).

Definition array_map2 {A B C} (g : A -> B -> C) (a : ndarray A) (b : ndarray B) : ndarray C :=
  mk_array (shape0 a) (shape1 a) (fun i j => g (item a i j) (item b i j)).

(** The pixels in row-major order. *)
Definition ravel {A} (a : ndarray A) : list A :=
  flat_map (fun i => map (item a i) (seq 0 (shape1 a))) (seq 0 (shape0 a)).

(** An array from its rows (for literals). *)
Definition of_rows {A} (d : A) (rows : list (list A)) : ndarray A :=
  mk_array (length rows) (length (hd [] rows)) (fun i j => nth j (nth i rows []) d).

(** Python's normalisation of one bound of [a[start:stop]] on a sequence of
    length [len]: a negative bound counts from the end, and the result is
    clipped to [0, len]. *)
Definition slice_index (len : Z) (i : Z) : Z :=
  if i <? 0 then Z.max 0 (i + len) else Z.min i len.

(** First index and length of [a[start:stop]]. *)
Definition slice_bounds (len : nat) (start stop : Z) : nat * nat :=
  let s := slice_index (Z.of_nat len) start in
  let e := slice_index (Z.of_nat len) stop in
  (Z.to_nat s, Z.to_nat (e - s)).

(** [a[r0:r1, c0:c1]] *)
Definition slice2 {A} (a : ndarray A) (r0 r1 c0 c1 : Z) : ndarray A :=
  let rb := slice_bounds (shape0 a) r0 r1 in
  let cb := slice_bounds (shape1 a) c0 c1 in
  mk_array (snd rb) (snd cb) (fun i j => item a (fst rb + i) (fst cb + j)).

(** ** Floats *)

(** The float nearest to an integer (Python's [float(n)], numpy's conversion
    of an integer scalar). *)
Definition Z2F (z : Z) : float := SF2Prim (binary_normalize prec emax z 0 false).

(** Python's [int(x)] on a float: truncation toward zero; [ValueError] on NaN,
    [OverflowError] on an infinity. *)
Definition py_int (x : float) : result Z :=
  match Prim2SF x with
  | S754_zero _ => Ok 0
  | S754_nan => Raise ValueError
  | S754_infinity _ => Raise OverflowError
  | S754_finite s m e =>
      let a := Z.shiftl (Zpos m) e in
      Ok (if s then - a else a)
  end.


(** [a / b] on Python ints under [from __future__ import division]. The
    quotient is computed on the floats nearest to [a] and [b], which is
    Python's result whenever both are below 2^53 in magnitude, as every pixel
    coordinate is. *)
Definition py_truediv (a b : Z) : result float :=
  if b =? 0 then Raise ZeroDivisionError else Ok (Z2F a / Z2F b)%float.

(** [a / b] on Python floats. *)
Definition py_fdiv (a b : float) : result float :=
  if (b =? 0)%float then Raise ZeroDivisionError else Ok (a / b)%float.

(** ** Rectangles and configuration *)

(** A rectangle [rect]: [rect[0]], [rect[1]], [rect[2]], [rect[3]]. *)
Record Rect : Type := mk_rect {
  rect_x : Z;
  rect_y : Z;
  rect_w : Z;
  rect_h : Z
}.

(** A rectangle of positive extent lying inside the image. *)
Definition rect_inside {A} (im : ndarray A) (r : Rect) : Prop :=
  0 <= rect_x r /\ 0 <= rect_y r /\ 0 < rect_w r /\ 0 < rect_h r /\
  rect_x r + rect_w r <= Z.of_nat (shape1 im) /\
  rect_y r + rect_h r <= Z.of_nat (shape0 im).

(** OpenCV keeps the rows and columns of an image in C [int]s. *)
Definition fits_int {A} (im : ndarray A) : Prop :=
  Z.of_nat (shape0 im) < 2 ^ 31 /\ Z.of_nat (shape1 im) < 2 ^ 31.

(** ** The OpenCV interface *)

Class Cv2 : Type := {
  (** [cv2.CascadeClassifier] and its search. *)
  CascadeClassifier : Type;
  detectMultiScale :
    CascadeClassifier -> ndarray Z -> float -> Z -> Z -> Z * Z -> Z * Z -> list Rect;
  CASCADE_DO_CANNY_PRUNING : Z;
  CASCADE_FIND_BIGGEST_OBJECT : Z;
  (** The lookup table [cv2.equalizeHist] derives from an image's histogram. *)
  equalizeHist_lut : ndarray Z -> Z -> Z;
  (** The sample [cv2.resize(src, dsize, interpolation=cv2.INTER_CUBIC)]
      stores at row [i], column [j] of its result. *)
  INTER_CUBIC : ndarray Z -> Z * Z -> nat -> nat -> Z;
  (** The signed response of [cv2.Laplacian]'s operator at row [i], column [j],
      before conversion to the output depth. *)
  Laplacian_response : ndarray Z -> nat -> nat -> Z;
  (** The one-dimensional coefficients [cv2.GaussianBlur] uses for a window
      size and a sigma. *)
  getGaussianKernel : Z -> Q -> list Q
}.

Section FaceDetector.

Context {cv : Cv2}.

(** [self._configuration]: the keys the methods below read. *)
Record configuration : Type := mk_configuration {
  DATA_DIR : string;
  CASCADES : list (string * CascadeClassifier);
  NORM_SIZE : Z;
  NORM_MARGIN : Z
}.

(** The configuration [__init__] builds. *)
Definition init_configuration : configuration :=
  mk_configuration "/usr/share/opencv/" [] 100 10.

(** [d[k]] on a dict. *)
Fixpoint dict_get {V} (d : list (string * V)) (k : string) : result V :=
  match d with
  | [] => Raise KeyError
  | (k', v) :: d' => if String.eqb k' k then Ok v else dict_get d' k
  end.

Variable cfg : configuration.

(** [cv2.equalizeHist]: every sample goes through the image's lookup table. *)
Definition cv2_equalizeHist (src : ndarray Z) : ndarray Z :=
  array_map (equalizeHist_lut src) src.

(** [cv2.resize(src, dsize, interpolation=cv2.INTER_CUBIC)], [dsize] being
    (width, height): an error on an empty source or a target size that is
    not positive, otherwise an array of [height] rows and [width] columns. *)
Definition cv2_resize (src : ndarray Z) (dsize : Z * Z) : result (ndarray Z) :=
  if is_empty src || (fst dsize <=? 0) || (snd dsize <=? 0) then Raise cv2_error
  else Ok (mk_array (Z.to_nat (snd dsize)) (Z.to_nat (fst dsize)) (INTER_CUBIC src dsize)).

(** [saturate_cast<uchar>]: conversion to the 8-bit unsigned depth. *)
Definition saturate_u8 (v : Z) : Z := Z.max 0 (Z.min 255 v).

(** The response of [cv2.Laplacian]'s operator over a whole image. *)
Definition Laplacian_array (src : ndarray Z) : ndarray Z :=
  mk_array (shape0 src) (shape1 src) (Laplacian_response src).

(** [cv2.Laplacian(src, cv2.CV_8U)]: the operator's response stored at depth
    [CV_8U], that is saturated to [0, 255]; an error on an empty source. *)
Definition cv2_Laplacian_8U (src : ndarray Z) : result (ndarray Z) :=
  if is_empty src then Raise cv2_error
  else Ok (array_map saturate_u8 (Laplacian_array src)).

(** *** [_crop_rect], [_shave_margin], [_norm_rect] *)

Definition _crop_rect {A} (im : ndarray A) (rect : Rect) (shave : Z) : ndarray A :=
  slice2 im (rect_y rect + shave) (rect_y rect + rect_h rect - shave)
            (rect_x rect + shave) (rect_x rect + rect_w rect - shave).

Definition _shave_margin {A} (im : ndarray A) (margin : Z) : ndarray A :=
  slice2 im margin (- margin) margin (- margin).

(** The local [dsize] of [_norm_rect]. *)
Definition norm_dsize (rect : Rect) (same_aspect : bool) : result (Z * Z) :=
  let side := NORM_SIZE cfg + NORM_MARGIN cfg in
  if same_aspect then
    scale <- py_truediv side (Z.max (rect_w rect) (rect_h rect)) ;;
    w <- py_int (Z2F (rect_w rect) * scale)%float ;;
    h <- py_int (Z2F (rect_h rect) * scale)%float ;;
    Ok (w, h)
  else Ok (side, side).

Definition _norm_rect (im : ndarray Z) (rect : Rect) (equalize same_aspect : bool)
  : result (ndarray Z) :=
  let roi := _crop_rect im rect 0 in
  let roi := if equalize then cv2_equalizeHist roi else roi in
  dsize <- norm_dsize rect same_aspect ;;
  roi <- cv2_resize roi dsize ;;
  Ok (_shave_margin roi (NORM_MARGIN cfg)).

(** *** [_rank] *)

(** The dict [_rank] appends for a rectangle in its first loop:
    keys ['s'], ['e'], ['d']. *)
Record Measure : Type := mk_measure {
  measure_s : float;
  measure_e : float;
  measure_d : float
}.

(** The same dict once the second loop has added ['sN'], ['eN'], ['f'];
    ['RANK'] is absent ([None]) until the third loop stores it. *)
Record Score : Type := mk_score {
  score_s : float;
  score_e : float;
  score_d : float;
  score_sN : float;
  score_eN : float;
  score_f : float;
  score_RANK : option nat
}.

(** [np.sum] of an integer array. *)
Definition np_sum (a : ndarray Z) : Z := fold_right Z.add 0 (ravel a).

(** Python's [max] of a list: the first item is kept until a later one
    compares greater. *)
Definition py_max (l : list float) : result float :=
  match l with
  | [] => Raise ValueError
  | x :: l' => Ok (fold_left (fun m y => if (m <? y)%float then y else m) l' x)
  end.

(** The body of the first loop. [dx ** 2] is C's [pow (dx, 2.0)], which
    returns the square where the square is a float: so it is for the offsets
    of a rectangle inside an image of at most 2^25 rows and columns, halves
    of integers up to 2^26. The product [dx * dx], the correctly rounded
    square, stands for it here; for larger offsets [pow] can differ from the
    product in the last bit, and the statements below on the value of [d]
    are for images of at most that size. *)
Definition rank_measure (im : ndarray Z) (rect : Rect) : result Measure :=
  roi_n <- _norm_rect im rect false true ;;
  roi_l <- cv2_Laplacian_8U roi_n ;;
  let e := (Z2F (np_sum roi_l)
            / Z2F (Z.of_nat (shape0 roi_n) * Z.of_nat (shape1 roi_n)))%float in
  let dx := (Z2F (Z.of_nat (shape1 im)) / 2 - Z2F (rect_x rect)
             + Z2F (rect_w rect) / 2)%float in
  let dy := (Z2F (Z.of_nat (shape0 im)) / 2 - Z2F (rect_y rect)
             + Z2F (rect_h rect) / 2)%float in
  d <- py_fdiv (sqrt (dx * dx + dy * dy))
         (Z2F (Z.max (Z.of_nat (shape0 im)) (Z.of_nat (shape1 im))) / 2)%float ;;
  let s := (Z2F (rect_w rect + rect_h rect) / 2)%float in
  Ok (mk_measure s e d).

(** The body of the second loop. ['s'] is a Python float, ['e'] a numpy
    [float64], whose division by zero warns and yields NaN or an infinity. *)
Definition rank_normalize (sMax eMax : float) (m : Measure) : result Score :=
  sN <- py_fdiv (measure_s m) sMax ;;
  let eN := (measure_e m / eMax)%float in
  let f := (eN * 0.7 + (1 - measure_d m) * 0.1 + sN * 0.2)%float in
  Ok (mk_score (measure_s m) (measure_e m) (measure_d m) sN eN f None).

(** One insertion of Python's sort: [x] goes behind every item it is not
    less than. Only [<] on keys is used. *)
Fixpoint sort_insert (key : nat -> float) (x : nat) (l : list nat) : list nat :=
  match l with
  | [] => [x]
  | y :: l' => if (key x <? key y)%float then x :: l else y :: sort_insert key x l'
  end.

(** [sorted(l, key=key)]: a stable insertion sort. Python's merge sort gives
    the same list whenever [<] orders the keys, as it does floats none of
    which is NaN, and when every key is NaN (nothing moves); the two can
    differ on keys only some of which are NaN. *)
Definition sorted (key : nat -> float) (l : list nat) : list nat :=
  fold_left (fun acc x => sort_insert key x acc) l [].

(** [sorted(l, reverse=True, key=key)]: Python reverses the list, sorts it
    stably and reverses the result, so that equal keys keep their order. *)
Definition sorted_reverse (key : nat -> float) (l : list nat) : list nat :=
  rev (sorted key (rev l)).

Definition default_score : Score := mk_score 0 0 0 0 0 0 None.

(** [ranks] after line 131. *)
Definition rank_order (scores : list Score) : list nat :=
  sorted_reverse (fun x => score_f (nth x scores default_score))
    (seq 0 (length scores)).

Definition set_RANK (i : nat) (sc : Score) : Score :=
  mk_score (score_s sc) (score_e sc) (score_d sc)
           (score_sN sc) (score_eN sc) (score_f sc) (Some i).

(** [l[k] = g(l[k])] *)
Fixpoint list_update {A} (l : list A) (k : nat) (g : A -> A) : list A :=
  match l, k with
  | [], _ => []
  | a :: l', O => g a :: l'
  | a :: l', S k' => a :: list_update l' k' g
  end.

(** The third loop: [scores[ranks[i]]['RANK'] = i]. *)
Definition assign_ranks (ranks : list nat) (scores : list Score) : list Score :=
  fold_left (fun acc i => list_update acc (nth i ranks O) (set_RANK i))
    (seq 0 (length scores)) scores.

Definition _rank (im : ndarray Z) (rects : list Rect) : result (list Score * nat) :=
  measures <- mapM (rank_measure im) rects ;;
  sMax <- py_max (map measure_s measures) ;;
  eMax <- py_max (map measure_e measures) ;;
  scores <- mapM (rank_normalize sMax eMax) measures ;;
  let ranks := rank_order scores in
  let scores := assign_ranks ranks scores in
  Ok (scores, nth 0 ranks O).

(** *** [detect] and [detect_similar_faces] *)

Definition detect (im : ndarray Z) (biggest : bool) : result (list Rect) :=
  let side := sqrt (Z2F (size im)) in
  minlen <- py_int (side / 20)%float ;;
  maxlen <- py_int (side / 2)%float ;;
  let flags := CASCADE_DO_CANNY_PRUNING in
  let flags := if biggest then Z.lor flags CASCADE_FIND_BIGGEST_OBJECT else flags in
  cc <- dict_get (CASCADES cfg) "HAAR_FRONTALFACE_ALT2" ;;
  Ok (detectMultiScale cc im 1.1%float 4 flags (minlen, minlen) (maxlen, maxlen)).

(** The value of a Python call whose body is [pass]. *)
Inductive NoneType : Type := None_.

Definition detect_similar_faces (path : string) (source_image : ndarray Z) : NoneType :=
  None_.

(** *** [_mssim_norm] and [_pairwise_similarity]

    The arrays here are numpy [float32] arrays. Their samples are taken as
    exact rationals: the arithmetic neither rounds nor underflows nor
    overflows, where [float32] turns a constant [K1 ** 2] below 1e-45 into 0
    and one above 3e38 into an infinity. A sample that numpy would leave
    non-finite (the quotient by a zero denominator) is [None], and so is the
    mean of an array that is empty or holds such a sample. *)

Definition arr_add (a b : ndarray Q) : ndarray Q := array_map2 Qplus a b.
Definition arr_sub (a b : ndarray Q) : ndarray Q := array_map2 Qminus a b.
Definition arr_mul (a b : ndarray Q) : ndarray Q := array_map2 Qmult a b.
Definition arr_scale (c : Q) (a : ndarray Q) : ndarray Q := array_map (Qmult c) a.
Definition arr_shift (a : ndarray Q) (c : Q) : ndarray Q := array_map (fun v => v + c)%Q a.

Definition qdiv (a b : Q) : option Q :=
  if Qeq_bool b 0 then None else Some (a / b)%Q.

Definition arr_div (a b : ndarray Q) : ndarray (option Q) := array_map2 qdiv a b.

(** [a * b] on two arrays: numpy raises [ValueError] when the shapes disagree.
    Broadcasting is left out: where the shapes differ in a dimension that has
    length one in [a] or in [b], numpy stretches that operand and returns,
    and this function is not the code's. *)
Definition np_multiply (a b : ndarray Q) : result (ndarray Q) :=
  if Nat.eqb (shape0 a) (shape0 b) && Nat.eqb (shape1 a) (shape1 b)
  then Ok (arr_mul a b) else Raise ValueError.

Definition Qsum (l : list Q) : Q := fold_right Qplus 0%Q l.

Fixpoint sum_finite (l : list (option Q)) : option Q :=
  match l with
  | [] => Some 0%Q
  | None :: _ => None
  | Some v :: l' =>
      match sum_finite l' with
      | Some t => Some (v + t)%Q
      | None => None
      end
  end.

(** [np.mean]. *)
Definition np_mean (a : ndarray (option Q)) : option Q :=
  if is_empty a then None
  else match sum_finite (ravel a) with
       | Some t => Some (t / inject_Z (size a))%Q
       | None => None
       end.

(** OpenCV's [borderInterpolate] for [BORDER_REFLECT_101], the default border
    of its filters: [gfedcb|abcdefgh|gfedcba]. *)
Definition borderInterpolate (p : Z) (len : nat) : nat :=
  match len with
  | O => O
  | S O => O
  | _ =>
      let period := 2 * (Z.of_nat len - 1) in
      let q := p mod period in
      Z.to_nat (if q <? Z.of_nat len then q else period - q)
  end.

(** The coefficients of a window paired with their offsets from its centre. *)
Definition blur_taps (ksize : Z) (sigma : Q) : list (Z * Q) :=
  let kernel := getGaussianKernel ksize sigma in
  combine (map (fun a => Z.of_nat a - ksize / 2) (seq 0 (length kernel))) kernel.

(** A weighted sum over taps. *)
Definition tap_sum (taps : list (Z * Q)) (g : Z -> Q) : Q :=
  Qsum (map (fun t => snd t * g (fst t))%Q taps).

Definition blur_at (src : ndarray Q) (tx ty : list (Z * Q)) (i j : nat) : Q :=
  tap_sum ty (fun dy =>
    tap_sum tx (fun dx =>
      item src (borderInterpolate (Z.of_nat i + dy) (shape0 src))
               (borderInterpolate (Z.of_nat j + dx) (shape1 src)))).

(** [cv2.GaussianBlur(src, ksize, sigma)], [ksize] being (width, height): an
    error on an empty source or a window side that is not odd and positive.
    (For a side of 0 or less and a positive [sigma] OpenCV derives the side
    from [sigma]; that is left out, and this function is the code's for
    positive sides.) *)
Definition cv2_GaussianBlur (src : ndarray Q) (ksize : Z * Z) (sigma : Q)
  : result (ndarray Q) :=
  if is_empty src
     || negb ((0 <? fst ksize) && Z.odd (fst ksize) && (0 <? snd ksize) && Z.odd (snd ksize))
  then Raise cv2_error
  else Ok (mk_array (shape0 src) (shape1 src)
             (blur_at src (blur_taps (fst ksize) sigma) (blur_taps (snd ksize) sigma))).

(** The array [S] of [_mssim_norm], before the margin is shaved and the mean
    taken. [K1 ** 2] and [ux ** 2] are the products [K1 * K1] and [ux * ux]. *)
Definition ssim_map (X Y : ndarray Q) (K1 K2 : Q) (win_size : Z) (sigma : Q)
  : result (ndarray (option Q)) :=
  let C1 := (K1 * K1)%Q in
  let C2 := (K2 * K2)%Q in
  let cov_norm := inject_Z (win_size * win_size) in
  ux <- cv2_GaussianBlur X (win_size, win_size) sigma ;;
  uy <- cv2_GaussianBlur Y (win_size, win_size) sigma ;;
  uxx <- cv2_GaussianBlur (arr_mul X X) (win_size, win_size) sigma ;;
  uyy <- cv2_GaussianBlur (arr_mul Y Y) (win_size, win_size) sigma ;;
  XY <- np_multiply X Y ;;
  uxy <- cv2_GaussianBlur XY (win_size, win_size) sigma ;;
  let vx := arr_scale cov_norm (arr_sub uxx (arr_mul ux ux)) in
  let vy := arr_scale cov_norm (arr_sub uyy (arr_mul uy uy)) in
  let vxy := arr_scale cov_norm (arr_sub uxy (arr_mul ux uy)) in
  let A1 := arr_shift (arr_mul (arr_scale 2 ux) uy) C1 in
  let A2 := arr_shift (arr_scale 2 vxy) C2 in
  let B1 := arr_shift (arr_add (arr_mul ux ux) (arr_mul uy uy)) C1 in
  let B2 := arr_shift (arr_add vx vy) C2 in
  let D := arr_mul B1 B2 in
  Ok (arr_div (arr_mul A1 A2) D).

Definition _mssim_norm (X Y : ndarray Q) (K1 K2 : Q) (win_size : Z) (sigma : Q)
  : result (option Q) :=
  S <- ssim_map X Y K1 K2 win_size sigma ;;
  Ok (np_mean (_shave_margin S ((win_size - 1) / 2))).

(** [np.float32(a) / 255] *)
Definition to_unit_range (a : ndarray Z) : ndarray Q :=
  array_map (fun v => inject_Z v / 255)%Q a.

(** What a Python generator yields, given the outcomes of the runs of its
    body: the values up to the first exception, which ends the generator. *)
Fixpoint generator {A} (l : list (result A)) : list (result A) :=
  match l with
  | [] => []
  | Ok v :: l' => Ok v :: generator l'
  | Raise e :: _ => [Raise e]
  end.

(** The generator [_pairwise_similarity] as the list of what it yields, one
    value for each rectangle until a rectangle raises. *)
Definition _pairwise_similarity (im : ndarray Z) (features : list Rect)
  (template : ndarray Z) (K1 K2 : Q) (win_size : Z) (sigma : Q)
  : list (result (option Q)) :=
  let template := to_unit_range template in
  generator
    (map (fun rect =>
            roi <- _norm_rect im rect true false ;;
            _mssim_norm (to_unit_range roi) template K1 K2 win_size sigma)
         features).

End FaceDetector.

Arguments mk_configuration {cv} DATA_DIR CASCADES NORM_SIZE NORM_MARGIN.

(** ** The methods that reach outside the detector

    [configure], [_load_cascades], [_error], [_fatal] and [detect_from_file]
    look at files, write to [sys.stderr] and may end the process through
    [sys.exit]. *)

(** How a call ends: it returns, it raises, or it exits (the [SystemExit] of
    [sys.exit(status)], which no method catches). *)
Inductive outcome (A : Type) : Type :=
| Returns (a : A)
| Raises (e : exn)
| Exits (status : Z).

Arguments Returns {A} a.
Arguments Raises {A} e.
Arguments Exits {A} status.

(** What a call wrote to [sys.stderr], and how it ended. *)
Definition process (A : Type) : Type := (string * outcome A)%type.

(** The line feed, ["\n"]. *)
Definition newline : string := String (Ascii.ascii_of_nat 10) EmptyString.

(** [s.endswith('/')]: the last character of [s], if it has one, is ['/']. *)
Definition endswith_sep (s : string) : bool :=
  String.eqb (String.substring (String.length s - 1) 1 s) "/".

(** [os.path.join(a, b)] of [posixpath]. *)
Definition os_path_join (a b : string) : string :=
  if String.prefix "/" b then b
  else if (String.eqb a "" || endswith_sep a)%bool then (a ++ b)%string
  else (a ++ "/" ++ b)%string.

(** [os.path.basename(p)] of [posixpath]: what follows the last ['/']. *)
Fixpoint basename_from (tail p : string) : string :=
  match p with
  | EmptyString => tail
  | String c p' =>
      if String.eqb (String c EmptyString) "/" then basename_from p' p'
      else basename_from tail p'
  end.

Definition os_path_basename (p : string) : string := basename_from p p.

(** [d[k] = v] on a dict: the value of a present key is replaced where it
    stands, a new key goes last. *)
Fixpoint dict_set {V} (d : list (string * V)) (k : string) (v : V) : list (string * V) :=
  match d with
  | [] => [(k, v)]
  | (k', v') :: d' => if String.eqb k' k then (k', v) :: d' else (k', v') :: dict_set d' k v
  end.

Section Process.

Context {cv : Cv2}.

(** What the methods ask of the system: [os.path.exists], the constructor
    [cv2.CascadeClassifier(path)], [cv2.imread(path, cv2.IMREAD_GRAYSCALE)]
    (whose result is [None] for a file it cannot read) and [sys.argv[0]]. *)
Record System : Type := mk_system {
  os_path_exists : string -> bool;
  cv2_CascadeClassifier : string -> result CascadeClassifier;
  cv2_imread : string -> option (ndarray Z);
  sys_argv0 : string
}.

(** The whole of [self._configuration]: the keys of [configuration] and the
    key ['PROFILES'], which only [_load_cascades] reads. *)
Record FaceDetector : Type := mk_detector {
  _configuration : configuration;
  PROFILES : list (string * string)
}.

(** [FaceDetector()] *)
Definition __init__ : FaceDetector :=
  mk_detector init_configuration
    [("HAAR_FRONTALFACE_ALT2", "haarcascades/haarcascade_frontalface_alt2.xml")]%string.

(** The argument of [configure] when it is a dict: the keys it holds among
    those of [self._configuration]. *)
Record config_dict : Type := mk_config {
  config_DATA_DIR : option string;
  config_CASCADES : option (list (string * CascadeClassifier));
  config_PROFILES : option (list (string * string));
  config_NORM_SIZE : option Z;
  config_NORM_MARGIN : option Z
}.

Definition updated {A} (old : A) (new : option A) : A :=
  match new with
  | Some a => a
  | None => old
  end.

(** [self._configuration.update(config)] *)
Definition dict_update (self : FaceDetector) (config : config_dict) : FaceDetector :=
  let c := _configuration self in
  mk_detector
    (mk_configuration (updated (DATA_DIR c) (config_DATA_DIR config))
                      (updated (CASCADES c) (config_CASCADES config))
                      (updated (NORM_SIZE c) (config_NORM_SIZE config))
                      (updated (NORM_MARGIN c) (config_NORM_MARGIN config)))
    (updated (PROFILES self) (config_PROFILES config)).

Variable sys : System.

(** [_error]: one line on [sys.stderr]. *)
Definition _error (msg : string) : process unit :=
  ((os_path_basename (sys_argv0 sys) ++ ": error: " ++ msg ++ newline)%string, Returns tt).

(** [_fatal]: the line of [_error], then [sys.exit(1)]. *)
Definition _fatal {A} (msg : string) : process A :=
  (fst (_error msg), Exits 1).

(** The loop of [_load_cascades] over the items of ['PROFILES'], on the dict
    ['CASCADES']. The [try] block raises [cv2.error] itself for a missing
    file; the handler catches [cv2.error] only. *)
Fixpoint load_profiles (data_dir : string) (profiles : list (string * string))
  (cascades : list (string * CascadeClassifier))
  : process (list (string * CascadeClassifier)) :=
  match profiles with
  | [] => (EmptyString, Returns cascades)
  | (k, v) :: rest =>
      let v := os_path_join data_dir v in
      let loaded := if os_path_exists sys v then cv2_CascadeClassifier sys v
                    else Raise cv2_error in
      match loaded with
      | Ok cc => load_profiles data_dir rest (dict_set cascades k cc)
      | Raise cv2_error => _fatal ("cannot load " ++ k ++ " from " ++ v)%string
      | Raise e => (EmptyString, Raises e)
      end
  end.

Definition _load_cascades (self : FaceDetector) (data_dir : string) : process FaceDetector :=
  let c := _configuration self in
  match load_profiles data_dir (PROFILES self) (CASCADES c) with
  | (err, Returns cascades) =>
      (err, Returns (mk_detector
                       (mk_configuration (DATA_DIR c) cascades (NORM_SIZE c) (NORM_MARGIN c))
                       (PROFILES self)))
  | (err, Raises e) => (err, Raises e)
  | (err, Exits status) => (err, Exits status)
  end.

(** [configure(config)]: [config] is [None] for an argument that is no dict.
    [_cv2_compatibility] gives old versions of the module [cv2] the names of
    the new ones, which are the names of the interface [Cv2]; it leaves
    [self] alone. *)
Definition configure (self : FaceDetector) (config : option config_dict)
  : process FaceDetector :=
  let self := match config with
              | Some c => dict_update self c
              | None => self
              end in
  _load_cascades self (DATA_DIR (_configuration self)).

(** [get_config] *)
Definition get_config (self : FaceDetector) : FaceDetector := self.

(** [detect_from_file] *)
Definition detect_from_file (self : FaceDetector) (path : string) (biggest : bool)
  : process (ndarray Z * list Rect) :=
  match cv2_imread sys path with
  | None => _fatal ("cannot load input image " ++ path)%string
  | Some im =>
      let im := cv2_equalizeHist im in
      match detect (_configuration self) im biggest with
      | Ok features => (EmptyString, Returns (im, features))
      | Raise e => (EmptyString, Raises e)
      end
  end.

End Process.

(** ** Definitions that follow the specification's words

    They are compared below with what the source computes. *)


(** The specification's sharpness:
    [sum(|laplacian pixels|) / (roiN.width * roiN.height)]. *)
Definition spec_sharpness `{Cv2} (roi_n : ndarray Z) : float :=
  (Z2F (np_sum (array_map Z.abs (Laplacian_array roi_n)))
   / Z2F (Z.of_nat (shape1 roi_n) * Z.of_nat (shape0 roi_n)))%float.

(** ** A reference instance of the OpenCV interface

    Used to run the methods on concrete images. Its Laplacian is OpenCV's
    default one (aperture 1: the kernel [0 1 0; 1 -4 1; 0 1 0] with the
    reflect-101 border). Its resize samples the nearest source pixel, which is
    what every interpolation yields when source and target sizes are equal,
    and on an image of one intensity. Its cascade is a list of canned
    detections, filtered by the size bounds. *)
Module Reference.

Definition count_le (src : ndarray Z) (v : Z) : Z :=
  Z.of_nat (length (filter (fun p => p <=? v) (ravel src))).

(** Histogram equalisation: the cumulative histogram past the lowest
    intensity present, scaled to [0, 255]. *)
Definition ref_equalizeHist_lut (src : ndarray Z) (v : Z) : Z :=
  let lo := fold_right Z.min 255 (ravel src) in
  let n0 := count_le src lo in
  let total := size src in
  if total =? n0 then lo
  else Z.max 0 (Z.min 255 ((2 * 255 * (count_le src v - n0) + (total - n0))
                            / (2 * (total - n0)))).

Definition nearest (src : ndarray Z) (dsize : Z * Z) (i j : nat) : Z :=
  item src (Z.to_nat (Z.of_nat i * Z.of_nat (shape0 src) / snd dsize))
           (Z.to_nat (Z.of_nat j * Z.of_nat (shape1 src) / fst dsize)).

Definition laplacian_ksize1 (src : ndarray Z) (i j : nat) : Z :=
  let r k := borderInterpolate (Z.of_nat i + k) (shape0 src) in
  let c k := borderInterpolate (Z.of_nat j + k) (shape1 src) in
  item src (r (-1)) j + item src (r 1) j + item src i (c (-1)) + item src i (c 1)
  - 4 * item src i j.

Definition fits (minSize maxSize : Z * Z) (r : Rect) : bool :=
  (fst minSize <=? rect_w r) && (rect_w r <=? fst maxSize)
  && (snd minSize <=? rect_h r) && (rect_h r <=? snd maxSize).

Definition ref_detectMultiScale (cc : list Rect) (im : ndarray Z) (scaleFactor : float)
  (minNeighbors flags : Z) (minSize maxSize : Z * Z) : list Rect :=
  let found := filter (fits minSize maxSize) cc in
  if Z.testbit flags 2 then firstn 1 found else found.

Fixpoint binomial_row (n : nat) : list Z :=
  match n with
  | O => [1]
  | S n' => let r := binomial_row n' in map (fun p => fst p + snd p) (combine (0 :: r) (r ++ [0]))
  end.

(** Binomial coefficients over their sum: the integer approximation of a
    Gaussian window. *)
Definition binomial_kernel (ksize : Z) (sigma : Q) : list Q :=
  let r := binomial_row (Z.to_nat (ksize - 1)) in
  let total := fold_right Z.add 0 r in
  map (fun c => inject_Z c / inject_Z total)%Q r.

#[export] Instance cv2 : Cv2 := {|
  CascadeClassifier := list Rect;
  detectMultiScale := ref_detectMultiScale;
  CASCADE_DO_CANNY_PRUNING := 1;
  CASCADE_FIND_BIGGEST_OBJECT := 4;
  equalizeHist_lut := ref_equalizeHist_lut;
  INTER_CUBIC := nearest;
  Laplacian_response := laplacian_ksize1;
  getGaussianKernel := binomial_kernel
|}.

End Reference.

(** ** Sample images, rectangles and runs

    Small inputs on which the methods are run with the reference instance. *)

Module Samples.

Definition cv : Cv2 := Reference.cv2.

(** [NORM_SIZE = 3], [NORM_MARGIN = 1]. *)
Definition cfg_small : @configuration cv := @mk_configuration cv "" [] 3 1.

(** The defaults: [NORM_SIZE = 100], [NORM_MARGIN = 10]. *)
Definition cfg_default : @configuration cv := @init_configuration cv.

(** A dark image with one lit pixel. *)
Definition im4 : ndarray Z :=
  of_rows 0 [[0; 0; 0; 0]; [0; 10; 0; 0]; [0; 0; 0; 0]; [0; 0; 0; 0]].

(** A uniform grey image. *)
Definition flat4 : ndarray Z :=
  of_rows 0 [[128; 128; 128; 128]; [128; 128; 128; 128];
             [128; 128; 128; 128]; [128; 128; 128; 128]].

Definition blank (rows cols : nat) : ndarray Z := mk_array rows cols (fun _ _ => 0).

Definition whole : Rect := mk_rect 0 0 4 4.
Definition corner3 : Rect := mk_rect 0 0 3 3.
Definition corner2 : Rect := mk_rect 0 0 2 2.

Definition scores_of (c : result (list Score * nat)) : list Score :=
  match c with Ok (scores, _) => scores | Raise _ => [] end.

(** The records of three runs of [_rank]. *)
Definition ranked1 : list Score :=
  Eval vm_compute in scores_of (@_rank cv cfg_small im4 [whole]).

Definition ranked3 : list Score :=
  Eval vm_compute in scores_of (@_rank cv cfg_small im4 [corner2; whole; corner3]).

Definition ranked_flat : list Score :=
  Eval vm_compute in scores_of (@_rank cv cfg_small flat4 [whole; corner2]).

(** The measures of the first loop of the last run. *)
Definition measured_flat : list Measure :=
  Eval vm_compute in
    match mapM (@rank_measure cv cfg_small flat4) [whole; corner2] with
    | Ok measures => measures
    | Raise _ => []
    end.

(** A configuration whose cascade reports three rectangles. *)
Definition cfg_cascade : @configuration cv :=
  @mk_configuration cv ""
    [("HAAR_FRONTALFACE_ALT2"%string, [corner3; whole; mk_rect 0 0 30 30])] 100 10.

Definition X3 : ndarray Q :=
  of_rows 0%Q [[0; 1 # 2; 1]; [1 # 4; 1; 0]; [1; 3 # 4; 1 # 2]]%Q.

(** [NORM_SIZE = 3], [NORM_MARGIN = 0]. *)
Definition cfg_flush : @configuration cv := @mk_configuration cv "" [] 3 0.

(** What [_norm_rect] returns under [cfg_flush]. *)
Definition face_flush : ndarray Z :=
  match @_norm_rect cv cfg_flush im4 whole false false with
  | Ok roi => roi
  | Raise _ => blank 0 0
  end.

(** A rectangle that reaches beyond the image, and one that lies beyond it. *)
Definition overhang : Rect := mk_rect 2 2 4 4.
Definition outside : Rect := mk_rect 4 0 2 2.

(** A system that holds every file, and one that holds none. *)
Definition sys_ready : @System cv :=
  @mk_system cv (fun _ => true) (fun _ => Ok [whole]) (fun _ => Some im4)
    "/usr/local/bin/facedetect".

Definition sys_bare : @System cv :=
  @mk_system cv (fun _ => false) (fun _ => Raise cv2_error) (fun _ => None)
    "/usr/local/bin/facedetect".

(** The detector after [configure()] on [sys_ready]. *)
Definition detector_ready : @FaceDetector cv :=
  Eval vm_compute in
    match configure sys_ready __init__ None with
    | (_, Returns self) => self
    | _ => __init__
    end.

(** What [configure()] writes on [sys_bare]. *)
Definition cannot_load : string :=
  Eval vm_compute in fst (configure sys_bare __init__ None).


Definition Y3 : ndarray Q :=
  of_rows 0%Q [[1; 0; 1 # 3]; [1 # 2; 1 # 2; 0]; [0; 1; 1]]%Q.

End Samples.

(** * Properties

    ** Shapes of crops, trims and resized images *)

Lemma bind_Ok {A B} (c : result A) (k : A -> result B) (b : B) :
  bind c k = Ok b -> exists a, c = Ok a /\ k a = Ok b.
Proof. destruct c as [a|e]; simpl; intros H; [eauto | discriminate]. Qed.

Lemma slice_bounds_inside (len : nat) (start n : Z) :
  0 <= start -> 0 <= n -> start + n <= Z.of_nat len ->
  slice_bounds len start (start + n) = (Z.to_nat start, Z.to_nat n).
Proof.
  intros Hs Hn Hle. unfold slice_bounds, slice_index.
  destruct (Z.ltb_spec start 0); [lia|].
  destruct (Z.ltb_spec (start + n) 0); [lia|].
  f_equal; f_equal; lia.
Qed.

Lemma slice_bounds_shave (len : nat) (m : Z) :
  0 < m -> snd (slice_bounds len m (- m)) = Z.to_nat (Z.of_nat len - 2 * m).
Proof.
  intros Hm. unfold slice_bounds, slice_index. cbn [snd].
  destruct (Z.ltb_spec m 0); [lia|].
  destruct (Z.ltb_spec (- m) 0); [|lia].
  lia.
Qed.

Lemma crop_rect_shape {A} (im : ndarray A) (r : Rect) :
  rect_inside im r ->
  shape0 (_crop_rect im r 0) = Z.to_nat (rect_h r) /\
  shape1 (_crop_rect im r 0) = Z.to_nat (rect_w r).
Proof.
  intros (Hx & Hy & Hw & Hh & Hxw & Hyh).
  unfold _crop_rect, slice2.
  rewrite !Z.add_0_r, !Z.sub_0_r.
  rewrite !slice_bounds_inside by lia. split; reflexivity.
Qed.

Lemma shave_margin_shape {A} (im : ndarray A) (m : Z) :
  0 < m ->
  shape0 (_shave_margin im m) = Z.to_nat (Z.of_nat (shape0 im) - 2 * m) /\
  shape1 (_shave_margin im m) = Z.to_nat (Z.of_nat (shape1 im) - 2 * m).
Proof.
  intros Hm. unfold _shave_margin, slice2. cbn [shape0 shape1].
  rewrite !slice_bounds_shave by assumption. split; reflexivity.
Qed.

(** [im[0:-0, 0:-0]] is [im[0:0, 0:0]]. *)
Lemma shave_margin_zero {A} (im : ndarray A) : shape (_shave_margin im 0) = (O, O).
Proof. unfold _shave_margin, slice2, slice_bounds, slice_index, shape. simpl. f_equal; lia. Qed.

Lemma cv2_resize_Ok `{Cv2} (src : ndarray Z) (dsize : Z * Z) (dst : ndarray Z) :
  cv2_resize src dsize = Ok dst ->
  is_empty src = false /\ 0 < fst dsize /\ 0 < snd dsize /\
  shape0 dst = Z.to_nat (snd dsize) /\ shape1 dst = Z.to_nat (fst dsize).
Proof.
  unfold cv2_resize.
  destruct (is_empty src); simpl; [discriminate|].
  destruct (Z.leb_spec (fst dsize) 0); simpl; [discriminate|].
  destruct (Z.leb_spec (snd dsize) 0); simpl; [discriminate|].
  intros [= <-]. simpl. repeat split; lia.
Qed.

Lemma cv2_resize_total `{Cv2} (src : ndarray Z) (dsize : Z * Z) :
  is_empty src = false -> 0 < fst dsize -> 0 < snd dsize ->
  exists dst, cv2_resize src dsize = Ok dst.
Proof.
  intros He Hw Hh. unfold cv2_resize. rewrite He. simpl.
  destruct (Z.leb_spec (fst dsize) 0); [lia|].
  destruct (Z.leb_spec (snd dsize) 0); [lia|]. simpl. eauto.
Qed.

Lemma is_empty_false {A} (a : ndarray A) :
  (0 < shape0 a)%nat -> (0 < shape1 a)%nat -> is_empty a = false.
Proof.
  unfold is_empty. intros H0 H1.
  destruct (Nat.eqb_spec (shape0 a) 0); [lia|].
  destruct (Nat.eqb_spec (shape1 a) 0); [lia|]. reflexivity.
Qed.

(** C3, amended: for a rectangle of positive extent inside the image and a
    configuration with [NORM_SIZE = N] and [NORM_MARGIN = M], [0 < M <= N],
    [_norm_rect] without [same_aspect] returns an image of exactly
    [(N - M) x (N - M)] pixels: the crop is resized to a square of side
    [N + M], and [M] pixels are then shaved off each of its four sides. *)
Theorem norm_rect_square_shape :
  forall (cv : Cv2) (cfg : configuration) (im : ndarray Z) (rect : Rect) (equalize : bool),
    0 < NORM_MARGIN cfg -> NORM_MARGIN cfg <= NORM_SIZE cfg ->
    rect_inside im rect ->
    exists roi,
      _norm_rect cfg im rect equalize false = Ok roi /\
      Z.of_nat (shape0 roi) = NORM_SIZE cfg - NORM_MARGIN cfg /\
      Z.of_nat (shape1 roi) = NORM_SIZE cfg - NORM_MARGIN cfg.
Proof.
  intros cv cfg im rect equalize HM HMN Hin.
  destruct (crop_rect_shape im rect Hin) as [Hc0 Hc1].
  pose proof Hin as (_ & _ & Hw & Hh & _).
  unfold _norm_rect, norm_dsize. simpl.
  set (roi := if equalize then _ else _).
  assert (Hne : is_empty roi = false).
  { subst roi. apply is_empty_false; destruct equalize;
      unfold cv2_equalizeHist, array_map; cbn [shape0 shape1];
      rewrite ?Hc0, ?Hc1; lia. }
  destruct (cv2_resize_total roi (NORM_SIZE cfg + NORM_MARGIN cfg, NORM_SIZE cfg + NORM_MARGIN cfg))
    as [dst Hdst]; simpl; try lia; try assumption.
  rewrite Hdst. simpl. eexists. split; [reflexivity|].
  apply cv2_resize_Ok in Hdst. simpl in Hdst.
  destruct Hdst as (_ & _ & _ & Hd0 & Hd1).
  destruct (shave_margin_shape dst (NORM_MARGIN cfg) HM) as [Hs0 Hs1].
  rewrite Hs0, Hs1, Hd0, Hd1. lia.
Qed.

(** ** The order of binary64 values *)

Definition sf_key (x : spec_float) : Z * Z * Z :=
  match x with
  | S754_zero _ => (0, 0, 0)
  | S754_nan => (0, 0, 0)
  | S754_infinity false => (2, 0, 0)
  | S754_infinity true => (-2, 0, 0)
  | S754_finite false m e => (1, e, Zpos m)
  | S754_finite true m e => (-1, - e, - Zpos m)
  end.

Definition lex3 (a b : Z * Z * Z) : Prop :=
  let '(a1, a2, a3) := a in
  let '(b1, b2, b3) := b in
  a1 < b1 \/ (a1 = b1 /\ (a2 < b2 \/ (a2 = b2 /\ a3 < b3))).

Lemma SFcompare_lex (x y : spec_float) :
  x <> S754_nan -> y <> S754_nan ->
  (SFcompare x y = Some Lt <-> lex3 (sf_key x) (sf_key y)) /\
  (SFcompare x y = Some Eq <-> sf_key x = sf_key y) /\
  (SFcompare x y = Some Gt <-> lex3 (sf_key y) (sf_key x)).
Proof.
  intros Hx Hy.
  destruct x as [sx|sx| |sx mx ex]; try congruence;
  destruct y as [sy|sy| |sy my ey]; try congruence;
  try destruct sx; try destruct sy; cbn -[Z.compare Pos.compare_cont];
  try (repeat split; intros; try discriminate; try reflexivity;
       try match goal with H : _ = _ |- _ => inversion H end; lia).
  - change (Pos.compare_cont Eq mx my) with (Pos.compare mx my).
    destruct (Z.compare_spec ex ey); [destruct (Pos.compare_spec mx my)| |]; cbn;
    repeat split; intros; try discriminate; try reflexivity;
    try match goal with H : (_, _, _) = (_, _, _) |- _ => inversion H end; subst; try reflexivity; try lia.
  - change (Pos.compare_cont Eq mx my) with (Pos.compare mx my).
    destruct (Z.compare_spec ex ey); [destruct (Pos.compare_spec mx my)| |]; cbn;
    repeat split; intros; try discriminate; try reflexivity;
    try match goal with H : (_, _, _) = (_, _, _) |- _ => inversion H end; subst; try reflexivity; try lia.
Qed.

Lemma is_nan_false_spec (x : float) : is_nan x = false -> Prim2SF x <> S754_nan.
Proof.
  intros H. unfold Prim2SF. rewrite H.
  destruct (is_zero x); [discriminate|].
  destruct (is_infinity x); [discriminate|].
  destruct (Z.frexp x) as [r ex].
  destruct (shr_fexp _ _ _ _ _) as [sh e'].
  destruct (shr_m sh); discriminate.
Qed.

Definition fkey (x : float) : Z * Z * Z := sf_key (Prim2SF x).

Lemma ltb_lex (x y : float) :
  is_nan x = false -> is_nan y = false ->
  ((x <? y)%float = true <-> lex3 (fkey x) (fkey y)).
Proof.
  intros Hx Hy. rewrite FloatAxioms.ltb_spec. unfold SFltb, fkey.
  destruct (SFcompare_lex _ _ (is_nan_false_spec x Hx) (is_nan_false_spec y Hy)) as (Hl & He & Hg).
  rewrite <- Hl. destruct (SFcompare (Prim2SF x) (Prim2SF y)) as [[]|]; split; congruence.
Qed.

Lemma leb_lex (x y : float) :
  is_nan x = false -> is_nan y = false ->
  ((x <=? y)%float = true <-> ~ lex3 (fkey y) (fkey x)).
Proof.
  intros Hx Hy. rewrite FloatAxioms.leb_spec. unfold SFleb, fkey.
  destruct (SFcompare_lex _ _ (is_nan_false_spec x Hx) (is_nan_false_spec y Hy)) as (Hl & He & Hg).
  destruct (sf_key (Prim2SF x)) as [[a1 a2] a3], (sf_key (Prim2SF y)) as [[b1 b2] b3].
  unfold lex3 in *.
  destruct (SFcompare (Prim2SF x) (Prim2SF y)) as [[]|].
  - assert (E : (a1, a2, a3) = (b1, b2, b3)) by (apply He; reflexivity).
    inversion E; subst. split; [lia | reflexivity].
  - assert (a1 < b1 \/ a1 = b1 /\ (a2 < b2 \/ a2 = b2 /\ a3 < b3)) by (apply Hl; reflexivity).
    split; [lia | reflexivity].
  - assert (b1 < a1 \/ b1 = a1 /\ (b2 < a2 \/ b2 = a2 /\ b3 < a3)) by (apply Hg; reflexivity).
    split; [discriminate | lia].
  - exfalso.
    destruct (Z.lt_trichotomy a1 b1) as [|[|]];
    [ assert (None = Some Lt) by (apply Hl; lia); discriminate | | assert (None = Some Gt) by (apply Hg; lia); discriminate ].
    destruct (Z.lt_trichotomy a2 b2) as [|[|]];
    [ assert (None = Some Lt) by (apply Hl; lia); discriminate | | assert (None = Some Gt) by (apply Hg; lia); discriminate ].
    destruct (Z.lt_trichotomy a3 b3) as [|[|]];
    [ assert (None = Some Lt) by (apply Hl; lia); discriminate | | assert (None = Some Gt) by (apply Hg; lia); discriminate ].
    assert (None = Some Eq :> option comparison) by (apply He; congruence). discriminate.
Qed.

Lemma eqb_lex (x y : float) :
  is_nan x = false -> is_nan y = false ->
  ((x =? y)%float = true <-> fkey x = fkey y).
Proof.
  intros Hx Hy. rewrite FloatAxioms.eqb_spec. unfold SFeqb, fkey.
  destruct (SFcompare_lex _ _ (is_nan_false_spec x Hx) (is_nan_false_spec y Hy)) as (Hl & He & Hg).
  rewrite <- He. destruct (SFcompare (Prim2SF x) (Prim2SF y)) as [[]|]; split; congruence.
Qed.

Lemma lex3_irrefl a : ~ lex3 a a.
Proof. destruct a as [[a1 a2] a3]. unfold lex3. lia. Qed.

Lemma lex3_trans a b c : lex3 a b -> lex3 b c -> lex3 a c.
Proof. destruct a as [[a1 a2] a3], b as [[b1 b2] b3], c as [[c1 c2] c3]. unfold lex3. lia. Qed.

Lemma lex3_weak a b c : lex3 a b -> ~ lex3 c b -> lex3 a c.
Proof. destruct a as [[a1 a2] a3], b as [[b1 b2] b3], c as [[c1 c2] c3]. unfold lex3. lia. Qed.

Lemma lex3_total a b : ~ lex3 a b -> ~ lex3 b a -> a = b.
Proof.
  destruct a as [[a1 a2] a3], b as [[b1 b2] b3]. unfold lex3. intros.
  assert (a1 = b1) by lia. assert (a2 = b2) by lia. assert (a3 = b3) by lia. congruence.
Qed.

(** NaN propagation and commutativity of the product *)



Lemma is_nan_spec (x : float) : is_nan x = true -> x = nan.
Proof.
  intros H. apply Prim2SF_inj. unfold Prim2SF at 1. rewrite H. reflexivity.
Qed.

Lemma float_mul_nan_l (x : float) : (nan * x = nan)%float.
Proof. apply Prim2SF_inj. rewrite mul_spec. reflexivity. Qed.

Lemma float_add_nan_l (x : float) : (nan + x = nan)%float.
Proof. apply Prim2SF_inj. rewrite add_spec. reflexivity. Qed.

(** ** Stable insertion sort *)

Section StableSort.

Variable key : nat -> float.
(** The order the input list lists its items in. *)
Variable T : nat -> nat -> Prop.

Definition klt (a b : nat) : Prop := lex3 (fkey (key a)) (fkey (key b)).
Definition knum (a : nat) : Prop := is_nan (key a) = false.

(** [a] is sorted before [b]: a smaller key, or a key not greater and an
    earlier place in the input. *)
Definition before (a b : nat) : Prop := klt a b \/ (~ klt b a /\ T a b).

Lemma key_ltb (a b : nat) :
  knum a -> knum b -> ((key a <? key b)%float = true <-> klt a b).
Proof. intros Ha Hb. apply ltb_lex; assumption. Qed.

Lemma sort_insert_perm (x : nat) (l : list nat) :
  Permutation (x :: l) (sort_insert key x l).
Proof.
  induction l as [|y l IH]; simpl; [reflexivity|].
  destruct (key x <? key y)%float; [reflexivity|].
  rewrite perm_swap. constructor. exact IH.
Qed.

Lemma sort_insert_sorted (x : nat) (l : list nat) :
  knum x -> Forall knum l ->
  StronglySorted before l -> Forall (fun a => T a x) l ->
  StronglySorted before (sort_insert key x l).
Proof.
  intros Hx. induction l as [|y l IH]; intros Hn Hs Ht; simpl.
  - repeat constructor.
  - inversion Hn as [|? ? Hy Hnl]; subst.
    inversion Hs as [|? ? Hsl Hyl]; subst.
    inversion Ht as [|? ? Hyx Htl]; subst.
    destruct (key x <? key y)%float eqn:E.
    + apply key_ltb in E; try assumption.
      constructor; [assumption|]. constructor; [left; exact E|].
      rewrite Forall_forall in Hyl, Hnl |- *. intros z Hz. left.
      destruct (Hyl z Hz) as [Hyz | [Hzy _]].
      * eapply lex3_trans; eassumption.
      * eapply lex3_weak; eassumption.
    + assert (Hnlt : ~ klt x y).
      { intros C. apply key_ltb in C; try assumption. congruence. }
      constructor; [apply IH; assumption|].
      rewrite Forall_forall in Hyl |- *. intros z Hz.
      apply (Permutation_in _ (Permutation_sym (sort_insert_perm x l))) in Hz.
      destruct Hz as [<- | Hz]; [right; split; assumption | apply Hyl; assumption].
Qed.

Lemma sorted_acc (l acc : list nat) :
  Forall knum acc -> Forall knum l ->
  StronglySorted before acc ->
  (forall a x, In a acc -> In x l -> T a x) ->
  StronglySorted T l ->
  StronglySorted before (fold_left (fun acc x => sort_insert key x acc) l acc) /\
  Permutation (acc ++ l) (fold_left (fun acc x => sort_insert key x acc) l acc).
Proof.
  revert acc. induction l as [|x l IH]; intros acc Hna Hnl Hs Ht Hl; simpl.
  - rewrite app_nil_r. split; [assumption | reflexivity].
  - inversion Hnl as [|? ? Hx Hnl']; subst.
    inversion Hl as [|? ? Hl' Hxl]; subst.
    destruct (IH (sort_insert key x acc)) as [IH1 IH2].
    + eapply Permutation_Forall; [apply sort_insert_perm|]. constructor; assumption.
    + assumption.
    + apply sort_insert_sorted; try assumption.
      rewrite Forall_forall. intros a Ha. apply Ht; [assumption | left; reflexivity].
    + intros a z Ha Hz.
      apply (Permutation_in _ (Permutation_sym (sort_insert_perm x acc))) in Ha.
      destruct Ha as [<- | Ha].
      * rewrite Forall_forall in Hxl. apply Hxl; assumption.
      * apply Ht; [assumption | right; assumption].
    + assumption.
    + split; [assumption|].
      rewrite <- IH2. rewrite <- (sort_insert_perm x acc).
      symmetry. apply Permutation_middle.
Qed.

Lemma sorted_spec (l : list nat) :
  Forall knum l -> StronglySorted T l ->
  StronglySorted before (sorted key l) /\ Permutation l (sorted key l).
Proof.
  intros Hn Hl. unfold sorted.
  apply (sorted_acc l []); try assumption; try constructor.
  intros a x [].
Qed.

End StableSort.

Lemma StronglySorted_app {A} (R : A -> A -> Prop) (l1 l2 : list A) :
  StronglySorted R l1 -> StronglySorted R l2 ->
  (forall a b, In a l1 -> In b l2 -> R a b) ->
  StronglySorted R (l1 ++ l2).
Proof.
  induction l1 as [|x l1 IH]; intros H1 H2 H12; simpl; [assumption|].
  inversion H1 as [|? ? Hs Hx]; subst.
  constructor.
  - apply IH; try assumption. intros a b Ha Hb. apply H12; [right|]; assumption.
  - rewrite Forall_app. split; [assumption|].
    rewrite Forall_forall. intros b Hb. apply H12; [left; reflexivity | assumption].
Qed.

Lemma StronglySorted_rev {A} (R : A -> A -> Prop) (l : list A) :
  StronglySorted R l -> StronglySorted (fun a b => R b a) (rev l).
Proof.
  induction 1 as [|x l Hs IH Hx]; simpl; [constructor|].
  apply StronglySorted_app; [assumption | repeat constructor |].
  intros a b Ha [<- | []]. rewrite Forall_forall in Hx. apply Hx. apply in_rev. assumption.
Qed.

Lemma StronglySorted_nth {A} (R : A -> A -> Prop) (l : list A) (d : A) :
  StronglySorted R l ->
  forall p q, (p < q)%nat -> (q < length l)%nat -> R (nth p l d) (nth q l d).
Proof.
  induction 1 as [|x l Hs IH Hx]; intros p q Hpq Hq; simpl in Hq; [lia|].
  destruct q as [|q]; [lia|]. destruct p as [|p]; simpl.
  - rewrite Forall_forall in Hx. apply Hx. apply nth_In. lia.
  - apply IH; lia.
Qed.

Lemma StronglySorted_seq (a n : nat) : StronglySorted lt (seq a n).
Proof.
  revert a. induction n as [|n IH]; intros a; simpl; constructor; [apply IH|].
  rewrite Forall_forall. intros x Hx. apply in_seq in Hx. lia.
Qed.

(** Descending order of [sorted_reverse]. *)
Definition ranked_before (key : nat -> float) (a b : nat) : Prop :=
  klt key b a \/ (~ klt key a b /\ (a < b)%nat).

Lemma sorted_reverse_spec (key : nat -> float) (n : nat) :
  (forall i, (i < n)%nat -> is_nan (key i) = false) ->
  StronglySorted (ranked_before key) (sorted_reverse key (seq 0 n)) /\
  Permutation (seq 0 n) (sorted_reverse key (seq 0 n)).
Proof.
  intros Hn. unfold sorted_reverse.
  destruct (sorted_spec key (fun a b => (b < a)%nat) (rev (seq 0 n))) as [Hs Hp].
  - rewrite Forall_forall. intros x Hx. apply in_rev, in_seq in Hx. apply Hn. lia.
  - apply (StronglySorted_rev lt). apply StronglySorted_seq.
  - split.
    + apply StronglySorted_rev in Hs. exact Hs.
    + rewrite <- Permutation_rev. rewrite <- Hp. apply Permutation_rev.
Qed.

(** ** The rank table *)

Lemma mapM_Forall2 {A B} (f : A -> result B) (l : list A) (l' : list B) :
  mapM f l = Ok l' -> Forall2 (fun a b => f a = Ok b) l l'.
Proof.
  revert l'. induction l as [|a l IH]; intros l' H; simpl in H.
  - inversion H. constructor.
  - apply bind_Ok in H. destruct H as (b & Hb & H).
    apply bind_Ok in H. destruct H as (bs & Hbs & H).
    inversion H; subst. constructor; [assumption | apply IH; assumption].
Qed.

Lemma Forall2_nth_error {A B} (P : A -> B -> Prop) (l : list A) (l' : list B) :
  Forall2 P l l' ->
  forall i a b, nth_error l i = Some a -> nth_error l' i = Some b -> P a b.
Proof.
  induction 1 as [|x y l l' Hxy H IH]; intros i a b Ha Hb.
  - destruct i; discriminate.
  - destruct i as [|i]; simpl in *.
    + inversion Ha; inversion Hb; subst. assumption.
    + eapply IH; eassumption.
Qed.

Lemma list_update_length {A} (l : list A) (k : nat) (g : A -> A) :
  length (list_update l k g) = length l.
Proof.
  revert k. induction l as [|a l IH]; intros [|k]; simpl; try reflexivity.
  rewrite IH. reflexivity.
Qed.

Lemma list_update_nth {A} (l : list A) (k j : nat) (g : A -> A) (d : A) :
  (k < length l)%nat ->
  nth j (list_update l k g) d = if Nat.eqb j k then g (nth j l d) else nth j l d.
Proof.
  revert k j. induction l as [|a l IH]; intros k j Hk; simpl in Hk; [lia|].
  destruct k as [|k], j as [|j]; simpl; try reflexivity.
  apply IH. lia.
Qed.

Section AssignRanks.

Variable ranks : list nat.
Variable scores : list Score.
Hypothesis ranks_nodup : NoDup ranks.
Hypothesis ranks_length : length ranks = length scores.
Hypothesis ranks_bound : forall p, (p < length scores)%nat -> (nth p ranks O < length scores)%nat.

Definition assign_upto (k : nat) : list Score :=
  fold_left (fun acc i => list_update acc (nth i ranks O) (set_RANK i)) (seq 0 k) scores.

Lemma assign_upto_length (k : nat) : length (assign_upto k) = length scores.
Proof.
  unfold assign_upto. induction k as [|k IH]; [reflexivity|].
  rewrite seq_S, fold_left_app. simpl. rewrite list_update_length. exact IH.
Qed.

Lemma assign_upto_nth (k : nat) :
  (k <= length scores)%nat ->
  forall j, (j < length scores)%nat ->
    (forall p, (p < k)%nat -> nth p ranks O = j ->
       nth j (assign_upto k) default_score = set_RANK p (nth j scores default_score)) /\
    ((forall p, (p < k)%nat -> nth p ranks O <> j) ->
       nth j (assign_upto k) default_score = nth j scores default_score).
Proof.
  induction k as [|k IH]; intros Hk j Hj.
  - split; [intros p Hp; lia | reflexivity].
  - assert (Hk' : (k <= length scores)%nat) by lia.
    destruct (IH Hk' j Hj) as [IH1 IH2].
    assert (E : assign_upto (S k)
                = list_update (assign_upto k) (nth k ranks O) (set_RANK k)).
    { unfold assign_upto. rewrite seq_S, fold_left_app. reflexivity. }
    rewrite E. rewrite list_update_nth
      by (rewrite assign_upto_length; apply ranks_bound; lia).
    destruct (Nat.eqb_spec j (nth k ranks O)) as [Ej | Ej].
    + assert (Hfresh : forall p, (p < k)%nat -> nth p ranks O <> j).
      { intros p Hp C. rewrite Ej in C.
        apply (proj1 (NoDup_nth ranks O) ranks_nodup) in C; lia. }
      split.
      * intros p Hp Hpj.
        assert (p = k).
        { rewrite Ej in Hpj. apply (proj1 (NoDup_nth ranks O) ranks_nodup) in Hpj; lia. }
        subst p. rewrite (IH2 Hfresh). reflexivity.
      * intros C. exfalso. apply (C k); [lia | congruence].
    + split.
      * intros p Hp Hpj. assert (p <> k) by congruence.
        apply IH1; [lia | assumption].
      * intros C. apply IH2. intros p Hp. apply C. lia.
Qed.

Lemma assign_ranks_nth (p : nat) :
  (p < length scores)%nat ->
  nth (nth p ranks O) (assign_ranks ranks scores) default_score
  = set_RANK p (nth (nth p ranks O) scores default_score).
Proof.
  intros Hp. change (assign_ranks ranks scores) with (assign_upto (length scores)).
  apply (assign_upto_nth (length scores) (Nat.le_refl _) (nth p ranks O) (ranks_bound p Hp));
    [assumption | reflexivity].
Qed.

End AssignRanks.

Lemma assign_ranks_length (ranks : list nat) (scores : list Score) :
  length (assign_ranks ranks scores) = length scores.
Proof.
  unfold assign_ranks. generalize (seq 0 (length scores)). intros l.
  revert scores. induction l as [|i l IH]; intros scores; simpl; [reflexivity|].
  rewrite IH. apply list_update_length.
Qed.

Lemma rank_order_facts (scores : list Score) :
  Permutation (seq 0 (length scores)) (rank_order scores) /\
  NoDup (rank_order scores) /\
  length (rank_order scores) = length scores /\
  (forall p, (p < length scores)%nat -> (nth p (rank_order scores) O < length scores)%nat) /\
  (forall j, (j < length scores)%nat ->
     exists p, (p < length scores)%nat /\ nth p (rank_order scores) O = j).
Proof.
  assert (Hp : Permutation (seq 0 (length scores)) (rank_order scores)).
  { unfold rank_order, sorted_reverse.
    rewrite <- Permutation_rev.
    set (key := fun x => score_f (nth x scores default_score)).
    assert (forall l acc, Permutation (acc ++ l)
              (fold_left (fun acc x => sort_insert key x acc) l acc)) as Hf.
    { induction l as [|x l IH]; intros acc; simpl; [rewrite app_nil_r; reflexivity|].
      rewrite <- IH, <- (sort_insert_perm key x acc). symmetry. apply Permutation_middle. }
    unfold sorted. rewrite <- (Hf _ []). simpl. apply Permutation_rev. }
  assert (Hl : length (rank_order scores) = length scores).
  { rewrite <- (Permutation_length Hp). apply length_seq. }
  split; [assumption|]. split; [|split; [assumption|split]].
  - eapply Permutation_NoDup; [exact Hp | apply seq_NoDup].
  - intros p Hlt.
    assert (In (nth p (rank_order scores) O) (seq 0 (length scores))).
    { eapply Permutation_in; [symmetry; exact Hp|]. apply nth_In. lia. }
    apply in_seq in H. lia.
  - intros j Hj.
    assert (In j (rank_order scores)).
    { eapply Permutation_in; [exact Hp|]. apply in_seq. lia. }
    destruct (In_nth _ _ O H) as (p & Hp1 & Hp2). exists p. split; [lia | assumption].
Qed.

(** ** Rounding to binary64 *)


Definition D (m : Z) : Z := Zdigits2 m.

Lemma digits2_pos_size (p : positive) : digits2_pos p = Pos.size p.
Proof. induction p; simpl; congruence. Qed.

Lemma digits_log2 (m : Z) : 0 < m -> D m = Z.log2 m + 1.
Proof.
  destruct m as [|p|p]; try lia. intros _. unfold D. simpl.
  rewrite digits2_pos_size. destruct p; simpl; lia.
Qed.

Lemma digits_nonneg (m : Z) : 0 <= D m.
Proof. destruct m; unfold D; simpl; lia. Qed.

Lemma digits_pos (m : Z) : 0 < m -> 1 <= D m.
Proof. intros H. rewrite digits_log2 by assumption. pose proof (Z.log2_nonneg m). lia. Qed.

Lemma digits_le (a b : Z) : 0 <= a <= b -> D a <= D b.
Proof.
  intros [Ha Hab]. destruct (Z.eq_dec a 0) as [->|Hn]; [apply digits_nonneg|].
  rewrite !digits_log2 by lia. pose proof (Z.log2_le_mono a b Hab). lia.
Qed.

Lemma digits_succ (m : Z) : 0 <= m -> D (m + 1) <= D m + 1.
Proof.
  intros H. destruct (Z.eq_dec m 0) as [->|Hn]; [unfold D; simpl; lia|].
  rewrite !digits_log2 by lia. pose proof (Z.log2_succ_le m) as Hl.
  replace (Z.succ m) with (m + 1) in Hl by lia. lia.
Qed.

Lemma digits_shiftr (m n : Z) : 0 <= m -> 0 <= n -> D (Z.shiftr m n) <= Z.max 0 (D m - n).
Proof.
  intros Hm Hn. destruct (Z.eq_dec m 0) as [->|Hm0].
  - rewrite Z.shiftr_0_l. unfold D. simpl. lia.
  - pose proof (Z.shiftr_nonneg m n) as Hs.
    destruct (Z.eq_dec (Z.shiftr m n) 0) as [->|Hs0]; [unfold D at 1; simpl; lia|].
    rewrite !digits_log2 by lia. rewrite Z.log2_shiftr by lia.
    assert (Z.log2 m - n >= 0 \/ Z.log2 m < n) as [|Hlt] by lia; [lia|].
    exfalso. apply Hs0. apply Z.shiftr_eq_0; lia.
Qed.

Lemma digits_shiftl (m n : Z) : 0 < m -> 0 <= n -> D (Z.shiftl m n) = D m + n.
Proof.
  intros Hm Hn. assert (0 < Z.shiftl m n) by (rewrite Z.shiftl_mul_pow2 by lia; 
    apply Z.mul_pos_pos; [lia | apply Z.pow_pos_nonneg; lia]).
  rewrite !digits_log2 by lia. rewrite Z.log2_shiftl by lia. lia.
Qed.

Lemma digits_lt_pow2 (m k : Z) : 0 <= m -> 0 <= k -> m < 2 ^ k -> D m <= k.
Proof.
  intros Hm Hk Hlt. destruct (Z.eq_dec m 0) as [->|Hn]; [unfold D; simpl; lia|].
  rewrite digits_log2 by lia. apply Z.log2_lt_pow2 in Hlt; lia.
Qed.

Lemma lt_pow2_digits (m : Z) : 0 <= m -> m < 2 ^ D m.
Proof.
  intros Hm. destruct (Z.eq_dec m 0) as [->|Hn]; [unfold D; simpl; lia|].
  rewrite digits_log2 by lia. apply Z.log2_spec. lia.
Qed.

Lemma iter_pos_xO (m d : positive) : Zpos (Pos.iter xO m d) = Z.shiftl (Zpos m) (Zpos d).
Proof.
  rewrite Z.shiftl_mul_pow2 by lia.
  induction d as [|d IH] using Pos.peano_ind.
  - simpl. lia.
  - rewrite Pos.iter_succ, Pos2Z.inj_xO, IH, Pos2Z.inj_succ, Z.pow_succ_r by lia. lia.
Qed.

(** Shifting a rounding record right. *)

Lemma shr_1_m (mrs : shr_record) :
  0 <= shr_m mrs -> shr_m (shr_1 mrs) = Z.shiftr (shr_m mrs) 1.
Proof.
  destruct mrs as [m r s]. simpl. intros Hm.
  rewrite <- Z.div2_spec.
  destruct m as [|[p|p|]|p]; simpl; try lia; reflexivity.
Qed.

Lemma iter_shr_1_m (p : positive) : forall mrs,
  0 <= shr_m mrs ->
  shr_m (SpecFloat.iter_pos shr_1 p mrs) = Z.shiftr (shr_m mrs) (Zpos p).
Proof.
  assert (Hstep : forall mrs, 0 <= shr_m mrs -> 0 <= shr_m (shr_1 mrs)).
  { intros mrs H. rewrite shr_1_m by assumption. apply Z.shiftr_nonneg. assumption. }
  induction p as [p IH|p IH|]; intros mrs Hm; simpl.
  - rewrite IH, IH, shr_1_m; try assumption.
    + rewrite !Z.shiftr_shiftr by lia. f_equal. lia.
    + apply Hstep. assumption.
    + rewrite IH by (apply Hstep; assumption). apply Z.shiftr_nonneg.
      rewrite shr_1_m by assumption. apply Z.shiftr_nonneg. assumption.
  - rewrite IH, IH; try assumption.
    + rewrite !Z.shiftr_shiftr by lia. f_equal. lia.
    + rewrite IH by assumption. apply Z.shiftr_nonneg. assumption.
  - apply shr_1_m. assumption.
Qed.

Lemma shr_spec (mrs : shr_record) (e n : Z) :
  0 <= shr_m mrs ->
  shr_m (fst (shr mrs e n)) = Z.shiftr (shr_m mrs) (Z.max 0 n) /\
  snd (shr mrs e n) = e + Z.max 0 n.
Proof.
  intros Hm. destruct n as [|p|p]; simpl.
  - rewrite Z.shiftr_0_r. lia.
  - rewrite iter_shr_1_m by assumption. split; [reflexivity | lia].
  - rewrite Z.shiftr_0_r. lia.
Qed.

Lemma shr_record_of_loc_m (m : Z) (l : location) : shr_m (shr_record_of_loc m l) = m.
Proof. destruct l as [|[]]; reflexivity. Qed.

Lemma round_nearest_even_bounds (m : Z) (l : location) :
  m <= round_nearest_even m l <= m + 1.
Proof. destruct l as [|[]]; simpl; try lia. destruct (Z.even m); lia. Qed.

(** A value that is zero or finite, with exponent at least [L] and
    magnitude (digits plus exponent) at most [B]. *)
Definition fin_in (L B : Z) (x : spec_float) : Prop :=
  match x with
  | S754_zero _ => True
  | S754_finite _ m e => L <= e /\ D (Zpos m) + e <= B
  | _ => False
  end.

(** A value of sign [s], or a zero of sign [s] (never NaN). *)
Definition has_sign (s : bool) (x : spec_float) : Prop :=
  match x with
  | S754_zero s' | S754_infinity s' | S754_finite s' _ _ => s' = s
  | S754_nan => False
  end.

Lemma binary_round_aux_sign (sx : bool) (mx ex : Z) (lx : location) :
  0 <= mx -> has_sign sx (binary_round_aux prec emax sx mx ex lx).
Proof.
  intros Hm. unfold binary_round_aux, shr_fexp.
  change Zdigits2 with D.
  set (n1 := fexp prec emax (D mx + ex) - ex).
  destruct (shr_spec (shr_record_of_loc mx lx) ex n1) as [E1 E1'];
    [rewrite shr_record_of_loc_m; assumption|].
  rewrite shr_record_of_loc_m in E1.
  destruct (shr (shr_record_of_loc mx lx) ex n1) as [mrs' e']. simpl in E1, E1'.
  set (m1 := round_nearest_even (shr_m mrs') (loc_of_shr_record mrs')).
  assert (Hm1 : 0 <= m1).
  { pose proof (round_nearest_even_bounds (shr_m mrs') (loc_of_shr_record mrs')).
    pose proof (Z.shiftr_nonneg mx (Z.max 0 n1)). subst m1. lia. }
  set (n2 := fexp prec emax (D m1 + e') - e').
  destruct (shr_spec (shr_record_of_loc m1 loc_Exact) e' n2) as [E2 E2']; [assumption|].
  destruct (shr (shr_record_of_loc m1 loc_Exact) e' n2) as [mrs'' e'']. simpl in E2, E2'.
  pose proof (Z.shiftr_nonneg m1 (Z.max 0 n2)) as Hs.
  destruct (shr_m mrs'') as [|m|m]; [reflexivity | | lia].
  match goal with |- context [if ?c then _ else _] => destruct c end; reflexivity.
Qed.

Lemma binary_round_aux_fin (sx : bool) (mx ex : Z) (lx : location) (L B : Z) :
  0 <= mx -> D mx + ex <= B -> L <= ex -> ex <= B -> -1074 <= B <= 970 ->
  fin_in L (B + 1) (binary_round_aux prec emax sx mx ex lx).
Proof.
  intros Hm HB HL HeB HBr. unfold binary_round_aux, shr_fexp.
  change Zdigits2 with D.
  set (n1 := fexp prec emax (D mx + ex) - ex).
  assert (Hn1 : n1 = Z.max (D mx + ex - 53) (-1074) - ex) by reflexivity.
  destruct (shr_spec (shr_record_of_loc mx lx) ex n1) as [E1 E1'];
    [rewrite shr_record_of_loc_m; assumption|].
  rewrite shr_record_of_loc_m in E1.
  destruct (shr (shr_record_of_loc mx lx) ex n1) as [mrs' e']. simpl in E1, E1'.
  set (m1 := round_nearest_even (shr_m mrs') (loc_of_shr_record mrs')).
  pose proof (round_nearest_even_bounds (shr_m mrs') (loc_of_shr_record mrs')) as Hr.
  fold m1 in Hr.
  pose proof (Z.shiftr_nonneg mx (Z.max 0 n1)) as Hs1.
  pose proof (digits_shiftr mx (Z.max 0 n1) Hm ltac:(lia)) as Hd1.
  rewrite <- E1 in Hs1, Hd1.
  assert (Hm1 : 0 <= m1) by lia.
  assert (Hdm1 : D m1 <= D (shr_m mrs') + 1).
  { etransitivity; [apply (digits_le m1 (shr_m mrs' + 1)); lia | apply digits_succ; lia]. }
  set (n2 := fexp prec emax (D m1 + e') - e').
  assert (Hn2 : n2 = Z.max (D m1 + e' - 53) (-1074) - e') by reflexivity.
  destruct (shr_spec (shr_record_of_loc m1 loc_Exact) e' n2) as [E2 E2']; [assumption|].
  destruct (shr (shr_record_of_loc m1 loc_Exact) e' n2) as [mrs'' e'']. simpl in E2, E2'.
  pose proof (Z.shiftr_nonneg m1 (Z.max 0 n2)) as Hs2.
  pose proof (digits_shiftr m1 (Z.max 0 n2) Hm1 ltac:(lia)) as Hd2.
  rewrite <- E2 in Hs2, Hd2.
  pose proof (digits_nonneg mx). pose proof (digits_nonneg m1).
  pose proof (digits_nonneg (shr_m mrs')).
  destruct (shr_m mrs'') as [|m|m] eqn:Em; [exact I | | lia].
  assert (He : e'' <= 971) by lia.
  change (emax - prec) with 971.
  destruct (Z.leb_spec e'' 971); [|lia]. unfold fin_in. lia.
Qed.

(** ** Magnitudes after normalisation and conversion from integers *)

Lemma fin_in_weaken (L B L' B' : Z) (x : spec_float) :
  fin_in L B x -> L' <= L -> B <= B' -> fin_in L' B' x.
Proof. destruct x; simpl; intros; try assumption; lia. Qed.

Lemma digits_abs (z : Z) : D (Z.abs z) = D z.
Proof. destruct z; reflexivity. Qed.

Lemma digits_Zpos (p : positive) : Zpos (digits2_pos p) = D (Zpos p).
Proof. reflexivity. Qed.

Lemma digits_mul (a b : Z) : 0 <= a -> 0 <= b -> D (a * b) <= D a + D b.
Proof.
  intros Ha Hb. pose proof (digits_nonneg a). pose proof (digits_nonneg b).
  apply digits_lt_pow2; [nia | lia |].
  rewrite Z.pow_add_r by lia.
  pose proof (lt_pow2_digits a Ha). pose proof (lt_pow2_digits b Hb). nia.
Qed.

Lemma digits_add (a b : Z) : 0 <= a -> 0 <= b -> D (a + b) <= Z.max (D a) (D b) + 1.
Proof.
  intros Ha Hb. pose proof (digits_nonneg a). pose proof (digits_nonneg b).
  apply digits_lt_pow2; [lia | lia |].
  rewrite Z.pow_add_r by lia. change (2 ^ 1) with 2.
  pose proof (lt_pow2_digits a Ha). pose proof (lt_pow2_digits b Hb).
  assert (2 ^ D a <= 2 ^ Z.max (D a) (D b)) by (apply Z.pow_le_mono_r; lia).
  assert (2 ^ D b <= 2 ^ Z.max (D a) (D b)) by (apply Z.pow_le_mono_r; lia).
  lia.
Qed.

Lemma digits_sqrt (a : Z) : 0 <= a -> D (Z.sqrt a) <= (D a + 1) / 2.
Proof.
  intros Ha. pose proof (digits_nonneg a) as Hd.
  pose proof (Z.sqrt_nonneg a) as Hs.
  assert (Hk : 0 <= (D a + 1) / 2) by (apply Z.div_pos; lia).
  apply digits_lt_pow2; [assumption | assumption |].
  destruct (Z.lt_ge_cases (Z.sqrt a) (2 ^ ((D a + 1) / 2))) as [|Hge]; [assumption|exfalso].
  pose proof (Z.sqrt_spec a Ha) as [Hlo _].
  pose proof (lt_pow2_digits a Ha) as Hlt.
  assert (2 ^ D a <= 2 ^ ((D a + 1) / 2) * 2 ^ ((D a + 1) / 2)).
  { rewrite <- Z.pow_add_r by lia. apply Z.pow_le_mono_r; [lia|].
    pose proof (Z.div_mod (D a + 1) 2 ltac:(lia)). pose proof (Z.mod_pos_bound (D a + 1) 2 ltac:(lia)). lia. }
  assert (0 < 2 ^ ((D a + 1) / 2)) by (apply Z.pow_pos_nonneg; lia).
  nia.
Qed.

Lemma shl_align_spec (mx : positive) (ex ex' : Z) :
  D (Zpos (fst (shl_align mx ex ex'))) + snd (shl_align mx ex ex') = D (Zpos mx) + ex /\
  snd (shl_align mx ex ex') = Z.min ex ex'.
Proof.
  unfold shl_align. destruct (ex' - ex) as [|d|d] eqn:E; cbn [fst snd]; try lia.
  rewrite iter_pos_xO, digits_shiftl by lia. lia.
Qed.

Lemma binary_round_fin (sx : bool) (mx : positive) (ex B : Z) :
  D (Zpos mx) + ex <= B -> -1074 <= B <= 970 ->
  fin_in (Z.min ex (fexp prec emax (D (Zpos mx) + ex))) (B + 1)
    (binary_round prec emax sx mx ex) /\
  has_sign sx (binary_round prec emax sx mx ex).
Proof.
  intros HB HBr. unfold binary_round. rewrite digits_Zpos.
  destruct (shl_align_spec mx ex (fexp prec emax (D (Zpos mx) + ex))) as [E1 E2].
  destruct (shl_align mx ex (fexp prec emax (D (Zpos mx) + ex))) as [mz ez].
  cbn [fst snd] in E1, E2.
  pose proof (digits_pos (Zpos mz) ltac:(lia)).
  split.
  - apply binary_round_aux_fin; lia.
  - apply binary_round_aux_sign. lia.
Qed.

Lemma binary_normalize_fin (m e B : Z) :
  D m + e <= B -> -1074 <= B <= 970 ->
  fin_in (Z.min e (-1074)) (B + 1) (binary_normalize prec emax m e false).
Proof.
  intros HB HBr. destruct m as [|p|p]; cbn [binary_normalize]; [exact I | |].
  - eapply fin_in_weaken; [apply (binary_round_fin false p e B); assumption | | lia].
    unfold fexp. change (SpecFloat.emin prec emax) with (-1074). lia.
  - eapply fin_in_weaken; [apply (binary_round_fin true p e B); [exact HB | assumption] | | lia].
    unfold fexp. change (SpecFloat.emin prec emax) with (-1074). lia.
Qed.

Lemma binary_normalize_sign (m e : Z) :
  0 <= m -> has_sign false (binary_normalize prec emax m e false).
Proof.
  destruct m as [|p|p]; simpl; intros H; [reflexivity | | lia].
  unfold binary_round.
  destruct (shl_align _ _ _) as [mz ez]. apply binary_round_aux_sign. lia.
Qed.

(** [Z2F] below 2^63 in magnitude *)

Lemma SFopp_binary_round_aux (mx ex : Z) (lx : location) :
  SFopp (binary_round_aux prec emax false mx ex lx) = binary_round_aux prec emax true mx ex lx.
Proof.
  unfold binary_round_aux.
  destruct (shr_fexp prec emax mx ex lx) as [mrs' e'].
  destruct (shr_fexp prec emax _ e' loc_Exact) as [mrs'' e''].
  destruct (shr_m mrs''); try reflexivity.
  destruct (e'' <=? emax - prec); reflexivity.
Qed.

Lemma Z2F_nonneg_spec (z : Z) :
  0 <= z < 2 ^ 63 -> Prim2SF (Z2F z) = binary_normalize prec emax z 0 false.
Proof.
  intros Hz.
  assert (E : Uint63.to_Z (Uint63.of_Z z) = z).
  { rewrite Uint63.of_Z_spec. apply Z.mod_small. exact Hz. }
  assert (E2 : Z2F z = of_uint63 (Uint63.of_Z z)).
  { unfold Z2F. rewrite <- E at 1. rewrite <- of_uint63_spec. apply SF2Prim_Prim2SF. }
  rewrite E2, of_uint63_spec, E. reflexivity.
Qed.

Lemma Z2F_spec (z : Z) :
  - 2 ^ 63 < z < 2 ^ 63 -> Prim2SF (Z2F z) = binary_normalize prec emax z 0 false.
Proof.
  intros Hz. destruct z as [|p|p].
  - apply Z2F_nonneg_spec. lia.
  - apply Z2F_nonneg_spec. lia.
  - assert (E : Z2F (Zneg p) = (- Z2F (Zpos p))%float).
    { unfold Z2F at 1. simpl binary_normalize.
      assert (E' : binary_round prec emax true p 0 = Prim2SF (- Z2F (Zpos p))%float).
      { rewrite opp_spec, Z2F_nonneg_spec by lia. simpl binary_normalize.
        unfold binary_round. destruct (shl_align _ _ _) as [mz ez].
        symmetry. apply SFopp_binary_round_aux. }
      rewrite E'. apply SF2Prim_Prim2SF. }
    rewrite E, opp_spec, Z2F_nonneg_spec by lia. simpl binary_normalize.
    unfold binary_round. destruct (shl_align _ _ _) as [mz ez].
    apply SFopp_binary_round_aux.
Qed.

Lemma Z2F_fin (z k : Z) :
  0 <= k <= 63 -> Z.abs z < 2 ^ k ->
  fin_in (-52) (k + 1) (Prim2SF (Z2F z)).
Proof.
  intros Hk Hz.
  assert (2 ^ k <= 2 ^ 63) by (apply Z.pow_le_mono_r; lia).
  rewrite Z2F_spec by lia.
  assert (Hd : D z <= k).
  { rewrite <- digits_abs. apply digits_lt_pow2; lia. }
  destruct z as [|p|p]; simpl binary_normalize; [exact I | |].
  - eapply fin_in_weaken; [apply (binary_round_fin false p 0 k); lia | | lia].
    unfold fexp. change (SpecFloat.emin prec emax) with (-1074). change prec with 53.
    pose proof (digits_pos (Zpos p) ltac:(lia)). lia.
  - eapply fin_in_weaken; [apply (binary_round_fin true p 0 k); [exact Hd | lia] | | lia].
    unfold fexp. change (SpecFloat.emin prec emax) with (-1074). change prec with 53.
    pose proof (digits_pos (Zpos p) ltac:(lia)). lia.
Qed.

Lemma Z2F_sign (z : Z) : 0 <= z < 2 ^ 63 -> has_sign false (Prim2SF (Z2F z)).
Proof. intros Hz. rewrite Z2F_nonneg_spec by assumption. apply binary_normalize_sign. lia. Qed.

(** ** Magnitudes after the arithmetic operations *)

(** Zero or finite, of magnitude at most [B]. *)
Definition fin_le (B : Z) (x : spec_float) : Prop :=
  match x with
  | S754_zero _ => True
  | S754_finite _ m e => D (Zpos m) + e <= B
  | _ => False
  end.

Lemma fin_in_le (L B : Z) (x : spec_float) : fin_in L B x -> fin_le B x.
Proof. destruct x; simpl; intros; try assumption; lia. Qed.

Lemma fin_le_weaken (B B' : Z) (x : spec_float) : fin_le B x -> B <= B' -> fin_le B' x.
Proof. destruct x; simpl; intros; try assumption; lia. Qed.

Lemma binary_round_aux_le (sx : bool) (mx ex : Z) (lx : location) (B : Z) :
  0 <= mx -> D mx + ex <= B -> ex <= B -> -1074 <= B <= 970 ->
  fin_le (B + 1) (binary_round_aux prec emax sx mx ex lx).
Proof.
  intros. apply (fin_in_le ex). apply binary_round_aux_fin; lia.
Qed.

Lemma binary_normalize_le (m e B : Z) :
  D m + e <= B -> -1074 <= B <= 970 ->
  fin_le (B + 1) (binary_normalize prec emax m e false).
Proof. intros. eapply fin_in_le. apply binary_normalize_fin; eassumption. Qed.

Lemma SFmul_le (x y : spec_float) (Bx By : Z) :
  fin_le Bx x -> fin_le By y -> -1074 <= Bx + By <= 970 ->
  fin_le (Bx + By + 1) (SFmul prec emax x y).
Proof.
  intros Hx Hy HB.
  destruct x as [sx|sx| |sx mx ex], y as [sy|sy| |sy my ey];
    cbn [fin_le SFmul] in *; try exact I; try contradiction.
  pose proof (digits_pos (Zpos mx) ltac:(lia)). pose proof (digits_pos (Zpos my) ltac:(lia)).
  pose proof (digits_mul (Zpos mx) (Zpos my) ltac:(lia) ltac:(lia)) as Hd.
  change (Z.pos (mx * my)) with (Zpos mx * Zpos my).
  apply binary_round_aux_le; lia.
Qed.

Lemma cond_Zopp_abs (s : bool) (m : Z) : Z.abs (cond_Zopp s m) = Z.abs m.
Proof. destruct s; simpl; lia. Qed.

Lemma SFaddsub_core_le (sx sy : bool) (mx my : positive) (ex ey Bx By : Z) (z : Z) :
  D (Zpos mx) + ex <= Bx -> D (Zpos my) + ey <= By ->
  Z.abs z <= Zpos (fst (shl_align mx ex (Z.min ex ey))) + Zpos (fst (shl_align my ey (Z.min ex ey))) ->
  -1074 <= Z.max Bx By + 1 <= 970 ->
  fin_le (Z.max Bx By + 2) (binary_normalize prec emax z (Z.min ex ey) false).
Proof.
  intros Hx Hy Hz HB.
  destruct (shl_align_spec mx ex (Z.min ex ey)) as [E1 E2].
  destruct (shl_align_spec my ey (Z.min ex ey)) as [F1 F2].
  set (a := Zpos (fst (shl_align mx ex (Z.min ex ey)))) in *.
  set (b := Zpos (fst (shl_align my ey (Z.min ex ey)))) in *.
  pose proof (digits_add a b ltac:(lia) ltac:(lia)) as Hab.
  pose proof (digits_le (Z.abs z) (a + b) ltac:(lia)) as Hle.
  rewrite digits_abs in Hle.
  replace (Z.max Bx By + 2) with ((Z.max Bx By + 1) + 1) by lia.
  apply binary_normalize_le; lia.
Qed.

Lemma SFadd_le (x y : spec_float) (Bx By : Z) :
  fin_le Bx x -> fin_le By y -> -1074 <= Z.max Bx By + 1 <= 970 ->
  fin_le (Z.max Bx By + 2) (SFadd prec emax x y).
Proof.
  intros Hx Hy HB.
  destruct x as [sx|sx| |sx mx ex], y as [sy|sy| |sy my ey]; try contradiction.
  - simpl. destruct sx, sy; exact I.
  - unfold SFadd; cbn [fin_le] in *; lia.
  - unfold SFadd; cbn [fin_le] in *; lia.
  - unfold SFadd. apply (SFaddsub_core_le sx sy mx my ex ey Bx By); try assumption.
    generalize (fst (shl_align mx ex (Z.min ex ey))) (fst (shl_align my ey (Z.min ex ey))).
    intros a b. destruct sx, sy; unfold cond_Zopp; lia.
Qed.

Lemma SFsub_le (x y : spec_float) (Bx By : Z) :
  fin_le Bx x -> fin_le By y -> -1074 <= Z.max Bx By + 1 <= 970 ->
  fin_le (Z.max Bx By + 2) (SFsub prec emax x y).
Proof.
  intros Hx Hy HB.
  destruct x as [sx|sx| |sx mx ex], y as [sy|sy| |sy my ey]; try contradiction.
  - simpl. destruct sx, sy; exact I.
  - unfold SFsub; cbn [fin_le] in *; lia.
  - unfold SFsub; cbn [fin_le] in *; lia.
  - unfold SFsub. apply (SFaddsub_core_le sx sy mx my ex ey Bx By); try assumption.
    generalize (fst (shl_align mx ex (Z.min ex ey))) (fst (shl_align my ey (Z.min ex ey))).
    intros a b. destruct sx, sy; unfold cond_Zopp; lia.
Qed.

Lemma SFdiv_core_le (mx my : positive) (ex ey : Z) :
  let '(mz, ez, lz) := SFdiv_core_binary prec emax (Zpos mx) ex (Zpos my) ey in
  0 <= mz /\ D mz + ez <= D (Zpos mx) + ex - ey /\ ez <= ex - ey.
Proof.
  unfold SFdiv_core_binary.
  set (e' := Z.min _ _).
  assert (He' : e' <= ex - ey) by (subst e'; lia).
  set (s := ex - ey - e').
  set (m' := match s with Z.pos _ => Z.shiftl (Zpos mx) s | 0 => Zpos mx | Z.neg _ => 0 end).
  assert (Hm' : 0 <= m' /\ D m' <= D (Zpos mx) + s).
  { subst m'. destruct s as [|p|p] eqn:Es; try lia.
    - rewrite digits_shiftl by lia. split; [apply Z.shiftl_nonneg; lia | lia]. }
  pose proof (Z_div_mod m' (Zpos my) ltac:(lia)) as Hdm.
  destruct (Z.div_eucl m' (Zpos my)) as [q r].
  destruct Hdm as [Hq Hr].
  assert (0 <= q <= m') by nia.
  pose proof (digits_le q m' ltac:(lia)).
  subst s. repeat split; lia.
Qed.

Lemma SFdiv_le (x y : spec_float) (Bx Ly By : Z) :
  fin_le Bx x -> fin_in Ly By y -> y <> S754_zero false -> y <> S754_zero true ->
  -1074 <= Bx - Ly <= 970 ->
  fin_le (Bx - Ly + 1) (SFdiv prec emax x y).
Proof.
  intros Hx Hy Hz1 Hz2 HB.
  destruct x as [sx|sx| |sx mx ex], y as [sy|sy| |sy my ey]; try contradiction; try exact I.
  - destruct sy; congruence.
  - destruct sy; congruence.
  - unfold SFdiv. pose proof (SFdiv_core_le mx my ex ey) as Hc.
    destruct (SFdiv_core_binary prec emax (Zpos mx) ex (Zpos my) ey) as [[mz ez] lz].
    destruct Hc as (H0 & H1 & H2). cbn [fin_le fin_in] in Hx, Hy.
    pose proof (digits_pos (Zpos mx) ltac:(lia)).
    apply binary_round_aux_le; lia.
Qed.

Lemma SFsqrt_core_le (mx : positive) (ex : Z) :
  let '(mz, ez, lz) := SFsqrt_core_binary prec emax (Zpos mx) ex in
  0 <= mz /\ D mz + ez <= (D (Zpos mx) + ex + 1) / 2 /\ ez <= ex / 2.
Proof.
  unfold SFsqrt_core_binary.
  rewrite !Z.div2_div.
  set (e' := Z.min _ _).
  assert (He' : e' <= ex / 2) by (subst e'; lia).
  set (s := ex - 2 * e').
  assert (Hs : 0 <= s).
  { subst s. pose proof (Z.div_mod ex 2 ltac:(lia)). pose proof (Z.mod_pos_bound ex 2 ltac:(lia)). lia. }
  set (m' := match s with Z.pos _ => Z.shiftl (Zpos mx) s | 0 => Zpos mx | Z.neg _ => 0 end).
  assert (Hm' : 0 <= m' /\ D m' <= D (Zpos mx) + s).
  { subst m'. destruct s as [|p|p] eqn:Es; try lia.
    - rewrite digits_shiftl by lia. split; [apply Z.shiftl_nonneg; lia | lia]. }
  pose proof (Z.sqrtrem_sqrt m') as Hq.
  destruct (Z.sqrtrem m') as [q r]. simpl in Hq. subst q.
  pose proof (digits_sqrt m' ltac:(lia)) as Hd.
  pose proof (Z.sqrt_nonneg m').
  assert ((D m' + 1) / 2 + e' <= (D (Zpos mx) + ex + 1) / 2).
  { assert ((D m' + 1) / 2 <= (D (Zpos mx) + s + 1) / 2) by (apply Z.div_le_mono; lia).
    replace (D (Zpos mx) + ex + 1) with ((D (Zpos mx) + s + 1) + e' * 2) by (subst s; lia).
    rewrite Z.div_add by lia. lia. }
  repeat split; lia.
Qed.

Lemma SFsqrt_le (x : spec_float) (B : Z) :
  fin_le B x -> has_sign false x -> -1074 <= (B + 1) / 2 <= 970 ->
  fin_le ((B + 1) / 2 + 1) (SFsqrt prec emax x).
Proof.
  intros Hx Hs HB.
  destruct x as [sx|sx| |sx mx ex]; try contradiction; try exact I.
  simpl in Hs. subst sx. unfold SFsqrt.
  pose proof (SFsqrt_core_le mx ex) as Hc.
  destruct (SFsqrt_core_binary prec emax (Zpos mx) ex) as [[mz ez] lz].
  destruct Hc as (H0 & H1 & H2). cbn [fin_le fin_in] in Hx.
  pose proof (digits_pos (Zpos mx) ltac:(lia)).
  assert ((D (Zpos mx) + ex + 1) / 2 <= (B + 1) / 2) by (apply Z.div_le_mono; lia).
  assert (ex / 2 <= (B + 1) / 2) by (apply Z.div_le_mono; lia).
  apply binary_round_aux_le; lia.
Qed.

(** ** Finite and non-negative floats *)

Lemma digits_shiftr_eq (m n : Z) : 0 < m -> 0 <= n < D m -> D (Z.shiftr m n) = D m - n /\ 0 < Z.shiftr m n.
Proof.
  intros Hm Hn. rewrite (digits_log2 m) in * by assumption.
  assert (Hpos : 0 < Z.shiftr m n).
  { pose proof (Z.shiftr_nonneg m n).
    destruct (Z.eq_dec (Z.shiftr m n) 0) as [E|]; [|lia].
    apply Z.shiftr_eq_0_iff in E. destruct E as [|[_ E]]; lia. }
  split; [|assumption].
  rewrite digits_log2 by assumption. rewrite Z.log2_shiftr by assumption. lia.
Qed.

(** Rounding a positive mantissa of magnitude above the least exponent never
    yields a zero. *)
Lemma binary_round_aux_nonzero (sx : bool) (mx ex : Z) (lx : location) :
  0 < mx -> -1074 < D mx + ex ->
  forall s, binary_round_aux prec emax sx mx ex lx <> S754_zero s.
Proof.
  intros Hm Hmag s. unfold binary_round_aux, shr_fexp.
  change Zdigits2 with D.
  set (n1 := fexp prec emax (D mx + ex) - ex).
  assert (Hn1 : n1 = Z.max (D mx + ex - 53) (-1074) - ex) by reflexivity.
  destruct (shr_spec (shr_record_of_loc mx lx) ex n1) as [E1 E1'];
    [rewrite shr_record_of_loc_m; lia|].
  rewrite shr_record_of_loc_m in E1.
  destruct (shr (shr_record_of_loc mx lx) ex n1) as [mrs' e']. simpl in E1, E1'.
  set (m1 := round_nearest_even (shr_m mrs') (loc_of_shr_record mrs')).
  pose proof (round_nearest_even_bounds (shr_m mrs') (loc_of_shr_record mrs')) as Hr.
  fold m1 in Hr.
  pose proof (digits_pos mx Hm) as Hdx.
  destruct (digits_shiftr_eq mx (Z.max 0 n1) Hm ltac:(lia)) as [Hd1 Hp1].
  rewrite <- E1 in Hd1, Hp1.
  assert (Hm1 : 0 < m1) by lia.
  pose proof (digits_le (shr_m mrs') m1 ltac:(lia)) as Hdm1.
  set (n2 := fexp prec emax (D m1 + e') - e').
  assert (Hn2 : n2 = Z.max (D m1 + e' - 53) (-1074) - e') by reflexivity.
  destruct (shr_spec (shr_record_of_loc m1 loc_Exact) e' n2) as [E2 E2']; [simpl; lia|].
  destruct (shr (shr_record_of_loc m1 loc_Exact) e' n2) as [mrs'' e'']. simpl in E2, E2'.
  destruct (digits_shiftr_eq m1 (Z.max 0 n2) Hm1 ltac:(lia)) as [Hd2 Hp2].
  rewrite <- E2 in Hp2.
  destruct (shr_m mrs'') as [|m|m]; try lia.
  destruct (e'' <=? emax - prec); discriminate.
Qed.

Lemma Z2F_pos_spec (z : Z) :
  0 < z < 2 ^ 62 ->
  exists m e, Prim2SF (Z2F z) = S754_finite false m e /\ -52 <= e /\ D (Zpos m) + e <= 63.
Proof.
  intros Hz.
  assert (2 ^ 62 < 2 ^ 63) by (apply Z.pow_lt_mono_r; lia).
  pose proof (Z2F_fin z 62 ltac:(lia) ltac:(lia)) as Hf.
  pose proof (Z2F_sign z ltac:(lia)) as Hs.
  assert (Hnz : forall s, Prim2SF (Z2F z) <> S754_zero s).
  { rewrite Z2F_nonneg_spec by lia. destruct z as [|p|p]; try lia.
    simpl binary_normalize. unfold binary_round. rewrite digits_Zpos.
    destruct (shl_align_spec p 0 (fexp prec emax (D (Zpos p) + 0))) as [E1 E2].
    destruct (shl_align p 0 (fexp prec emax (D (Zpos p) + 0))) as [mz ez].
    cbn [fst snd] in E1, E2. pose proof (digits_pos (Zpos p) ltac:(lia)).
    apply binary_round_aux_nonzero; lia. }
  destruct (Prim2SF (Z2F z)) as [s|s| |s m e]; try contradiction.
  - exfalso. apply (Hnz s). reflexivity.
  - simpl in Hs. subst s. exists m, e. cbn [fin_in] in Hf. repeat split; lia.
Qed.

(** ** Primitive floats *)

Definition ffin (B : Z) (x : float) : Prop := fin_le B (Prim2SF x).
Definition fnonneg (x : float) : Prop := has_sign false (Prim2SF x).

Lemma ffin_weaken (B B' : Z) (x : float) : ffin B x -> B <= B' -> ffin B' x.
Proof. apply fin_le_weaken. Qed.

Lemma ffin_Z2F (z : Z) : Z.abs z < 2 ^ 62 -> ffin 63 (Z2F z).
Proof.
  intros Hz. unfold ffin. eapply fin_in_le. apply (Z2F_fin z 62); lia.
Qed.

Lemma ffin_mul (x y : float) (Bx By : Z) :
  ffin Bx x -> ffin By y -> -1074 <= Bx + By <= 970 -> ffin (Bx + By + 1) (x * y)%float.
Proof. unfold ffin. rewrite mul_spec. apply SFmul_le. Qed.

Lemma ffin_add (x y : float) (Bx By : Z) :
  ffin Bx x -> ffin By y -> -1074 <= Z.max Bx By + 1 <= 970 ->
  ffin (Z.max Bx By + 2) (x + y)%float.
Proof. unfold ffin. rewrite add_spec. apply SFadd_le. Qed.

Lemma ffin_sub (x y : float) (Bx By : Z) :
  ffin Bx x -> ffin By y -> -1074 <= Z.max Bx By + 1 <= 970 ->
  ffin (Z.max Bx By + 2) (x - y)%float.
Proof. unfold ffin. rewrite sub_spec. apply SFsub_le. Qed.

Lemma ffin_div (x y : float) (Bx Ly : Z) (sy : bool) (my : positive) (ey : Z) :
  ffin Bx x -> Prim2SF y = S754_finite sy my ey -> Ly <= ey ->
  -1074 <= Bx - Ly <= 970 -> ffin (Bx - Ly + 1) (x / y)%float.
Proof.
  unfold ffin. intros Hx Hy HL HB. rewrite div_spec.
  apply (SFdiv_le _ _ Bx Ly (D (Zpos my) + ey)); try assumption;
    rewrite Hy; try discriminate. cbn [fin_in]. lia.
Qed.

Lemma ffin_sqrt (x : float) (B : Z) :
  ffin B x -> fnonneg x -> -1074 <= (B + 1) / 2 <= 970 -> ffin ((B + 1) / 2 + 1) (sqrt x).
Proof. unfold ffin, fnonneg. rewrite sqrt_spec. apply SFsqrt_le. Qed.

Lemma Prim2SF_2 : Prim2SF 2 = S754_finite false 4503599627370496 (-51).
Proof. reflexivity. Qed.

Lemma Prim2SF_20 : Prim2SF 20 = S754_finite false 5629499534213120 (-48).
Proof. reflexivity. Qed.

Lemma Prim2SF_0 : Prim2SF 0 = S754_zero false.
Proof. reflexivity. Qed.

Lemma ffin_half (x : float) (B : Z) : ffin B x -> -1074 <= B + 51 <= 970 -> ffin (B + 52) (x / 2)%float.
Proof.
  intros Hx HB. eapply ffin_weaken; [eapply (ffin_div x 2 B (-51)); [exact Hx | exact Prim2SF_2 | lia | lia] | lia].
Qed.

Lemma py_int_total (x : float) (B : Z) : ffin B x -> exists k, py_int x = Ok k.
Proof.
  unfold ffin, py_int. destruct (Prim2SF x); simpl; intros H; try contradiction; eauto.
Qed.

(** Signs *)

Lemma fnonneg_mul_self (x : float) (B : Z) : ffin B x -> fnonneg (x * x)%float.
Proof.
  unfold ffin, fnonneg. rewrite mul_spec. destruct (Prim2SF x) as [s|s| |s m e]; try contradiction; intros _.
  - simpl. destruct s; reflexivity.
  - cbn [SFmul]. destruct s; cbn [xorb]; apply binary_round_aux_sign; lia.
Qed.

Lemma fnonneg_add (x y : float) (Bx By : Z) :
  ffin Bx x -> ffin By y -> fnonneg x -> fnonneg y -> fnonneg (x + y)%float.
Proof.
  unfold ffin, fnonneg. rewrite add_spec.
  destruct (Prim2SF x) as [sx|sx| |sx mx ex], (Prim2SF y) as [sy|sy| |sy my ey];
    try contradiction; cbn [has_sign]; intros _ _ -> ->; try reflexivity.
  unfold SF64add, SFadd. apply binary_normalize_sign.
  generalize (fst (shl_align mx ex (Z.min ex ey))) (fst (shl_align my ey (Z.min ex ey))).
  intros a b. cbn [cond_Zopp]. lia.
Qed.

Lemma fnonneg_sqrt (x : float) : fnonneg x -> fnonneg (sqrt x).
Proof.
  unfold fnonneg. rewrite sqrt_spec.
  destruct (Prim2SF x) as [s|s| |s m e]; cbn [has_sign]; try contradiction; intros ->; try reflexivity.
  unfold SF64sqrt, SFsqrt. pose proof (SFsqrt_core_le m e) as Hc.
  destruct (SFsqrt_core_binary prec emax (Zpos m) e) as [[mz ez] lz].
  apply binary_round_aux_sign. lia.
Qed.

Lemma fnonneg_Z2F (z : Z) : 0 <= z < 2 ^ 62 -> fnonneg (Z2F z).
Proof.
  intros Hz. apply Z2F_sign.
  assert (2 ^ 62 < 2 ^ 63) by (apply Z.pow_lt_mono_r; lia). lia.
Qed.

Lemma fnonneg_div (x y : float) (Bx By : Z) :
  ffin Bx x -> ffin By y -> fnonneg x -> fnonneg y -> (y =? 0)%float = false ->
  fnonneg (x / y)%float.
Proof.
  unfold ffin, fnonneg. intros Hx Hy Sx Sy Hnz.
  rewrite FloatAxioms.eqb_spec, Prim2SF_0 in Hnz. rewrite div_spec.
  destruct (Prim2SF x) as [sx|sx| |sx mx ex], (Prim2SF y) as [sy|sy| |sy my ey];
    try contradiction; cbn [has_sign] in *; subst; try discriminate; try reflexivity.
  unfold SF64div, SFdiv. pose proof (SFdiv_core_le mx my ex ey) as Hc.
  destruct (SFdiv_core_binary prec emax (Zpos mx) ex (Zpos my) ey) as [[mz ez] lz].
  apply (binary_round_aux_sign (xorb false false)). lia.
Qed.

Lemma fnonneg_leb (x : float) : fnonneg x -> (0 <=? x)%float = true.
Proof.
  unfold fnonneg. rewrite FloatAxioms.leb_spec, Prim2SF_0.
  destruct (Prim2SF x) as [s|s| |s m e]; cbn [has_sign]; try contradiction; intros ->; reflexivity.
Qed.

Lemma ffin_not_nan (x : float) (B : Z) : ffin B x -> is_nan x = false.
Proof.
  unfold ffin. intros H. destruct (is_nan x) eqn:E; [|reflexivity].
  apply is_nan_spec in E. subst x. contradiction.
Qed.

(** ** The stages of [_rank] *)

(** Python's [max] *)

Lemma ltb_true_not_nan (x y : float) :
  (x <? y)%float = true -> is_nan x = false /\ is_nan y = false.
Proof.
  intros H. split.
  - destruct (is_nan x) eqn:E; [|reflexivity]. apply is_nan_spec in E. subst.
    rewrite FloatAxioms.ltb_spec in H. discriminate.
  - destruct (is_nan y) eqn:E; [|reflexivity]. apply is_nan_spec in E. subst.
    rewrite FloatAxioms.ltb_spec in H. unfold SFltb in H.
    destruct (Prim2SF x); discriminate.
Qed.

Lemma ltb_nan_r (x : float) : (x <? nan)%float = false.
Proof. rewrite FloatAxioms.ltb_spec. unfold SFltb. destruct (Prim2SF x); reflexivity. Qed.

Lemma ltb_irrefl (x : float) : (x <? x)%float = false.
Proof.
  destruct (x <? x)%float eqn:E; [|reflexivity].
  destruct (ltb_true_not_nan _ _ E) as [Hx _].
  apply ltb_lex in E; try assumption. exfalso. revert E. apply lex3_irrefl.
Qed.

Lemma py_max_fold_spec (l : list float) (m0 : float) (seen : list float) :
  In m0 seen -> (forall x, In x seen -> (m0 <? x)%float = false) ->
  let m := fold_left (fun m y => if (m <? y)%float then y else m) l m0 in
  In m (seen ++ l) /\ forall x, In x (seen ++ l) -> (m <? x)%float = false.
Proof.
  revert m0 seen. induction l as [|y l IH]; intros m0 seen Hin Hub; simpl.
  - rewrite app_nil_r. split; assumption.
  - replace (seen ++ y :: l) with ((seen ++ [y]) ++ l) by (rewrite <- app_assoc; reflexivity).
    apply IH.
    + destruct (m0 <? y)%float; apply in_or_app; [right; left; reflexivity | left; assumption].
    + intros x Hx. apply in_app_or in Hx.
      destruct (m0 <? y)%float eqn:E.
      * destruct Hx as [Hx | [<- | []]]; [|apply ltb_irrefl].
        destruct (ltb_true_not_nan _ _ E) as [Hm Hy].
        destruct (is_nan x) eqn:Ex; [apply is_nan_spec in Ex; subst; apply ltb_nan_r|].
        destruct (y <? x)%float eqn:E2; [|reflexivity].
        apply ltb_lex in E, E2; try assumption.
        pose proof (lex3_trans _ _ _ E E2) as C. apply ltb_lex in C; try assumption.
        rewrite (Hub x Hx) in C. discriminate.
      * destruct Hx as [Hx | [<- | []]]; [apply Hub; assumption | assumption].
Qed.

Lemma py_max_spec (l : list float) (m : float) :
  py_max l = Ok m -> In m l /\ forall x, In x l -> (m <? x)%float = false.
Proof.
  destruct l as [|x l]; simpl; [discriminate|]. intros [= <-].
  apply (py_max_fold_spec l x [x]).
  - left; reflexivity.
  - intros y [<- | []]. apply ltb_irrefl.
Qed.

(** Inversion of [_rank] *)

Lemma py_fdiv_Ok (a b q : float) : py_fdiv a b = Ok q -> q = (a / b)%float /\ (b =? 0)%float = false.
Proof. unfold py_fdiv. destruct (b =? 0)%float; [discriminate|]. intros [= <-]. split; reflexivity. Qed.

Lemma map_nth_ext {A B} (g : A -> B) (l l' : list A) (d : A) :
  length l = length l' ->
  (forall i, (i < length l)%nat -> g (nth i l d) = g (nth i l' d)) ->
  map g l = map g l'.
Proof.
  revert l'. induction l as [|a l IH]; intros [|a' l'] Hlen H; simpl in *; try lia; [reflexivity|].
  f_equal; [apply (H 0%nat); lia | apply IH; [lia|]].
  intros i Hi. apply (H (S i)). lia.
Qed.

Lemma Forall2_nth {A B} (P : A -> B -> Prop) (l : list A) (l' : list B) (d : A) (d' : B) :
  Forall2 P l l' -> forall i, (i < length l)%nat -> P (nth i l d) (nth i l' d').
Proof.
  induction 1 as [|x y l l' Hxy H IH]; intros i Hi; simpl in Hi; [lia|].
  destruct i as [|i]; simpl; [assumption | apply IH; lia].
Qed.

Lemma Forall2_of_nth {A B} (P : A -> B -> Prop) (l : list A) (l' : list B) (d : A) (d' : B) :
  length l = length l' ->
  (forall i, (i < length l)%nat -> P (nth i l d) (nth i l' d')) ->
  Forall2 P l l'.
Proof.
  revert l'. induction l as [|a l IH]; intros [|a' l'] Hlen H; simpl in *; try lia; constructor.
  - apply (H 0%nat). lia.
  - apply IH; [lia|]. intros i Hi. apply (H (S i)). lia.
Qed.

Section RankInversion.

Context {cv : Cv2}.
Variable cfg : configuration.
Variable im : ndarray Z.
Variable rects : list Rect.
Variable scores : list Score.
Variable best : nat.
Hypothesis rank_ok : _rank cfg im rects = Ok (scores, best).

Lemma rank_stages :
  exists measures sMax eMax scored,
    Forall2 (fun r m => rank_measure cfg im r = Ok m) rects measures /\
    py_max (map measure_s measures) = Ok sMax /\
    py_max (map measure_e measures) = Ok eMax /\
    Forall2 (fun m sc => rank_normalize sMax eMax m = Ok sc) measures scored /\
    scores = assign_ranks (rank_order scored) scored /\
    best = nth 0 (rank_order scored) O.
Proof.
  pose proof rank_ok as H. unfold _rank in H.
  apply bind_Ok in H. destruct H as (measures & Hm & H).
  apply bind_Ok in H. destruct H as (sMax & Hs & H).
  apply bind_Ok in H. destruct H as (eMax & He & H).
  apply bind_Ok in H. destruct H as (scored & Hn & H).
  inversion H; subst.
  exists measures, sMax, eMax, scored.
  repeat split; try assumption; apply mapM_Forall2; assumption.
Qed.

End RankInversion.

(** Each final record is the record of the second loop with its rank set. *)
Lemma rank_scores_nth (scores scored : list Score) :
  scores = assign_ranks (rank_order scored) scored ->
  length scores = length scored /\
  forall j, (j < length scored)%nat ->
    exists p, (p < length scored)%nat /\ nth p (rank_order scored) O = j /\
      nth j scores default_score = set_RANK p (nth j scored default_score).
Proof.
  intros ->. destruct (rank_order_facts scored) as (Hp & Hnd & Hl & Hb & Hs).
  split; [apply assign_ranks_length|].
  intros j Hj. destruct (Hs j Hj) as (p & Hp1 & Hp2).
  exists p. repeat split; try assumption.
  rewrite <- Hp2. apply assign_ranks_nth; assumption.
Qed.


Lemma rank_normalize_Ok (sMax eMax : float) (m : Measure) (sc : Score) :
  rank_normalize sMax eMax m = Ok sc ->
  score_s sc = measure_s m /\ score_e sc = measure_e m /\ score_d sc = measure_d m /\
  score_sN sc = (measure_s m / sMax)%float /\
  score_eN sc = (measure_e m / eMax)%float /\
  score_f sc = (score_eN sc * 0.7 + (1 - score_d sc) * 0.1 + score_sN sc * 0.2)%float.
Proof.
  unfold rank_normalize. intros H. apply bind_Ok in H. destruct H as (sN & Hs & H).
  apply py_fdiv_Ok in Hs. destruct Hs as [-> _]. inversion H; subst. simpl.
  repeat split; reflexivity.
Qed.

Lemma rank_measure_Ok `{Cv2} (cfg : configuration) (im : ndarray Z) (rect : Rect) (m : Measure) :
  rank_measure cfg im rect = Ok m ->
  exists roi_n roi_l,
    _norm_rect cfg im rect false true = Ok roi_n /\
    cv2_Laplacian_8U roi_n = Ok roi_l /\
    measure_e m = (Z2F (np_sum roi_l)
                   / Z2F (Z.of_nat (shape0 roi_n) * Z.of_nat (shape1 roi_n)))%float /\
    (let dx := (Z2F (Z.of_nat (shape1 im)) / 2 - Z2F (rect_x rect) + Z2F (rect_w rect) / 2)%float in
     let dy := (Z2F (Z.of_nat (shape0 im)) / 2 - Z2F (rect_y rect) + Z2F (rect_h rect) / 2)%float in
     let c := (Z2F (Z.max (Z.of_nat (shape0 im)) (Z.of_nat (shape1 im))) / 2)%float in
     measure_d m = (sqrt (dx * dx + dy * dy) / c)%float /\ (c =? 0)%float = false) /\
    measure_s m = (Z2F (rect_w rect + rect_h rect) / 2)%float.
Proof.
  unfold rank_measure. intros Hm.
  apply bind_Ok in Hm. destruct Hm as (roi_n & Hn & Hm).
  apply bind_Ok in Hm. destruct Hm as (roi_l & Hl & Hm).
  apply bind_Ok in Hm. destruct Hm as (d & Hd & Hm).
  apply py_fdiv_Ok in Hd. destruct Hd as [-> Hc]. inversion Hm; subst. simpl.
  exists roi_n, roi_l. repeat split; assumption.
Qed.

(** What [_rank] returns, record by record. *)
Lemma rank_records `{Cv2} (cfg : configuration) (im : ndarray Z) (rects : list Rect)
  (scores : list Score) (best : nat) :
  _rank cfg im rects = Ok (scores, best) ->
  exists measures sMax eMax scored,
    py_max (map measure_s measures) = Ok sMax /\
    py_max (map measure_e measures) = Ok eMax /\
    map score_s scores = map measure_s measures /\
    map score_e scores = map measure_e measures /\
    length scored = length scores /\
    best = nth 0 (rank_order scored) O /\
    Forall2 (fun rect sc => exists m sc0 p,
       rank_measure cfg im rect = Ok m /\
       rank_normalize sMax eMax m = Ok sc0 /\
       sc = set_RANK p sc0) rects scores /\
    (forall j, (j < length scored)%nat ->
       exists p, (p < length scored)%nat /\ nth p (rank_order scored) O = j /\
         nth j scores default_score = set_RANK p (nth j scored default_score)).
Proof.
  intros Hr. destruct (rank_stages cfg im rects scores best Hr)
    as (measures & sMax & eMax & scored & Hm & Hs & He & Hn & Hsc & Hb).
  destruct (rank_scores_nth scores scored Hsc) as [Hlen Hnth].
  pose proof (Forall2_length Hm) as Hl1. pose proof (Forall2_length Hn) as Hl2.
  set (dm := mk_measure 0 0 0).
  assert (Hfield : forall j, (j < length scored)%nat ->
            rank_normalize sMax eMax (nth j measures dm) = Ok (nth j scored default_score)).
  { intros j Hj. apply (Forall2_nth _ _ _ dm default_score Hn). lia. }
  exists measures, sMax, eMax, scored. repeat split; try assumption; try lia.
  - rewrite <- (map_map (fun sc => sc) score_s), map_id.
    transitivity (map score_s scored).
    + apply (map_nth_ext score_s scores scored default_score Hlen).
      intros j Hj. destruct (Hnth j ltac:(lia)) as (p & _ & _ & ->). reflexivity.
    + clear -Hn. induction Hn as [|m sc ms scs Hx Hrest IH]; simpl; [reflexivity|].
      apply rank_normalize_Ok in Hx. destruct Hx as (-> & _). f_equal. exact IH.
  - transitivity (map score_e scored).
    + apply (map_nth_ext score_e scores scored default_score Hlen).
      intros j Hj. destruct (Hnth j ltac:(lia)) as (p & _ & _ & ->). reflexivity.
    + clear -Hn. induction Hn as [|m sc ms scs Hx Hrest IH]; simpl; [reflexivity|].
      apply rank_normalize_Ok in Hx. destruct Hx as (_ & -> & _). f_equal. exact IH.
  - apply (Forall2_of_nth _ _ _ (mk_rect 0 0 0 0) default_score); [lia|].
    intros j Hj. destruct (Hnth j ltac:(lia)) as (p & _ & _ & E).
    exists (nth j measures dm), (nth j scored default_score), p.
    repeat split; [|apply Hfield; lia | exact E].
    apply (Forall2_nth _ _ _ (mk_rect 0 0 0 0) dm Hm). lia.
Qed.

(** ** The records [_rank] returns *)


(** C4, amended: for every rectangle [_rank] scores, the sharpness [e] is
    the sum of the discrete-Laplacian response over the aspect-preserving
    normalised crop, each sample saturated to the 8-bit range (a negative
    response counts as 0 and one above 255 as 255, not as its absolute
    value), divided by the crop's pixel count. *)
Theorem rank_sharpness_saturated :
  forall (cv : Cv2) (cfg : configuration) (im : ndarray Z) (rects : list Rect)
         (scores : list Score) (best : nat),
    _rank cfg im rects = Ok (scores, best) ->
    Forall2 (fun rect sc =>
               exists roi_n,
                 _norm_rect cfg im rect false true = Ok roi_n /\
                 score_e sc =
                   (Z2F (np_sum (array_map saturate_u8 (Laplacian_array roi_n)))
                    / Z2F (Z.of_nat (shape1 roi_n) * Z.of_nat (shape0 roi_n)))%float)
            rects scores.
Proof.
  intros cv cfg im rects scores best Hr.
  destruct (rank_records cfg im rects scores best Hr)
    as (measures & sMax & eMax & scored & _ & _ & _ & _ & _ & _ & Hall & _).
  eapply Forall2_impl; [|exact Hall].
  intros rect sc (m & sc0 & p & Hm & Hn & ->).
  apply rank_normalize_Ok in Hn. destruct Hn as (_ & E2 & _).
  apply rank_measure_Ok in Hm. destruct Hm as (roi_n & roi_l & Hroi & Hl & Ee & _).
  exists roi_n. split; [assumption|]. simpl. rewrite E2, Ee.
  unfold cv2_Laplacian_8U in Hl. destruct (is_empty roi_n); [discriminate|].
  inversion Hl; subst. rewrite (Z.mul_comm (Z.of_nat (shape1 roi_n))). reflexivity.
Qed.

Lemma ffin_coord (z : Z) : Z.abs z < 2 ^ 32 -> ffin 63 (Z2F z).
Proof.
  intros Hz. apply ffin_Z2F.
  assert (2 ^ 32 < 2 ^ 62) by (apply Z.pow_lt_mono_r; lia). lia.
Qed.

(** The offset [imageCenter - rectOrigin + rectHalfExtent] is finite. *)
Lemma ffin_offset (len x w : Z) :
  0 <= len < 2 ^ 31 -> 0 <= x -> 0 < w -> x + w <= len ->
  ffin 200 (Z2F len / 2 - Z2F x + Z2F w / 2)%float.
Proof.
  intros Hlen Hx Hw Hxw.
  assert (2 ^ 31 < 2 ^ 32) by (apply Z.pow_lt_mono_r; lia).
  pose proof (ffin_half _ _ (ffin_coord len ltac:(lia)) ltac:(lia)) as H1.
  pose proof (ffin_coord x ltac:(lia)) as H2.
  pose proof (ffin_half _ _ (ffin_coord w ltac:(lia)) ltac:(lia)) as H3.
  pose proof (ffin_sub _ _ _ _ H1 H2 ltac:(lia)) as H4.
  pose proof (ffin_add _ _ _ _ H4 H3 ltac:(lia)) as H5.
  eapply ffin_weaken; [exact H5 | lia].
Qed.

Lemma half_extent_nonneg (M : Z) :
  0 <= M < 2 ^ 31 -> ffin 115 (Z2F M / 2)%float /\ fnonneg (Z2F M / 2)%float.
Proof.
  intros HM.
  assert (2 ^ 31 < 2 ^ 32) by (apply Z.pow_lt_mono_r; lia).
  assert (2 ^ 31 < 2 ^ 62) by (apply Z.pow_lt_mono_r; lia).
  split.
  - apply (ffin_half _ 63); [apply ffin_coord|]; lia.
  - apply (fnonneg_div _ _ 63 2 (ffin_coord M ltac:(lia))).
    + unfold ffin. rewrite Prim2SF_2. cbn [fin_le]. unfold D. simpl. lia.
    + apply fnonneg_Z2F. lia.
    + unfold fnonneg. rewrite Prim2SF_2. reflexivity.
    + reflexivity.
Qed.

Lemma center_distance_nonneg {A} (im : ndarray A) (rect : Rect) :
  fits_int im -> rect_inside im rect ->
  let dx := (Z2F (Z.of_nat (shape1 im)) / 2 - Z2F (rect_x rect) + Z2F (rect_w rect) / 2)%float in
  let dy := (Z2F (Z.of_nat (shape0 im)) / 2 - Z2F (rect_y rect) + Z2F (rect_h rect) / 2)%float in
  let c := (Z2F (Z.max (Z.of_nat (shape0 im)) (Z.of_nat (shape1 im))) / 2)%float in
  (c =? 0)%float = false ->
  (0 <=? sqrt (dx * dx + dy * dy) / c)%float = true.
Proof.
  intros [Hf0 Hf1] (Hx & Hy & Hw & Hh & Hxw & Hyh) dx dy c Hc.
  assert (2 ^ 31 < 2 ^ 32) by (apply Z.pow_lt_mono_r; lia).
  assert (2 ^ 31 < 2 ^ 62) by (apply Z.pow_lt_mono_r; lia).
  pose proof (ffin_offset (Z.of_nat (shape1 im)) (rect_x rect) (rect_w rect)
                ltac:(lia) Hx Hw Hxw) as Hdx. fold dx in Hdx.
  pose proof (ffin_offset (Z.of_nat (shape0 im)) (rect_y rect) (rect_h rect)
                ltac:(lia) Hy Hh Hyh) as Hdy. fold dy in Hdy.
  pose proof (ffin_mul _ _ _ _ Hdx Hdx ltac:(lia)) as Hxx.
  pose proof (ffin_mul _ _ _ _ Hdy Hdy ltac:(lia)) as Hyy.
  assert (Ht : ffin 403 (dx * dx + dy * dy)%float).
  { eapply ffin_weaken; [apply (ffin_add _ _ _ _ Hxx Hyy); lia | lia]. }
  pose proof (fnonneg_add _ _ _ _ Hxx Hyy (fnonneg_mul_self _ _ Hdx) (fnonneg_mul_self _ _ Hdy)) as St.
  assert (Hq : ffin 203 (sqrt (dx * dx + dy * dy))).
  { apply (ffin_sqrt _ 403 Ht St). change ((403 + 1) / 2) with 202. lia. }
  pose proof (fnonneg_sqrt _ St) as Sq.
  destruct (half_extent_nonneg (Z.max (Z.of_nat (shape0 im)) (Z.of_nat (shape1 im))) ltac:(lia))
    as [HcF Sc]. fold c in HcF, Sc.
  apply fnonneg_leb. eapply fnonneg_div; eassumption.
Qed.

(** C5, amended: in a run of [_rank] on an image of at most 2^25 rows and
    columns (where the squares [dx ** 2] and [dy ** 2] are exact), for every
    rectangle inside the image the distance [d] of its record equals
    [sqrt (dx^2 + dy^2) / (max (W, H) / 2)] with [dx = W/2 - x + w/2] and
    [dy = H/2 - y + h/2], and is never negative; it is not bounded by 1. *)
Theorem rank_center_distance :
  forall (cv : Cv2) (cfg : configuration) (im : ndarray Z) (rects : list Rect)
         (scores : list Score) (best : nat),
    _rank cfg im rects = Ok (scores, best) ->
    Z.of_nat (shape0 im) <= 2 ^ 25 -> Z.of_nat (shape1 im) <= 2 ^ 25 ->
    Forall2 (fun rect sc =>
               rect_inside im rect ->
               let dx := (Z2F (Z.of_nat (shape1 im)) / 2 - Z2F (rect_x rect)
                          + Z2F (rect_w rect) / 2)%float in
               let dy := (Z2F (Z.of_nat (shape0 im)) / 2 - Z2F (rect_y rect)
                          + Z2F (rect_h rect) / 2)%float in
               score_d sc =
                 (sqrt (dx * dx + dy * dy)
                  / (Z2F (Z.max (Z.of_nat (shape0 im)) (Z.of_nat (shape1 im))) / 2))%float /\
               (0 <=? score_d sc)%float = true)
            rects scores.
Proof.
  intros cv cfg im rects scores best Hr Hrows Hcols.
  assert (Hfit : fits_int im).
  { assert (2 ^ 25 < 2 ^ 31) by (apply Z.pow_lt_mono_r; lia). split; lia. }
  destruct (rank_records cfg im rects scores best Hr)
    as (measures & sMax & eMax & scored & _ & _ & _ & _ & _ & _ & Hall & _).
  eapply Forall2_impl; [|exact Hall].
  intros rect sc (m & sc0 & p & Hm & Hn & ->) Hins.
  apply rank_normalize_Ok in Hn. destruct Hn as (_ & _ & E3 & _).
  apply rank_measure_Ok in Hm. destruct Hm as (_ & _ & _ & _ & _ & (Ed & Hc) & _).
  cbv zeta. simpl score_d. rewrite E3, Ed. split; [reflexivity|].
  apply center_distance_nonneg; assumption.
Qed.

(** ** Ranking when no sharpness is measured *)

Lemma Forall2_in_r {A B} (P : A -> B -> Prop) (l : list A) (l' : list B) (y : B) :
  Forall2 P l l' -> In y l' -> exists x, In x l /\ P x y.
Proof.
  induction 1 as [|a b l l' Hab H IH]; intros Hin; [destruct Hin|].
  destruct Hin as [<- | Hin].
  - exists a. split; [left; reflexivity | assumption].
  - destruct (IH Hin) as (x & Hx & Hp). exists x. split; [right|]; assumption.
Qed.

(** Sorting keys that never compare less: nothing moves. *)
Lemma sort_insert_unordered (key : nat -> float) (x : nat) (l : list nat) :
  (forall y, In y l -> (key x <? key y)%float = false) ->
  sort_insert key x l = l ++ [x].
Proof.
  induction l as [|y l IH]; intros H; simpl; [reflexivity|].
  rewrite (H y) by (left; reflexivity). f_equal. apply IH.
  intros z Hz. apply H. right. assumption.
Qed.

Lemma sorted_unordered (key : nat -> float) (l : list nat) :
  (forall x y, (key x <? key y)%float = false) -> sorted key l = l.
Proof.
  intros H. unfold sorted.
  assert (G : forall acc, fold_left (fun acc x => sort_insert key x acc) l acc = acc ++ l).
  { induction l as [|x l IH]; intros acc; simpl; [rewrite app_nil_r; reflexivity|].
    rewrite IH, sort_insert_unordered by (intros; apply H).
    rewrite <- app_assoc. reflexivity. }
  apply (G []).
Qed.

Lemma ltb_nan_l (x : float) : (nan <? x)%float = false.
Proof. rewrite FloatAxioms.ltb_spec. reflexivity. Qed.

(** When every record of a run has sharpness 0, [eMax] is 0, every [eN] and
    every [f] is NaN, and the sort leaves the indices in input order. *)
Lemma rank_zero_sharpness_values :
  forall (cv : Cv2) (cfg : configuration) (im : ndarray Z) (rects : list Rect)
         (scores : list Score) (best : nat),
    _rank cfg im rects = Ok (scores, best) ->
    Forall (fun sc => score_e sc = 0%float) scores ->
    Forall (fun sc => score_eN sc = nan /\ score_f sc = nan) scores /\ best = O /\
    length scores = length rects /\
    forall i, (i < length rects)%nat ->
      score_RANK (nth i scores default_score) = Some i.
Proof.
  intros cv cfg im rects scores best Hr Hz.
  destruct (rank_records cfg im rects scores best Hr)
    as (measures & sMax & eMax & scored & Hs & He & Ems & Eme & Hlen & Hb & Hall & Hnth).
  assert (HeMax : eMax = 0%float).
  { destruct (py_max_spec _ _ He) as [Hin _]. rewrite <- Eme in Hin.
    apply in_map_iff in Hin. destruct Hin as (sc & <- & Hsc).
    rewrite Forall_forall in Hz. apply Hz. assumption. }
  subst eMax.
  assert (Hnan : Forall (fun sc => score_eN sc = nan /\ score_f sc = nan) scores).
  { rewrite Forall_forall in Hz |- *. intros sc Hsc.
    pose proof (Hz sc Hsc) as Esc.
    destruct (Forall2_in_r _ _ _ _ Hall Hsc) as (rect & _ & m & sc0 & p & Hm & Hn & ->).
    apply rank_normalize_Ok in Hn. destruct Hn as (_ & E2 & _ & _ & E5 & E6).
    simpl in *. rewrite <- E2, Esc in E5.
    split; [exact E5|]. rewrite E6, E5.
    rewrite float_mul_nan_l, !float_add_nan_l. reflexivity. }
  split; [assumption|].
  assert (Hkeys : forall x y,
            (score_f (nth x scored default_score) <? score_f (nth y scored default_score))%float
            = false).
  { intros x y. destruct (Nat.lt_ge_cases x (length scored)) as [Hx|Hx].
    - destruct (Hnth x Hx) as (p & _ & _ & E).
      assert (Hin : In (nth x scores default_score) scores) by (apply nth_In; lia).
      rewrite Forall_forall in Hnan. destruct (Hnan _ Hin) as [_ Ef].
      rewrite E in Ef. simpl in Ef. rewrite Ef. apply ltb_nan_l.
    - rewrite (nth_overflow scored default_score Hx). simpl.
      destruct (Nat.lt_ge_cases y (length scored)) as [Hy|Hy].
      + destruct (Hnth y Hy) as (p & _ & _ & E).
        assert (Hin : In (nth y scores default_score) scores) by (apply nth_In; lia).
        rewrite Forall_forall in Hnan. destruct (Hnan _ Hin) as [_ Ef].
        rewrite E in Ef. simpl in Ef. rewrite Ef. apply ltb_nan_r.
      + rewrite (nth_overflow scored default_score Hy). reflexivity. }
  assert (Horder : rank_order scored = seq 0 (length scored)).
  { unfold rank_order, sorted_reverse.
    rewrite sorted_unordered by exact Hkeys. apply rev_involutive. }
  pose proof (Forall2_length Hall) as Hlr.
  split; [|split; [symmetry; exact Hlr|]].
  - rewrite Hb, Horder. destruct (length scored); reflexivity.
  - intros i Hi. destruct (Hnth i ltac:(lia)) as (p & Hp & Hpi & ->).
    rewrite Horder, seq_nth in Hpi by exact Hp. cbn [set_RANK score_RANK].
    f_equal. exact Hpi.
Qed.

(** A quotient above the underflow threshold is not zero. *)
Lemma SFdiv_core_pos (mx my : positive) (ex ey : Z) :
  -1074 <= D (Zpos mx) + ex - (D (Zpos my) + ey) - 53 ->
  let '(mz, ez, lz) := SFdiv_core_binary prec emax (Zpos mx) ex (Zpos my) ey in
  0 < mz /\ D (Zpos mx) + ex - (D (Zpos my) + ey) <= D mz + ez.
Proof.
  unfold SFdiv_core_binary. change Zdigits2 with D.
  generalize (D (Zpos my)) (digits_pos (Zpos my) ltac:(lia))
             (lt_pow2_digits (Zpos my) ltac:(lia)).
  intros d2 Hd2 Hup.
  pose proof (digits_pos (Zpos mx) ltac:(lia)) as Hd1.
  intros Hmag.
  assert (Hf : fexp prec emax (D (Zpos mx) + ex - (d2 + ey)) = D (Zpos mx) + ex - (d2 + ey) - 53).
  { unfold fexp, emin, prec, emax. lia. }
  rewrite Hf.
  set (e' := Z.min _ _).
  assert (He' : e' <= D (Zpos mx) + ex - (d2 + ey) - 53 /\ e' <= ex - ey) by (subst e'; lia).
  set (s := ex - ey - e').
  set (m' := match s with Z.pos _ => Z.shiftl (Zpos mx) s | 0 => Zpos mx | Z.neg _ => 0 end).
  assert (Hm' : 0 < m' /\ D m' = D (Zpos mx) + s).
  { subst m'. destruct s as [|p|p] eqn:Es; try lia.
    rewrite digits_shiftl by lia. split; [|lia].
    rewrite Z.shiftl_mul_pow2 by lia. apply Z.mul_pos_pos; [lia|].
    apply Z.pow_pos_nonneg; lia. }
  destruct Hm' as [Hm'0 Hm'd].
  pose proof (Z_div_mod m' (Zpos my) ltac:(lia)) as Hdm.
  destruct (Z.div_eucl m' (Zpos my)) as [q r].
  destruct Hdm as [Hq Hr].
  assert (Hlow : 2 ^ (D m' - 1) <= m').
  { rewrite digits_log2 by lia. replace (Z.log2 m' + 1 - 1) with (Z.log2 m') by lia.
    apply Z.log2_spec. lia. }
  set (k := D m' - 1 - d2) in *.
  assert (Hk : 0 <= k) by lia.
  assert (Hpow : 2 ^ (D m' - 1) = 2 ^ k * 2 ^ d2).
  { rewrite <- Z.pow_add_r by lia. f_equal. lia. }
  assert (Hqk : 2 ^ k <= q).
  { pose proof (Z.pow_pos_nonneg 2 k ltac:(lia) Hk).
    pose proof (Z.pow_pos_nonneg 2 d2 ltac:(lia) ltac:(lia)). nia. }
  assert (Hq0 : 0 < q) by (pose proof (Z.pow_pos_nonneg 2 k ltac:(lia) Hk); lia).
  split; [exact Hq0|].
  assert (Hdq : k + 1 <= D q).
  { rewrite digits_log2 by lia. pose proof (Z.log2_le_pow2 q k Hq0). lia. }
  subst s. lia.
Qed.

Lemma SFdiv_nonzero (sx sy : bool) (mx my : positive) (ex ey : Z) (s : bool) :
  -1074 <= D (Zpos mx) + ex - (D (Zpos my) + ey) - 53 ->
  SFdiv prec emax (S754_finite sx mx ex) (S754_finite sy my ey) <> S754_zero s.
Proof.
  intros Hmag. unfold SFdiv.
  pose proof (SFdiv_core_pos mx my ex ey Hmag) as Hc.
  destruct (SFdiv_core_binary prec emax (Zpos mx) ex (Zpos my) ey) as [[mz ez] lz].
  destruct Hc as [H0 H1]. apply binary_round_aux_nonzero; lia.
Qed.

Lemma eqb_zero_false (x : float) :
  (forall s, Prim2SF x <> S754_zero s) -> (x =? 0)%float = false.
Proof.
  intros H. rewrite FloatAxioms.eqb_spec. rewrite Prim2SF_0.
  destruct (Prim2SF x) as [s|s| |s m e] eqn:E; try reflexivity.
  - exfalso. exact (H s eq_refl).
  - destruct s; reflexivity.
  - destruct s; reflexivity.
Qed.

(** The size [(w + h) / 2] of a rectangle of positive extent is not zero. *)
Lemma half_size_nonzero (z : Z) : 0 < z < 2 ^ 62 -> (Z2F z / 2 =? 0)%float = false.
Proof.
  intros Hz. apply eqb_zero_false. intros s.
  rewrite FloatAxioms.div_spec, Prim2SF_2.
  destruct (Z2F_pos_spec z Hz) as (m & e & -> & He & Hd).
  unfold SF64div. apply SFdiv_nonzero.
  pose proof (digits_pos (Zpos m) ltac:(lia)).
  change (D (Zpos 4503599627370496)) with 53. lia.
Qed.

(** ** [_rank] after its first loop *)

Lemma Forall2_in_l {A B} (P : A -> B -> Prop) (l : list A) (l' : list B) (x : A) :
  Forall2 P l l' -> In x l -> exists y, In y l' /\ P x y.
Proof.
  induction 1 as [|a b l l' Hab Hrest IH]; intros Hin; [contradiction|].
  destruct Hin as [->|Hin].
  - exists b. split; [left; reflexivity | assumption].
  - destruct (IH Hin) as (y & Hy & Py). exists y. split; [right; assumption | assumption].
Qed.

Lemma mapM_total {A B} (f : A -> result B) (l : list A) :
  (forall a, In a l -> exists b, f a = Ok b) -> exists l', mapM f l = Ok l'.
Proof.
  induction l as [|a l IH]; intros H; simpl.
  - exists []. reflexivity.
  - destruct (H a (or_introl eq_refl)) as [b ->].
    destruct IH as [l' ->]; [intros x Hx; apply H; right; assumption|].
    exists (b :: l'). reflexivity.
Qed.

(** Once the first loop has measured a non-empty batch of rectangles of
    positive size, nothing in [_rank] raises. *)
Lemma rank_returns `{Cv2} (cfg : configuration) (im : ndarray Z) (rects : list Rect)
  (measures : list Measure) :
  rects <> [] ->
  Forall (fun r => 0 < rect_w r + rect_h r < 2 ^ 62) rects ->
  mapM (rank_measure cfg im) rects = Ok measures ->
  exists scores best, _rank cfg im rects = Ok (scores, best).
Proof.
  intros Hne Hpos Hm. unfold _rank. rewrite Hm. cbn [bind].
  pose proof (mapM_Forall2 _ _ _ Hm) as HF.
  destruct measures as [|m0 measures'] eqn:Em.
  { inversion HF. subst. contradiction. }
  rewrite <- Em in *.
  assert (Hs : exists sMax, py_max (map measure_s measures) = Ok sMax)
    by (rewrite Em; eexists; reflexivity).
  assert (He : exists eMax, py_max (map measure_e measures) = Ok eMax)
    by (rewrite Em; eexists; reflexivity).
  destruct Hs as [sMax Hs]. destruct He as [eMax He]. rewrite Hs, He. cbn [bind].
  assert (HsMax : (sMax =? 0)%float = false).
  { destruct (py_max_spec _ _ Hs) as [Hin _].
    apply in_map_iff in Hin. destruct Hin as (m & <- & Hmin).
    destruct (Forall2_in_r _ _ _ _ HF Hmin) as (rect & Hrect & Hrm).
    apply rank_measure_Ok in Hrm. destruct Hrm as (_ & _ & _ & _ & _ & _ & ->).
    apply half_size_nonzero. rewrite Forall_forall in Hpos. apply Hpos. assumption. }
  destruct (mapM_total (rank_normalize sMax eMax) measures) as [scored ->].
  { intros m _. unfold rank_normalize, py_fdiv. rewrite HsMax. eexists. reflexivity. }
  cbn [bind]. eexists. eexists. reflexivity.
Qed.

(** C7, amended: when every rectangle of a non-empty batch (of positive
    sizes) is measured with sharpness 0, [_rank] raises no exception: the
    quotient [e / eMax] is the float quotient 0/0, every record gets
    [eN = nan] and [f = nan], and the ranking keeps the input order: there is
    one record for each rectangle, the record of the rectangle at index [i]
    gets the rank [i], and the best index is 0. *)
Theorem rank_zero_sharpness_nan :
  forall (cv : Cv2) (cfg : configuration) (im : ndarray Z) (rects : list Rect)
         (measures : list Measure),
    rects <> [] ->
    Forall (fun r => 0 < rect_w r + rect_h r < 2 ^ 62) rects ->
    mapM (rank_measure cfg im) rects = Ok measures ->
    Forall (fun m => measure_e m = 0%float) measures ->
    exists scores,
      _rank cfg im rects = Ok (scores, O) /\
      Forall (fun sc => score_e sc = 0%float /\ score_eN sc = nan /\ score_f sc = nan)
             scores /\
      length scores = length rects /\
      forall i, (i < length rects)%nat ->
        score_RANK (nth i scores default_score) = Some i.
Proof.
  intros cv cfg im rects measures Hne Hpos Hm Hz.
  destruct (rank_returns cfg im rects measures Hne Hpos Hm) as (scores & best & Hr).
  pose proof (mapM_Forall2 _ _ _ Hm) as HF.
  assert (He : Forall (fun sc => score_e sc = 0%float) scores).
  { destruct (rank_records cfg im rects scores best Hr)
      as (ms & sMax & eMax & scored & _ & _ & _ & _ & _ & _ & Hall & _).
    rewrite Forall_forall. intros sc Hsc.
    destruct (Forall2_in_r _ _ _ _ Hall Hsc) as (rect & Hrect & m & sc0 & p & Hrm & Hn & ->).
    destruct (Forall2_in_l _ _ _ _ HF Hrect) as (m' & Hm' & Hrm').
    rewrite Hrm in Hrm'. injection Hrm' as <-.
    apply rank_normalize_Ok in Hn. destruct Hn as (_ & E & _).
    cbn [set_RANK score_e]. rewrite E.
    rewrite Forall_forall in Hz. apply Hz. assumption. }
  destruct (rank_zero_sharpness_values cv cfg im rects scores best Hr He)
    as (Hnan & -> & Hlen & Hranks).
  exists scores. split; [exact Hr|]. split; [|split; assumption].
  rewrite Forall_forall in He, Hnan |- *. intros sc Hsc.
  destruct (Hnan sc Hsc) as [E1 E2]. repeat split; auto.
Qed.

(** ** The order of the ranks *)

Lemma ranked_before_float (key : nat -> float) (i j : nat) :
  is_nan (key i) = false -> is_nan (key j) = false ->
  (ranked_before key i j <->
   (key j <? key i)%float = true \/ ((key i =? key j)%float = true /\ (i < j)%nat)).
Proof.
  intros Hi Hj. unfold ranked_before, klt.
  rewrite (ltb_lex _ _ Hj Hi), (eqb_lex _ _ Hi Hj).
  split.
  - intros [H | [H1 H2]]; [left; assumption|].
    destruct (ltb (key j) (key i)) eqn:E.
    + left. apply ltb_lex; assumption.
    + right. split; [|assumption]. apply lex3_total; [assumption|].
      intros C. apply ltb_lex in C; try assumption. congruence.
  - intros [H | [H1 H2]]; [left; assumption|].
    right. split; [|assumption]. rewrite H1. apply lex3_irrefl.
Qed.

Lemma ranked_before_asym (key : nat -> float) (i j : nat) :
  ranked_before key i j -> ranked_before key j i -> False.
Proof.
  unfold ranked_before, klt. intros [H1 | [H1 H1']] [H2 | [H2 H2']]; try contradiction; try lia.
  exact (lex3_irrefl _ (lex3_trans _ _ _ H1 H2)).
Qed.

(** C2, amended: when [_rank] returns and no fitness is NaN, the batch is
    not empty, every record gets a rank below the batch length, the ranks
    order the indices by fitness descending with ties broken by input order
    (index [i] is ranked before index [j] exactly when [f j < f i], or
    [f i = f j] and [i < j]), and the best index has rank 0 and a fitness
    greater than or equal to every candidate's. *)
Theorem rank_order_stable_argmax :
  forall (cv : Cv2) (cfg : configuration) (im : ndarray Z) (rects : list Rect)
         (scores : list Score) (best : nat),
    _rank cfg im rects = Ok (scores, best) ->
    Forall (fun sc => is_nan (score_f sc) = false) scores ->
    let n := length rects in
    let f i := score_f (nth i scores default_score) in
    let RANK i := score_RANK (nth i scores default_score) in
    length scores = n /\ (0 < n)%nat /\
    (forall i, (i < n)%nat -> exists r, RANK i = Some r /\ (r < n)%nat) /\
    (forall i j ri rj, (i < n)%nat -> (j < n)%nat ->
       RANK i = Some ri -> RANK j = Some rj ->
       ((ri < rj)%nat <->
        (f j <? f i)%float = true \/ ((f i =? f j)%float = true /\ (i < j)%nat))) /\
    (best < n)%nat /\ RANK best = Some O /\
    (forall j, (j < n)%nat -> (f j <=? f best)%float = true).
Proof.
  intros cv cfg im rects scores best Hr Hnum n f RANK.
  destruct (rank_records cfg im rects scores best Hr)
    as (measures & sMax & eMax & scored & Hs & He & Ems & Eme & Hlen & Hb & Hall & Hnth).
  assert (Hn : length scores = n) by (symmetry; apply (Forall2_length Hall)).
  assert (Hpos : (0 < n)%nat).
  { destruct scores as [|sc scores']; [|simpl in Hn; lia].
    destruct measures; [discriminate Hs | discriminate Ems]. }
  set (key := fun x => score_f (nth x scored default_score)).
  assert (Hkey : forall i, (i < n)%nat -> key i = f i).
  { intros i Hi. destruct (Hnth i ltac:(lia)) as (p & _ & _ & E).
    unfold f, key. rewrite E. reflexivity. }
  assert (Hknum : forall i, (i < n)%nat -> is_nan (key i) = false).
  { intros i Hi. rewrite Hkey by assumption. rewrite Forall_forall in Hnum.
    apply Hnum. apply nth_In. lia. }
  destruct (sorted_reverse_spec key (length scored)) as [Hsorted Hperm];
    [intros i Hi; apply Hknum; lia|].
  fold (rank_order scored) in Hsorted, Hperm.
  destruct (rank_order_facts scored) as (_ & Hnd & Hrl & Hrb & Hrs).
  set (ranks := rank_order scored) in *.
  assert (Hrank : forall i r, (i < n)%nat -> RANK i = Some r ->
            (r < n)%nat /\ nth r ranks O = i).
  { intros i r Hi Hri. destruct (Hnth i ltac:(lia)) as (p & Hp & Hpi & E).
    unfold RANK in Hri. rewrite E in Hri. simpl in Hri. inversion Hri; subst r.
    split; [lia | assumption]. }
  assert (Hbefore : forall p q, (p < q)%nat -> (q < n)%nat ->
            ranked_before key (nth p ranks O) (nth q ranks O)).
  { intros p q Hpq Hq. apply StronglySorted_nth; [assumption | assumption | lia]. }
  split; [assumption|]. split; [assumption|]. split; [|split; [|split; [|split]]].
  - intros i Hi. destruct (Hnth i ltac:(lia)) as (p & Hp & _ & E).
    exists p. unfold RANK. rewrite E. split; [reflexivity | lia].
  - intros i j ri rj Hi Hj Hri Hrj.
    destruct (Hrank i ri Hi Hri) as [Hri1 Hri2].
    destruct (Hrank j rj Hj Hrj) as [Hrj1 Hrj2].
    rewrite <- (Hkey i Hi), <- (Hkey j Hj).
    rewrite <- (ranked_before_float key i j (Hknum i Hi) (Hknum j Hj)).
    split.
    + intros Hlt. rewrite <- Hri2, <- Hrj2. apply Hbefore; assumption.
    + intros Hbf. destruct (Nat.lt_trichotomy ri rj) as [|[E|Hgt]]; [assumption| |]; exfalso.
      * subst rj. rewrite Hri2 in Hrj2. subst j.
        exact (ranked_before_asym key i i Hbf Hbf).
      * apply (ranked_before_asym key i j Hbf).
        rewrite <- Hri2, <- Hrj2. apply Hbefore; assumption.
  - rewrite Hb. fold ranks. specialize (Hrb O ltac:(lia)). lia.
  - destruct (Hnth best) as (p & Hp & Hpb & E).
    { rewrite Hb. fold ranks. specialize (Hrb O ltac:(lia)). lia. }
    assert (p = O).
    { rewrite Hb in Hpb. fold ranks in Hpb.
      apply (proj1 (NoDup_nth ranks O) Hnd) in Hpb; lia. }
    subst p. unfold RANK. rewrite E. reflexivity.
  - intros j Hj.
    assert (Hbn : (best < n)%nat).
    { rewrite Hb. fold ranks. specialize (Hrb O ltac:(lia)). lia. }
    rewrite <- (Hkey j Hj), <- (Hkey best Hbn).
    apply leb_lex; [apply Hknum; assumption | apply Hknum; assumption|].
    destruct (Hrs j ltac:(lia)) as (q & Hq & Hqj).
    destruct q as [|q].
    + assert (E : j = best) by (rewrite Hb; symmetry; exact Hqj). rewrite E. apply lex3_irrefl.
    + assert (Hbf : ranked_before key best j).
      { rewrite Hb. rewrite <- Hqj. apply Hbefore; lia. }
      intros C. apply (ranked_before_asym key best j Hbf). left. exact C.
Qed.

(** ** Target sizes and the detector call *)

Lemma scaled_side_finite (side w m : Z) :
  Z.abs side < 2 ^ 62 -> 0 < w < 2 ^ 62 -> 0 < m < 2 ^ 62 ->
  ffin 180 (Z2F w * (Z2F side / Z2F m))%float.
Proof.
  intros Hs Hw Hm.
  destruct (Z2F_pos_spec m Hm) as (mm & em & Em & Hem & _).
  pose proof (ffin_div _ _ 63 (-52) _ _ _ (ffin_Z2F side Hs) Em Hem ltac:(lia)) as Hq.
  pose proof (ffin_mul _ _ _ _ (ffin_Z2F w ltac:(lia)) Hq ltac:(lia)) as Hp.
  eapply ffin_weaken; [exact Hp | lia].
Qed.


(** [detect] *)

Lemma detect_side_finite (n : Z) (c : float) (sc : bool) (mc : positive) (ec : Z) :
  0 <= n < 2 ^ 62 -> Prim2SF c = S754_finite sc mc ec -> -60 <= ec ->
  exists k, py_int (sqrt (Z2F n) / c)%float = Ok k.
Proof.
  intros Hn Hc Hec.
  assert (Hs : ffin 33 (sqrt (Z2F n))).
  { apply (ffin_sqrt _ 63); [apply ffin_Z2F; lia | apply fnonneg_Z2F; assumption|].
    change ((63 + 1) / 2) with 32. lia. }
  apply (py_int_total _ (33 - (-60) + 1)).
  eapply (ffin_div _ _ 33 (-60)); try eassumption. lia.
Qed.

Lemma land_lor_absorb_r (a b : Z) : Z.land (Z.lor a b) b = b.
Proof.
  apply Z.bits_inj'. intros n _. rewrite Z.land_spec, Z.lor_spec.
  destruct (Z.testbit a n), (Z.testbit b n); reflexivity.
Qed.

Lemma land_lor_absorb_l (a b : Z) : Z.land (Z.lor a b) a = a.
Proof.
  apply Z.bits_inj'. intros n _. rewrite Z.land_spec, Z.lor_spec.
  destruct (Z.testbit a n), (Z.testbit b n); reflexivity.
Qed.

(** C8: [detect] computes [side = sqrt (W * H)], the integer bounds
    [minSide = int (side / 20)] and [maxSide = int (side / 2)], and returns
    what the cascade search yields for scale factor 1.1, 4 minimum neighbours,
    flags that always hold the pruning flag and hold the biggest-object flag
    exactly when [biggest] is set, and the size bounds [(minSide, minSide)]
    and [(maxSide, maxSide)]. *)
Theorem detect_invokes_cascade :
  forall (cv : Cv2) (cfg : configuration) (cc : CascadeClassifier)
         (im : ndarray Z) (biggest : bool),
    dict_get (CASCADES cfg) "HAAR_FRONTALFACE_ALT2" = Ok cc ->
    fits_int im ->
    Z.land CASCADE_DO_CANNY_PRUNING CASCADE_FIND_BIGGEST_OBJECT
      <> CASCADE_FIND_BIGGEST_OBJECT ->
    exists minSide maxSide flags,
      py_int (sqrt (Z2F (Z.of_nat (shape1 im) * Z.of_nat (shape0 im))) / 20)%float
        = Ok minSide /\
      py_int (sqrt (Z2F (Z.of_nat (shape1 im) * Z.of_nat (shape0 im))) / 2)%float
        = Ok maxSide /\
      Z.land flags CASCADE_DO_CANNY_PRUNING = CASCADE_DO_CANNY_PRUNING /\
      (Z.land flags CASCADE_FIND_BIGGEST_OBJECT = CASCADE_FIND_BIGGEST_OBJECT
       <-> biggest = true) /\
      detect cfg im biggest
      = Ok (detectMultiScale cc im 1.1%float 4 flags
              (minSide, minSide) (maxSide, maxSide)).
Proof.
  intros cv cfg cc im biggest Hcc [Hf0 Hf1] Hflags.
  assert (Hsize : 0 <= size im < 2 ^ 62).
  { unfold size. change (2 ^ 62) with (2 ^ 31 * 2 ^ 31). nia. }
  rewrite (Z.mul_comm (Z.of_nat (shape1 im))). fold (size im).
  destruct (detect_side_finite (size im) 20 _ _ _ Hsize Prim2SF_20 ltac:(lia)) as [minSide Hmin].
  destruct (detect_side_finite (size im) 2 _ _ _ Hsize Prim2SF_2 ltac:(lia)) as [maxSide Hmax].
  exists minSide, maxSide,
    (if biggest then Z.lor CASCADE_DO_CANNY_PRUNING CASCADE_FIND_BIGGEST_OBJECT
     else CASCADE_DO_CANNY_PRUNING).
  split; [assumption|]. split; [assumption|]. split; [|split].
  - destruct biggest; [apply land_lor_absorb_l | apply Z.land_diag].
  - destruct biggest.
    + split; [reflexivity | intros _; apply land_lor_absorb_r].
    + split; [intros C; contradiction | discriminate].
  - unfold detect. rewrite Hmin. cbn [bind]. rewrite Hmax. cbn [bind].
    rewrite Hcc. reflexivity.
Qed.

(** ** Structural similarity *)

Section TapSums.
Local Open Scope Q_scope.

Lemma tap_sum_cons (t : Z * Q) (taps : list (Z * Q)) (g : Z -> Q) :
  tap_sum (t :: taps) g = snd t * g (fst t) + tap_sum taps g.
Proof. reflexivity. Qed.

Lemma tap_sum_ext (taps : list (Z * Q)) (g h : Z -> Q) :
  (forall o, g o == h o) -> tap_sum taps g == tap_sum taps h.
Proof.
  intros H. induction taps as [|t taps IH]; [reflexivity|].
  rewrite !tap_sum_cons, IH, (H (fst t)). reflexivity.
Qed.









End TapSums.






(** The mean of an array of ones *)











(** C10: [detect_similar_faces] returns [None] for every path and every source
    image. *)
Theorem detect_similar_faces_returns_None :
  forall (path : string) (source_image : ndarray Z),
    detect_similar_faces path source_image = None_.
Proof. intros path source_image. reflexivity. Qed.

(** * Further properties of the code *)

(** ** Crops and trims, pixel by pixel *)

Lemma slice_bounds_clipped (len : nat) (start stop : Z) :
  0 <= start -> 0 <= stop ->
  slice_bounds len start stop
  = (Z.to_nat (Z.min start (Z.of_nat len)),
     Z.to_nat (Z.min stop (Z.of_nat len) - Z.min start (Z.of_nat len))).
Proof.
  intros Hs He. unfold slice_bounds, slice_index.
  destruct (Z.ltb_spec start 0); [lia|].
  destruct (Z.ltb_spec stop 0); [lia|]. reflexivity.
Qed.

Lemma crop_rect_clip {A} (im : ndarray A) (rect : Rect) (shave : Z) :
  0 <= rect_x rect -> 0 <= rect_y rect -> 0 <= shave ->
  2 * shave <= rect_w rect -> 2 * shave <= rect_h rect ->
  let H := Z.of_nat (shape0 im) in
  let W := Z.of_nat (shape1 im) in
  let top := Z.min (rect_y rect + shave) H in
  let left := Z.min (rect_x rect + shave) W in
  let roi := _crop_rect im rect shave in
  Z.of_nat (shape0 roi) = Z.min (rect_y rect + rect_h rect - shave) H - top /\
  Z.of_nat (shape1 roi) = Z.min (rect_x rect + rect_w rect - shave) W - left /\
  forall i j, item roi i j = item im (Z.to_nat top + i) (Z.to_nat left + j).
Proof.
  intros Hx Hy Hs Hw Hh. cbv zeta.
  unfold _crop_rect, slice2.
  rewrite !slice_bounds_clipped by lia. cbn [fst snd shape0 shape1 item].
  repeat split; lia.
Qed.

(** X1: [_crop_rect] never fails: for a rectangle with a non-negative origin
    (and a shave of at most half its extent) the crop is the rectangle clipped
    to the image, shrunk by the shave on every side, and its pixel [(i, j)] is
    the image's pixel [(top + i, left + j)]. *)
Theorem crop_rect_clipped :
  forall (A : Type) (im : ndarray A) (rect : Rect) (shave : Z),
    0 <= rect_x rect -> 0 <= rect_y rect -> 0 <= shave ->
    2 * shave <= rect_w rect -> 2 * shave <= rect_h rect ->
    let H := Z.of_nat (shape0 im) in
    let W := Z.of_nat (shape1 im) in
    let top := Z.min (rect_y rect + shave) H in
    let left := Z.min (rect_x rect + shave) W in
    let roi := _crop_rect im rect shave in
    Z.of_nat (shape0 roi) = Z.min (rect_y rect + rect_h rect - shave) H - top /\
    Z.of_nat (shape1 roi) = Z.min (rect_x rect + rect_w rect - shave) W - left /\
    forall i j, item roi i j = item im (Z.to_nat top + i) (Z.to_nat left + j).
Proof.
  intros A im rect shave. apply crop_rect_clip.
Qed.

(** X2: for a positive margin, [_shave_margin] returns the interior of the
    image: [max (0, H - 2 margin)] rows and [max (0, W - 2 margin)] columns,
    whose pixel [(i, j)] is the image's pixel [(margin + i, margin + j)]. *)
Theorem shave_margin_interior :
  forall (A : Type) (im : ndarray A) (margin : Z),
    0 < margin ->
    let roi := _shave_margin im margin in
    Z.of_nat (shape0 roi) = Z.max 0 (Z.of_nat (shape0 im) - 2 * margin) /\
    Z.of_nat (shape1 roi) = Z.max 0 (Z.of_nat (shape1 im) - 2 * margin) /\
    forall i j, (i < shape0 roi)%nat -> (j < shape1 roi)%nat ->
      item roi i j = item im (Z.to_nat margin + i) (Z.to_nat margin + j).
Proof.
  intros A im margin Hm. cbv zeta.
  destruct (shave_margin_shape im margin Hm) as [H0 H1].
  rewrite H0, H1. split; [lia|]. split; [lia|].
  intros i j Hi Hj. unfold _shave_margin, slice2, slice_bounds, slice_index.
  cbn [fst snd item].
  destruct (Z.ltb_spec margin 0); [lia|].
  f_equal; f_equal; lia.
Qed.

(** ** [_norm_rect] at the edges *)

(** X3: with [NORM_MARGIN = 0] the slice [margin:-margin] is [0:0]: whatever
    [_norm_rect] returns is an empty image. *)
Theorem norm_rect_zero_margin_empty :
  forall (cv : Cv2) (cfg : configuration) (im : ndarray Z) (rect : Rect)
         (equalize same_aspect : bool) (roi : ndarray Z),
    NORM_MARGIN cfg = 0 ->
    _norm_rect cfg im rect equalize same_aspect = Ok roi ->
    shape roi = (O, O).
Proof.
  intros cv cfg im rect equalize same_aspect roi HM H.
  unfold _norm_rect in H.
  apply bind_Ok in H. destruct H as (dsize & _ & H).
  apply bind_Ok in H. destruct H as (dst & _ & H).
  injection H as <-. rewrite HM. apply shave_margin_zero.
Qed.

(** X4: a rectangle that lies beyond the right or the lower edge of the
    image, or has no width or no height, has an empty crop, and [_norm_rect]
    (without [same_aspect]) raises [cv2.error] on it. *)
Theorem norm_rect_empty_crop_error :
  forall (cv : Cv2) (cfg : configuration) (im : ndarray Z) (rect : Rect) (equalize : bool),
    0 <= rect_x rect -> 0 <= rect_y rect -> 0 <= rect_w rect -> 0 <= rect_h rect ->
    Z.of_nat (shape1 im) <= rect_x rect \/ Z.of_nat (shape0 im) <= rect_y rect \/
    rect_w rect = 0 \/ rect_h rect = 0 ->
    _norm_rect cfg im rect equalize false = Raise cv2_error.
Proof.
  intros cv cfg im rect equalize Hx Hy Hw Hh Hout.
  destruct (crop_rect_clip im rect 0 Hx Hy ltac:(lia) ltac:(lia) ltac:(lia))
    as (H0 & H1 & _).
  unfold _norm_rect, norm_dsize. cbn [bind].
  set (roi := if equalize then _ else _).
  assert (He : is_empty roi = true).
  { assert (Hs : shape0 roi = shape0 (_crop_rect im rect 0) /\
                 shape1 roi = shape1 (_crop_rect im rect 0))
      by (subst roi; destruct equalize; split; reflexivity).
    unfold is_empty. destruct Hs as [-> ->]. apply orb_true_iff.
    destruct (Nat.eqb_spec (shape0 (_crop_rect im rect 0)) 0); [left; reflexivity|].
    destruct (Nat.eqb_spec (shape1 (_crop_rect im rect 0)) 0); [right; reflexivity|].
    lia. }
  unfold cv2_resize. rewrite He. reflexivity.
Qed.

(** ** [_rank] at the edges *)

(** X5: [_rank] on no rectangle raises [ValueError]: [max] of an empty
    list. *)
Theorem rank_empty_batch :
  forall (cv : Cv2) (cfg : configuration) (im : ndarray Z),
    _rank cfg im [] = Raise ValueError.
Proof. intros cv cfg im. reflexivity. Qed.

(** ** The ranks of a run *)

(** X6: whenever [_rank] returns, NaN fitness or not, it returns one record
    per rectangle, the ranks of the records are the numbers [0 .. n-1], each
    given once, and the best index it returns is the index of the record of
    rank 0. *)
Theorem rank_ranks_bijective :
  forall (cv : Cv2) (cfg : configuration) (im : ndarray Z) (rects : list Rect)
         (scores : list Score) (best : nat),
    _rank cfg im rects = Ok (scores, best) ->
    let n := length rects in
    let RANK i := score_RANK (nth i scores default_score) in
    length scores = n /\
    (forall i, (i < n)%nat -> exists r, (r < n)%nat /\ RANK i = Some r) /\
    (forall r, (r < n)%nat -> exists i, (i < n)%nat /\ RANK i = Some r) /\
    (forall i j, (i < n)%nat -> (j < n)%nat -> RANK i = RANK j -> i = j) /\
    (best < n)%nat /\ RANK best = Some O.
Proof.
  intros cv cfg im rects scores best Hr. cbv zeta.
  destruct (rank_stages cfg im rects scores best Hr)
    as (measures & sMax & eMax & scored & Hm & Hs & He & Hn & Hsc & Hb).
  destruct (rank_scores_nth scores scored Hsc) as [Hlen Hnth].
  destruct (rank_order_facts scored) as (_ & Hnd & Hl & Hbound & _).
  pose proof (Forall2_length Hm) as L1. pose proof (Forall2_length Hn) as L2.
  assert (Hpos : (0 < length rects)%nat).
  { destruct measures; [discriminate Hs|]. rewrite L1. simpl. lia. }
  assert (E : length scored = length rects) by lia.
  rewrite E in *.
  split; [lia|]. split; [|split; [|split; [|split]]].
  - intros i Hi. destruct (Hnth i Hi) as (p & Hp & _ & ->). exists p. split; [assumption | reflexivity].
  - intros r Hr'. exists (nth r (rank_order scored) O). split; [apply Hbound; assumption|].
    destruct (Hnth _ (Hbound r Hr')) as (p & Hp & Hpr & ->). cbn [set_RANK score_RANK].
    f_equal. apply (proj1 (NoDup_nth (rank_order scored) O) Hnd); lia.
  - intros i j Hi Hj Eij.
    destruct (Hnth i Hi) as (p & Hp & Hpi & Ei). destruct (Hnth j Hj) as (q & Hq & Hqj & Ej).
    rewrite Ei, Ej in Eij. cbn [set_RANK score_RANK] in Eij. injection Eij as ->.
    rewrite <- Hpi, <- Hqj. reflexivity.
  - rewrite Hb. apply Hbound. assumption.
  - rewrite Hb. destruct (Hnth _ (Hbound O Hpos)) as (p & Hp & Hpr & ->).
    cbn [set_RANK score_RANK]. f_equal.
    apply (proj1 (NoDup_nth (rank_order scored) O) Hnd); lia.
Qed.

(** ** How [_rank] ends *)

Lemma mapM_first_failure {A B} (f : A -> result B) (e : exn) (l : list A) :
  Forall (fun a => (exists b, f a = Ok b) \/ f a = Raise e) l ->
  Exists (fun a => f a = Raise e) l ->
  mapM f l = Raise e.
Proof.
  induction 1 as [|a l Ha Hl IH]; intros Hex; [inversion Hex|].
  simpl. destruct Ha as [[b Hb]|Hb]; rewrite Hb; cbn [bind]; [|reflexivity].
  inversion Hex as [? ? Hx|? ? Hx]; subst; [congruence|].
  rewrite (IH Hx). reflexivity.
Qed.

Section RankOutcome.

Context {cv : Cv2}.
Variable cfg : configuration.
Variable im : ndarray Z.
Hypothesis im_fits : fits_int im.
Hypothesis side_fits : Z.abs (NORM_SIZE cfg + NORM_MARGIN cfg) < 2 ^ 62.

Lemma pow_31_62 : 2 ^ 31 < 2 ^ 62.
Proof. apply Z.pow_lt_mono_r; lia. Qed.

Lemma norm_dsize_inside (rect : Rect) :
  rect_inside im rect -> exists dsize, norm_dsize cfg rect true = Ok dsize.
Proof.
  intros (Hx & Hy & Hw & Hh & Hxw & Hyh). destruct im_fits as [Hf0 Hf1].
  pose proof pow_31_62.
  set (side := NORM_SIZE cfg + NORM_MARGIN cfg) in *.
  set (m := Z.max (rect_w rect) (rect_h rect)).
  assert (Hm : 0 < m < 2 ^ 62) by lia.
  destruct (py_int_total _ _ (scaled_side_finite side (rect_w rect) m side_fits ltac:(lia) Hm))
    as [dw Hdw].
  destruct (py_int_total _ _ (scaled_side_finite side (rect_h rect) m side_fits ltac:(lia) Hm))
    as [dh Hdh].
  exists (dw, dh). unfold norm_dsize, py_truediv. fold side. fold m.
  destruct (Z.eqb_spec m 0) as [E|_]; [lia|]. cbn [bind]. rewrite Hdw. cbn [bind].
  rewrite Hdh. reflexivity.
Qed.

Lemma norm_rect_inside_outcome (rect : Rect) :
  rect_inside im rect ->
  (exists roi, _norm_rect cfg im rect false true = Ok roi) \/
  _norm_rect cfg im rect false true = Raise cv2_error.
Proof.
  intros Hin. destruct (norm_dsize_inside rect Hin) as [dsize Hd].
  unfold _norm_rect. rewrite Hd. cbn [bind]. unfold cv2_resize.
  destruct (_ || _ || _)%bool; cbn [bind]; [right; reflexivity | left; eauto].
Qed.

Lemma half_extent_nonzero : 
  forall rect, rect_inside im rect ->
  (Z2F (Z.max (Z.of_nat (shape0 im)) (Z.of_nat (shape1 im))) / 2 =? 0)%float = false.
Proof.
  intros rect (Hx & Hy & Hw & Hh & Hxw & Hyh). destruct im_fits as [Hf0 Hf1].
  pose proof pow_31_62. apply half_size_nonzero. lia.
Qed.

Lemma rank_measure_sharp (rect : Rect) (roi : ndarray Z) :
  rect_inside im rect ->
  _norm_rect cfg im rect false true = Ok roi -> is_empty roi = false ->
  exists m, rank_measure cfg im rect = Ok m.
Proof.
  intros Hin Hn He. unfold rank_measure. rewrite Hn. cbn [bind].
  unfold cv2_Laplacian_8U. rewrite He. cbn [bind].
  unfold py_fdiv. rewrite (half_extent_nonzero rect Hin). cbn [bind]. eauto.
Qed.

Lemma rank_measure_blank (rect : Rect) :
  rect_inside im rect ->
  (forall roi, _norm_rect cfg im rect false true = Ok roi -> is_empty roi = true) ->
  rank_measure cfg im rect = Raise cv2_error.
Proof.
  intros Hin Hbad. unfold rank_measure.
  destruct (norm_rect_inside_outcome rect Hin) as [[roi Hn]|Hn]; rewrite Hn; cbn [bind];
    [|reflexivity].
  unfold cv2_Laplacian_8U. rewrite (Hbad roi Hn). reflexivity.
Qed.

Lemma rank_measure_outcome (rect : Rect) :
  rect_inside im rect ->
  (exists m, rank_measure cfg im rect = Ok m) \/ rank_measure cfg im rect = Raise cv2_error.
Proof.
  intros Hin.
  destruct (norm_rect_inside_outcome rect Hin) as [[roi Hn]|Hn].
  - destruct (is_empty roi) eqn:He.
    + right. apply rank_measure_blank; [assumption|].
      intros roi' Hn'. rewrite Hn in Hn'. injection Hn' as <-. assumption.
    + left. eapply rank_measure_sharp; eassumption.
  - right. apply rank_measure_blank; [assumption|]. intros roi' Hn'. congruence.
Qed.

Lemma rects_positive (rects : list Rect) :
  Forall (rect_inside im) rects ->
  Forall (fun r => 0 < rect_w r + rect_h r < 2 ^ 62) rects.
Proof.
  intros H. eapply Forall_impl; [|exact H].
  intros r (Hx & Hy & Hw & Hh & Hxw & Hyh). destruct im_fits as [Hf0 Hf1].
  pose proof pow_31_62. cbv beta. lia.
Qed.

End RankOutcome.

(** X7: on a non-empty batch of rectangles inside the image, [_rank] returns
    when every aspect-preserving normalised crop has a pixel left after the
    trim, and raises [cv2.error] as soon as one has none; it raises nothing
    else. *)
Theorem rank_outcome :
  forall (cv : Cv2) (cfg : configuration) (im : ndarray Z) (rects : list Rect),
    fits_int im -> Z.abs (NORM_SIZE cfg + NORM_MARGIN cfg) < 2 ^ 62 ->
    rects <> [] -> Forall (rect_inside im) rects ->
    (Forall (fun r => exists roi, _norm_rect cfg im r false true = Ok roi /\
                                  is_empty roi = false) rects ->
     exists scores best, _rank cfg im rects = Ok (scores, best)) /\
    (Exists (fun r => forall roi, _norm_rect cfg im r false true = Ok roi ->
                                  is_empty roi = true) rects ->
     _rank cfg im rects = Raise cv2_error).
Proof.
  intros cv cfg im rects Hfit Hside Hne Hin. split.
  - intros Hgood.
    destruct (mapM_total (rank_measure cfg im) rects) as [measures Hm].
    { intros r Hr. rewrite Forall_forall in Hgood, Hin.
      destruct (Hgood r Hr) as (roi & Hn & He).
      eapply rank_measure_sharp; eauto. }
    eapply rank_returns; eauto. eapply rects_positive; eauto.
  - intros Hbad. unfold _rank.
    rewrite (mapM_first_failure (rank_measure cfg im) cv2_error rects); [reflexivity| |].
    + eapply Forall_impl; [|exact Hin]. intros r Hr.
      apply rank_measure_outcome; assumption.
    + rewrite Exists_exists in Hbad |- *. destruct Hbad as (r & Hr & Hb).
      exists r. split; [assumption|]. rewrite Forall_forall in Hin.
      apply rank_measure_blank; auto.
Qed.

(** ** The maxima of a batch *)

Lemma SFdiv_core_self (m : positive) (e : Z) :
  SFdiv_core_binary prec emax (Zpos m) e (Zpos m) e = (2 ^ 53, -53, loc_Exact).
Proof.
  unfold SFdiv_core_binary.
  replace (Zdigits2 (Zpos m) + e - (Zdigits2 (Zpos m) + e)) with 0 by lia.
  replace (e - e) with 0 by lia.
  change (Z.min (fexp prec emax 0) 0) with (-53).
  change (0 - -53) with 53.
  cbv iota beta zeta.
  rewrite Z.shiftl_mul_pow2 by lia.
  assert (Hq : Z.div_eucl (Zpos m * 2 ^ 53) (Zpos m) = (2 ^ 53, 0)).
  { pose proof (Z.div_mul (2 ^ 53) (Zpos m) ltac:(lia)) as Hd.
    pose proof (Z.mod_mul (2 ^ 53) (Zpos m) ltac:(lia)) as Hm.
    rewrite (Z.mul_comm (2 ^ 53)) in Hd, Hm. unfold Z.div, Z.modulo in Hd, Hm.
    destruct (Z.div_eucl (Zpos m * 2 ^ 53) (Zpos m)) as [q r]. congruence. }
  rewrite Hq.
  unfold new_location, new_location_even, new_location_odd.
  destruct (Z.even (Zpos m)); reflexivity.
Qed.

Lemma float_div_self (x : float) (s : bool) (m : positive) (e : Z) :
  Prim2SF x = S754_finite s m e -> (x / x)%float = 1%float.
Proof.
  intros Hx. apply Prim2SF_inj. rewrite div_spec, Hx.
  unfold SF64div, SFdiv. rewrite SFdiv_core_self.
  destruct s; reflexivity.
Qed.

Lemma ffin_nonzero_finite (x : float) (B : Z) :
  ffin B x -> (x =? 0)%float = false -> exists s m e, Prim2SF x = S754_finite s m e.
Proof.
  unfold ffin. rewrite FloatAxioms.eqb_spec, Prim2SF_0.
  destruct (Prim2SF x) as [s|s| |s m e]; cbn [fin_le]; intros Hf Hz;
    try contradiction; [destruct s; discriminate Hz | eauto].
Qed.

(** X8: in what [_rank] returns, every record whose size is the maximum
    [sMax] has the normalised size 1, and there is one; every record whose
    sharpness is the maximum [eMax] has the normalised sharpness 1 when [eMax]
    is a finite number other than 0. *)
Theorem rank_maximum_normalised :
  forall (cv : Cv2) (cfg : configuration) (im : ndarray Z) (rects : list Rect)
         (scores : list Score) (best : nat),
    _rank cfg im rects = Ok (scores, best) ->
    Forall (fun r => Z.abs (rect_w r + rect_h r) < 2 ^ 62) rects ->
    exists sMax eMax,
      py_max (map score_s scores) = Ok sMax /\
      py_max (map score_e scores) = Ok eMax /\
      (exists sc, In sc scores /\ score_s sc = sMax) /\
      (forall sc, In sc scores -> score_s sc = sMax -> score_sN sc = 1%float) /\
      (forall sc s m e, In sc scores -> score_e sc = eMax ->
         Prim2SF eMax = S754_finite s m e -> score_eN sc = 1%float).
Proof.
  intros cv cfg im rects scores best Hr Hsize.
  destruct (rank_records cfg im rects scores best Hr)
    as (measures & sMax & eMax & scored & Hs & He & Ems & Eme & Hlen & Hb & Hall & Hnth).
  exists sMax, eMax. rewrite Ems, Eme.
  split; [assumption|]. split; [assumption|]. split; [|split].
  - destruct (py_max_spec _ _ Hs) as [Hin _]. rewrite <- Ems in Hin.
    apply in_map_iff in Hin. destruct Hin as (sc & E & Hsc). eauto.
  - intros sc Hsc Esc.
    destruct (Forall2_in_r _ _ _ _ Hall Hsc) as (rect & Hrect & m & sc0 & p & Hm & Hn & ->).
    cbn [set_RANK score_s score_sN] in *.
    unfold rank_normalize in Hn. apply bind_Ok in Hn. destruct Hn as (sN & HsN & Hn).
    injection Hn as <-. cbn [score_s score_sN] in *.
    apply py_fdiv_Ok in HsN. destruct HsN as [-> Hnz]. rewrite Esc.
    apply rank_measure_Ok in Hm. destruct Hm as (_ & _ & _ & _ & _ & _ & Em).
    rewrite Forall_forall in Hsize. pose proof (Hsize rect Hrect) as Hb'.
    assert (Hf : ffin 115 sMax).
    { rewrite <- Esc, Em. apply (ffin_half _ 63); [apply ffin_Z2F; assumption | lia]. }
    destruct (ffin_nonzero_finite sMax 115 Hf Hnz) as (s & mm & e & Hfin).
    exact (float_div_self sMax s mm e Hfin).
  - intros sc s mm e Hsc Esc Hfin.
    destruct (Forall2_in_r _ _ _ _ Hall Hsc) as (rect & Hrect & m & sc0 & p & Hm & Hn & ->).
    cbn [set_RANK score_e score_eN] in *.
    apply rank_normalize_Ok in Hn. destruct Hn as (_ & E2 & _ & _ & E5 & _).
    rewrite E5, <- E2, Esc. exact (float_div_self eMax s mm e Hfin).
Qed.

(** ** Strings and dicts *)

Lemma string_app_assoc (a b c : string) : ((a ++ b) ++ c = a ++ (b ++ c))%string.
Proof. induction a as [|x a IH]; simpl; [reflexivity | rewrite IH; reflexivity]. Qed.


Lemma dict_get_absent {V} (d : list (string * V)) (k : string) :
  ~ In k (map fst d) -> dict_get d k = Raise KeyError.
Proof.
  induction d as [|[k' v] d IH]; intros H; simpl; [reflexivity|].
  destruct (String.eqb_spec k' k) as [->|_]; [exfalso; apply H; left; reflexivity|].
  apply IH. intros C. apply H. right. assumption.
Qed.

Lemma dict_get_present {V} (d : list (string * V)) (k : string) :
  In k (map fst d) -> exists v, dict_get d k = Ok v.
Proof.
  induction d as [|[k' v] d IH]; intros H; simpl in *; [contradiction|].
  destruct (String.eqb_spec k' k) as [->|Hn]; [eauto|].
  destruct H as [H|H]; [contradiction|]. apply IH. assumption.
Qed.

Lemma dict_get_Ok_present {V} (d : list (string * V)) (k : string) (v : V) :
  dict_get d k = Ok v -> In k (map fst d).
Proof.
  induction d as [|[k' v'] d IH]; simpl; [discriminate|].
  destruct (String.eqb_spec k' k) as [->|Hn]; [left; reflexivity|].
  intros H. right. apply IH. assumption.
Qed.

Lemma dict_get_set_same {V} (d : list (string * V)) (k : string) (v : V) :
  dict_get (dict_set d k v) k = Ok v.
Proof.
  induction d as [|[k' v'] d IH]; simpl.
  - rewrite String.eqb_refl. reflexivity.
  - destruct (String.eqb_spec k' k) as [->|Hn]; simpl.
    + rewrite String.eqb_refl. reflexivity.
    + destruct (String.eqb_spec k' k); [contradiction|]. exact IH.
Qed.

Lemma dict_get_set_other {V} (d : list (string * V)) (k k0 : string) (v : V) :
  k <> k0 -> dict_get (dict_set d k v) k0 = dict_get d k0.
Proof.
  intros Hk. induction d as [|[k' v'] d IH]; simpl.
  - destruct (String.eqb_spec k k0); [contradiction | reflexivity].
  - destruct (String.eqb_spec k' k) as [->|Hn]; simpl.
    + destruct (String.eqb_spec k k0); [contradiction | reflexivity].
    + destruct (String.eqb_spec k' k0); [reflexivity | exact IH].
Qed.

(** ** [detect] without its cascade *)

Lemma detect_bounds `{Cv2} (im : ndarray Z) :
  fits_int im ->
  exists minlen maxlen,
    py_int (sqrt (Z2F (size im)) / 20)%float = Ok minlen /\
    py_int (sqrt (Z2F (size im)) / 2)%float = Ok maxlen.
Proof.
  intros [Hf0 Hf1].
  assert (Hsize : 0 <= size im < 2 ^ 62).
  { unfold size. change (2 ^ 62) with (2 ^ 31 * 2 ^ 31). nia. }
  destruct (detect_side_finite (size im) 20 _ _ _ Hsize Prim2SF_20 ltac:(lia)) as [minlen Hmin].
  destruct (detect_side_finite (size im) 2 _ _ _ Hsize Prim2SF_2 ltac:(lia)) as [maxlen Hmax].
  eauto.
Qed.

Lemma detect_returns `{Cv2} (cfg : configuration) (im : ndarray Z) (biggest : bool) :
  fits_int im -> In "HAAR_FRONTALFACE_ALT2"%string (map fst (CASCADES cfg)) ->
  exists features, detect cfg im biggest = Ok features.
Proof.
  intros Hfit Hin. destruct (detect_bounds im Hfit) as (minlen & maxlen & Hmin & Hmax).
  destruct (dict_get_present _ _ Hin) as [cc Hcc].
  unfold detect. rewrite Hmin. cbn [bind]. rewrite Hmax. cbn [bind]. rewrite Hcc.
  cbn [bind]. eauto.
Qed.

Lemma detect_absent `{Cv2} (cfg : configuration) (im : ndarray Z) (biggest : bool) :
  fits_int im ->
  ~ In "HAAR_FRONTALFACE_ALT2"%string (map fst (CASCADES cfg)) ->
  detect cfg im biggest = Raise KeyError.
Proof.
  intros Hfit Hout.
  destruct (detect_bounds im Hfit) as (minlen & maxlen & Hmin & Hmax).
  unfold detect. rewrite Hmin. cbn [bind]. rewrite Hmax. cbn [bind].
  rewrite (dict_get_absent _ _ Hout). reflexivity.
Qed.

(** X9: while the dict ['CASCADES'] has no key ['HAAR_FRONTALFACE_ALT2'], as
    in a detector that was never configured, [detect] raises [KeyError]; the
    size bounds are computed first and raise nothing. *)
Theorem detect_missing_cascade :
  forall (cv : Cv2) (cfg : configuration) (im : ndarray Z) (biggest : bool),
    fits_int im ->
    ~ In "HAAR_FRONTALFACE_ALT2"%string (map fst (CASCADES cfg)) ->
    detect cfg im biggest = Raise KeyError.
Proof. intros cv. exact (@detect_absent cv). Qed.

(** ** [configure] and [_load_cascades] *)

Section ProcessFacts.

Context {cv : Cv2}.
Variable sys : System.

Lemma load_profiles_returns (data_dir : string) (profiles : list (string * string)) :
  forall cascades err cascades',
    load_profiles sys data_dir profiles cascades = (err, Returns cascades') ->
    err = EmptyString /\
    Forall (fun p => os_path_exists sys (os_path_join data_dir (snd p)) = true) profiles /\
    (forall k, In k (map fst profiles) -> In k (map fst cascades')) /\
    (forall k, In k (map fst cascades) -> In k (map fst cascades')) /\
    (forall k, ~ In k (map fst profiles) -> dict_get cascades' k = dict_get cascades k).
Proof.
  induction profiles as [|[k v] rest IH]; intros cascades err cascades' H; cbn [load_profiles] in H; cbv zeta in H.
  - injection H as <- <-. repeat split; auto. intros k [].
  - destruct (os_path_exists sys (os_path_join data_dir v)) eqn:Ex;
      [|discriminate H].
    destruct (cv2_CascadeClassifier sys (os_path_join data_dir v)) as [cc|e] eqn:Ecc;
      [|destruct e; discriminate H].
    destruct (IH _ _ _ H) as (-> & Hfiles & Hkeys & Hold & Hother).
    assert (Hk : In k (map fst cascades')).
    { apply Hold. eapply dict_get_Ok_present. apply dict_get_set_same. }
    split; [reflexivity|]. split; [constructor; assumption|]. split; [|split].
    + intros k0 [<-|Hin]; [assumption | apply Hkeys; assumption].
    + intros k0 Hin. apply Hold.
      destruct (String.eqb_spec k k0) as [<-|Hn].
      * eapply dict_get_Ok_present. apply dict_get_set_same.
      * destruct (dict_get_present _ _ Hin) as [v0 Hv0].
        eapply dict_get_Ok_present. rewrite dict_get_set_other by assumption. eassumption.
    + intros k0 Hout. cbn [map fst] in Hout.
      rewrite Hother by (intros C; apply Hout; right; assumption).
      apply dict_get_set_other. intros ->. apply Hout. left. reflexivity.
Qed.

Lemma load_profiles_outcome (data_dir : string) (profiles : list (string * string)) :
  forall cascades err o,
    load_profiles sys data_dir profiles cascades = (err, o) ->
    match o with
    | Returns _ => err = EmptyString
    | Raises e => err = EmptyString /\ e <> cv2_error
    | Exits status =>
        status = 1 /\
        exists k v, In (k, v) profiles /\
          err = (os_path_basename (sys_argv0 sys) ++ ": error: cannot load " ++ k
                 ++ " from " ++ os_path_join data_dir v ++ newline)%string
    end.
Proof.
  induction profiles as [|[k v] rest IH]; intros cascades err o H; cbn [load_profiles] in H; cbv zeta in H.
  - injection H as <- <-. reflexivity.
  - assert (Hfatal : _fatal sys ("cannot load " ++ k ++ " from "
                                   ++ os_path_join data_dir v)%string = (err, o) ->
                     match o with
                     | Returns _ => err = EmptyString
                     | Raises e => err = EmptyString /\ e <> cv2_error
                     | Exits status => status = 1 /\
                         exists k0 v0, In (k0, v0) ((k, v) :: rest) /\
                           err = (os_path_basename (sys_argv0 sys) ++ ": error: cannot load "
                                  ++ k0 ++ " from " ++ os_path_join data_dir v0 ++ newline)%string
                     end).
    { intros E. unfold _fatal, _error in E. cbn [fst] in E. injection E as <- <-.
      split; [reflexivity|]. exists k, v. split; [left; reflexivity|].
      rewrite !string_app_assoc. reflexivity. }
    destruct (os_path_exists sys (os_path_join data_dir v)) eqn:Ex.
    + destruct (cv2_CascadeClassifier sys (os_path_join data_dir v)) as [cc|e] eqn:Ecc.
      * specialize (IH _ _ _ H). destruct o as [c|e|s]; try assumption.
        destruct IH as (Hs & k0 & v0 & Hin & ->). split; [assumption|].
        exists k0, v0. split; [right; assumption | reflexivity].
      * destruct e; try (injection H as <- <-; split; [reflexivity | discriminate]).
        apply (Hfatal H).
    + apply (Hfatal H).
Qed.

End ProcessFacts.

Lemma configure_unfold `{Cv2} (sys : System) (self : FaceDetector) (config : option config_dict) :
  configure sys self config
  = _load_cascades sys (match config with Some c => dict_update self c | None => self end)
      (DATA_DIR (_configuration
                   (match config with Some c => dict_update self c | None => self end))).
Proof. reflexivity. Qed.

Lemma load_cascades_returns `{Cv2} (sys : System) (self self' : FaceDetector)
  (data_dir err : string) :
  _load_cascades sys self data_dir = (err, Returns self') ->
  exists cascades,
    load_profiles sys data_dir (PROFILES self) (CASCADES (_configuration self))
    = (err, Returns cascades) /\
    self' = mk_detector
              (mk_configuration (DATA_DIR (_configuration self)) cascades
                 (NORM_SIZE (_configuration self)) (NORM_MARGIN (_configuration self)))
              (PROFILES self).
Proof.
  unfold _load_cascades.
  destruct (load_profiles sys data_dir (PROFILES self) (CASCADES (_configuration self)))
    as [err0 [cascades|e|s]]; intros E; try discriminate E.
  injection E as <- <-. eauto.
Qed.

(** X10: once [configure] has returned, and ['PROFILES'] names the frontal
    face cascade, nothing was written to [sys.stderr] and [detect] returns on
    every image. *)
Theorem configure_then_detect :
  forall (cv : Cv2) (sys : System) (self self' : FaceDetector) (config : option config_dict)
         (err : string) (im : ndarray Z) (biggest : bool),
    configure sys self config = (err, Returns self') ->
    In "HAAR_FRONTALFACE_ALT2"%string (map fst (PROFILES self')) ->
    fits_int im ->
    err = EmptyString /\
    exists features, detect (_configuration self') im biggest = Ok features.
Proof.
  intros cv sys self self' config err im biggest Hc Hkey Hfit.
  rewrite configure_unfold in Hc.
  apply load_cascades_returns in Hc. destruct Hc as (cascades & Hl & ->).
  apply load_profiles_returns in Hl. destruct Hl as (-> & _ & Hkeys & _).
  split; [reflexivity|]. apply detect_returns; [assumption|].
  cbn [_configuration CASCADES PROFILES] in *. apply Hkeys. assumption.
Qed.

(** X11: a [configure] that returns leaves ['DATA_DIR'], ['NORM_SIZE'],
    ['NORM_MARGIN'] and ['PROFILES'] as the update made them; in ['CASCADES']
    it keeps every key and changes no entry outside the keys of ['PROFILES'];
    and the file of every profile exists. *)
Theorem configure_keeps_settings :
  forall (cv : Cv2) (sys : System) (self self' : FaceDetector) (config : option config_dict)
         (err : string),
    configure sys self config = (err, Returns self') ->
    let self0 := match config with Some c => dict_update self c | None => self end in
    let c0 := _configuration self0 in
    let c' := _configuration self' in
    DATA_DIR c' = DATA_DIR c0 /\ NORM_SIZE c' = NORM_SIZE c0 /\
    NORM_MARGIN c' = NORM_MARGIN c0 /\ PROFILES self' = PROFILES self0 /\
    (forall k, In k (map fst (CASCADES c0)) -> In k (map fst (CASCADES c'))) /\
    (forall k, ~ In k (map fst (PROFILES self0)) ->
       dict_get (CASCADES c') k = dict_get (CASCADES c0) k) /\
    Forall (fun p => os_path_exists sys (os_path_join (DATA_DIR c0) (snd p)) = true)
           (PROFILES self0).
Proof.
  intros cv sys self self' config err Hc. cbv zeta.
  rewrite configure_unfold in Hc.
  apply load_cascades_returns in Hc. destruct Hc as (cascades & Hl & ->).
  apply load_profiles_returns in Hl. destruct Hl as (_ & Hfiles & _ & Hold & Hother).
  cbn [_configuration CASCADES PROFILES DATA_DIR NORM_SIZE NORM_MARGIN].
  repeat split; assumption.
Qed.

(** X12: [configure] ends in one of three ways: it returns and has written
    nothing; it raises an exception of the constructor that is not
    [cv2.error], having written nothing; or it exits with status 1 after the
    line ["<program>: error: cannot load <key> from <path>"] for one of the
    profiles. It never raises [cv2.error]. *)
Theorem configure_outcome :
  forall (cv : Cv2) (sys : System) (self : FaceDetector) (config : option config_dict)
         (err : string) (o : outcome FaceDetector),
    configure sys self config = (err, o) ->
    let self0 := match config with Some c => dict_update self c | None => self end in
    match o with
    | Returns _ => err = EmptyString
    | Raises e => err = EmptyString /\ e <> cv2_error
    | Exits status =>
        status = 1 /\
        exists k v, In (k, v) (PROFILES self0) /\
          err = (os_path_basename (sys_argv0 sys) ++ ": error: cannot load " ++ k ++ " from "
                 ++ os_path_join (DATA_DIR (_configuration self0)) v ++ newline)%string
    end.
Proof.
  intros cv sys self config err o Hc. cbv zeta.
  rewrite configure_unfold in Hc. unfold _load_cascades in Hc.
  destruct (load_profiles sys _ _ _) as [err0 o0] eqn:Hl.
  apply load_profiles_outcome in Hl.
  destruct o0 as [cascades|e|s]; injection Hc as <- <-; exact Hl.
Qed.

(** X13: when the file of the first profile does not exist, [configure] exits
    with status 1 after writing
    ["<program>: error: cannot load <key> from <path>"], the path being
    ['DATA_DIR'] joined with the profile's file name. *)
Theorem configure_missing_file :
  forall (cv : Cv2) (sys : System) (self : FaceDetector) (config : option config_dict)
         (k v : string) (rest : list (string * string)),
    let self0 := match config with Some c => dict_update self c | None => self end in
    let path := os_path_join (DATA_DIR (_configuration self0)) v in
    PROFILES self0 = (k, v) :: rest ->
    os_path_exists sys path = false ->
    configure sys self config
    = ((os_path_basename (sys_argv0 sys) ++ ": error: cannot load " ++ k ++ " from "
        ++ path ++ newline)%string, Exits 1).
Proof.
  intros cv sys self config k v rest. cbv zeta. intros Hp Hex.
  rewrite configure_unfold. unfold _load_cascades. rewrite Hp.
  cbn [load_profiles]. cbv zeta. rewrite Hex.
  unfold _fatal, _error. cbn [fst]. rewrite !string_app_assoc. reflexivity.
Qed.

(** ** [detect_from_file] *)

(** X15: [detect_from_file] exits with status 1 and the line
    ["<program>: error: cannot load input image <path>"] when the image cannot
    be read; otherwise it equalises the image, which keeps its shape, and
    raises [KeyError] when the cascade is not loaded, or returns the equalised
    image with what [detect] finds in it. *)
Theorem detect_from_file_outcome :
  forall (cv : Cv2) (sys : System) (self : FaceDetector) (path : string) (biggest : bool),
    (cv2_imread sys path = None ->
     detect_from_file sys self path biggest
     = ((os_path_basename (sys_argv0 sys) ++ ": error: cannot load input image " ++ path
         ++ newline)%string, Exits 1)) /\
    (forall im, cv2_imread sys path = Some im -> fits_int im ->
       shape (cv2_equalizeHist im) = shape im /\
       (~ In "HAAR_FRONTALFACE_ALT2"%string (map fst (CASCADES (_configuration self))) ->
        detect_from_file sys self path biggest = (EmptyString, Raises KeyError)) /\
       (In "HAAR_FRONTALFACE_ALT2"%string (map fst (CASCADES (_configuration self))) ->
        exists features,
          detect (_configuration self) (cv2_equalizeHist im) biggest = Ok features /\
          detect_from_file sys self path biggest
          = (EmptyString, Returns (cv2_equalizeHist im, features)))).
Proof.
  intros cv sys self path biggest. split.
  - intros Hn. unfold detect_from_file. rewrite Hn.
    unfold _fatal, _error. cbn [fst]. rewrite !string_app_assoc. reflexivity.
  - intros im Him Hfit.
    assert (Hfit' : fits_int (cv2_equalizeHist im)) by exact Hfit.
    split; [reflexivity|]. split.
    + intros Hout. unfold detect_from_file. rewrite Him.
      rewrite (detect_absent _ _ biggest Hfit' Hout). reflexivity.
    + intros Hin. destruct (detect_returns (_configuration self) _ biggest Hfit' Hin)
        as [features Hd].
      exists features. split; [assumption|].
      unfold detect_from_file. rewrite Him, Hd. reflexivity.
Qed.

(** ** [configure] twice *)

Lemma dict_set_same {V} (d : list (string * V)) (k : string) (v : V) :
  dict_get d k = Ok v -> dict_set d k v = d.
Proof.
  induction d as [|[k' v'] d IH]; simpl; [discriminate|].
  destruct (String.eqb_spec k' k) as [->|Hn].
  - intros [= ->]. reflexivity.
  - intros H. rewrite (IH H). reflexivity.
Qed.

Section ConfigureTwice.

Context {cv : Cv2}.
Variable sys : System.
Variable data_dir : string.

(** The classifier the constructor builds from the file of a profile. *)
Definition loaded_from (cascades : list (string * CascadeClassifier)) (p : string * string)
  : Prop :=
  os_path_exists sys (os_path_join data_dir (snd p)) = true /\
  exists cc, cv2_CascadeClassifier sys (os_path_join data_dir (snd p)) = Ok cc /\
             dict_get cascades (fst p) = Ok cc.

Lemma load_profiles_loaded (profiles : list (string * string)) :
  NoDup (map fst profiles) ->
  forall cascades err cascades',
    load_profiles sys data_dir profiles cascades = (err, Returns cascades') ->
    Forall (loaded_from cascades') profiles.
Proof.
  induction profiles as [|[k v] rest IH]; intros Hnd cascades err cascades' H;
    [constructor|].
  cbn [load_profiles] in H. cbv zeta in H. cbn [map fst] in Hnd.
  apply NoDup_cons_iff in Hnd. destruct Hnd as [Hk Hnd].
  destruct (os_path_exists sys (os_path_join data_dir v)) eqn:Ex; [|discriminate H].
  destruct (cv2_CascadeClassifier sys (os_path_join data_dir v)) as [cc|e] eqn:Ecc;
    [|destruct e; discriminate H].
  constructor; [|exact (IH Hnd _ _ _ H)].
  split; [exact Ex|]. exists cc. split; [exact Ecc|]. cbn [fst].
  destruct (load_profiles_returns sys data_dir rest _ _ _ H) as (_ & _ & _ & _ & Hother).
  rewrite (Hother k Hk). apply dict_get_set_same.
Qed.

Lemma load_profiles_again (profiles : list (string * string))
  (cascades : list (string * CascadeClassifier)) :
  Forall (loaded_from cascades) profiles ->
  load_profiles sys data_dir profiles cascades = (EmptyString, Returns cascades).
Proof.
  induction 1 as [|[k v] rest (Ex & cc & Ecc & Hget) Hrest IH]; [reflexivity|].
  cbn [load_profiles]. cbv zeta. cbn [fst snd] in *. rewrite Ex, Ecc.
  rewrite (dict_set_same _ _ _ Hget). exact IH.
Qed.

End ConfigureTwice.

(** X14: after a [configure] that returned, a second [configure()] returns
    the same configuration and writes nothing. *)
Theorem configure_idempotent :
  forall (cv : Cv2) (sys : System) (self self' : FaceDetector) (config : option config_dict)
         (err : string),
    configure sys self config = (err, Returns self') ->
    NoDup (map fst (PROFILES self')) ->
    configure sys self' None = (EmptyString, Returns self').
Proof.
  intros cv sys self self' config err Hc Hnd.
  rewrite configure_unfold in Hc.
  apply load_cascades_returns in Hc. destruct Hc as (cascades & Hl & ->).
  cbn [PROFILES] in Hnd.
  pose proof (load_profiles_loaded sys _ _ Hnd _ _ _ Hl) as Hloaded.
  rewrite configure_unfold. unfold _load_cascades.
  cbn [_configuration PROFILES CASCADES DATA_DIR NORM_SIZE NORM_MARGIN].
  rewrite (load_profiles_again sys _ _ _ Hloaded). reflexivity.
Qed.

(** ** Symmetry and edges of the structural similarity *)

(** Arrays of one shape with the same samples. *)
Definition same_array {A} (a b : ndarray A) : Prop :=
  shape0 a = shape0 b /\ shape1 a = shape1 b /\ forall i j, item a i j = item b i j.

Lemma ravel_same {A} (a b : ndarray A) : same_array a b -> ravel a = ravel b.
Proof.
  intros (H0 & H1 & Hi). unfold ravel. rewrite H0, H1.
  apply flat_map_ext. intros i. apply map_ext. intros j. apply Hi.
Qed.

Lemma np_mean_same (a b : ndarray (option Q)) : same_array a b -> np_mean a = np_mean b.
Proof.
  intros H. unfold np_mean. rewrite (ravel_same a b H).
  destruct H as (H0 & H1 & _). unfold is_empty, size. rewrite H0, H1. reflexivity.
Qed.

Lemma shave_margin_same {A} (a b : ndarray A) (m : Z) :
  same_array a b -> same_array (_shave_margin a m) (_shave_margin b m).
Proof.
  intros (H0 & H1 & Hi). unfold _shave_margin, slice2, same_array.
  cbn [shape0 shape1 item]. rewrite H0, H1. repeat split. intros i j. apply Hi.
Qed.

Lemma blur_at_same (a b : ndarray Q) (tx ty : list (Z * Q)) (i j : nat) :
  same_array a b -> blur_at a tx ty i j = blur_at b tx ty i j.
Proof.
  intros (H0 & H1 & Hi). unfold blur_at, tap_sum. rewrite H0, H1.
  f_equal. apply map_ext. intros t. f_equal.
  f_equal. apply map_ext. intros u. f_equal. apply Hi.
Qed.

Lemma Qmult_swap (a b : Q) : (a * b)%Q = (b * a)%Q.
Proof. destruct a, b. unfold Qmult. simpl. f_equal; [ring | apply Pos.mul_comm]. Qed.

Lemma Qplus_swap (a b : Q) : (a + b)%Q = (b + a)%Q.
Proof. destruct a, b. unfold Qplus. simpl. f_equal; [ring | apply Pos.mul_comm]. Qed.

Lemma Qmult_assoc_eq (a b c : Q) : (a * b * c)%Q = (a * (b * c))%Q.
Proof.
  destruct a, b, c. unfold Qmult. simpl. f_equal; [ring | symmetry; apply Pos.mul_assoc].
Qed.

Lemma Qdouble_mult_swap (a b : Q) : (2 * a * b)%Q = (2 * b * a)%Q.
Proof. rewrite !Qmult_assoc_eq, (Qmult_swap a b). reflexivity. Qed.

(** X16: [_mssim_norm] is symmetric: it returns the same mean, or raises the
    same exception, for [(X, Y)] and for [(Y, X)]. *)
Theorem mssim_norm_symmetric :
  forall (cv : Cv2) (X Y : ndarray Q) (K1 K2 : Q) (win_size : Z) (sigma : Q),
    _mssim_norm X Y K1 K2 win_size sigma = _mssim_norm Y X K1 K2 win_size sigma.
Proof.
  intros cv X Y K1 K2 win_size sigma.
  unfold _mssim_norm, ssim_map, cv2_GaussianBlur, np_multiply. cbn [fst snd].
  change (is_empty (arr_mul X X)) with (is_empty X).
  change (is_empty (arr_mul Y Y)) with (is_empty Y).
  change (is_empty (arr_mul X Y)) with (is_empty X).
  change (is_empty (arr_mul Y X)) with (is_empty Y).
  destruct (negb _) eqn:Ewin.
  { rewrite !orb_true_r. reflexivity. }
  rewrite !orb_false_r.
  destruct (is_empty X) eqn:EX, (is_empty Y) eqn:EY; cbn [bind]; try reflexivity.
  rewrite (Nat.eqb_sym (shape0 Y)), (Nat.eqb_sym (shape1 Y)).
  destruct (Nat.eqb_spec (shape0 X) (shape0 Y)) as [E0|]; [|reflexivity].
  destruct (Nat.eqb_spec (shape1 X) (shape1 Y)) as [E1|]; [|reflexivity].
  cbn [andb bind].
  change (is_empty (arr_mul X Y)) with (is_empty X).
  change (is_empty (arr_mul Y X)) with (is_empty Y).
  rewrite EX, EY. cbn [orb bind]. f_equal.
  apply np_mean_same. apply shave_margin_same.
  set (t := blur_taps win_size sigma).
  assert (Hxy : forall i j, blur_at (arr_mul X Y) t t i j = blur_at (arr_mul Y X) t t i j).
  { intros i j. apply blur_at_same. repeat split; try assumption.
    intros a b. apply Qmult_swap. }
  unfold same_array.
  cbn [arr_div arr_mul arr_add arr_sub arr_scale arr_shift array_map array_map2
       shape0 shape1 item].
  repeat split; try assumption.
  intros i j. rewrite Hxy.
  rewrite (Qdouble_mult_swap (blur_at X t t i j)).
  rewrite (Qmult_swap (blur_at X t t i j) (blur_at Y t t i j)).
  rewrite (Qplus_swap (blur_at X t t i j * blur_at X t t i j)%Q).
  rewrite (Qplus_swap (inject_Z (win_size * win_size)
                       * (blur_at (arr_mul X X) t t i j
                          - blur_at X t t i j * blur_at X t t i j))%Q).
  reflexivity.
Qed.

Lemma mssim_norm_shape_mismatch `{Cv2} (X Y : ndarray Q) (K1 K2 : Q) (win_size : Z)
  (sigma : Q) :
  is_empty X = false -> is_empty Y = false ->
  0 < win_size -> Z.odd win_size = true ->
  (shape0 X <> shape0 Y /\ shape0 X <> 1%nat /\ shape0 Y <> 1%nat) \/
  (shape1 X <> shape1 Y /\ shape1 X <> 1%nat /\ shape1 Y <> 1%nat) ->
  _mssim_norm X Y K1 K2 win_size sigma = Raise ValueError.
Proof.
  intros EX EY Hwin Hodd Hshape.
  unfold _mssim_norm, ssim_map, cv2_GaussianBlur, np_multiply. cbn [fst snd].
  change (is_empty (arr_mul X X)) with (is_empty X).
  change (is_empty (arr_mul Y Y)) with (is_empty Y).
  rewrite EX, EY, Hodd. destruct (Z.ltb_spec 0 win_size); [|lia]. cbn [andb negb orb bind].
  destruct (Nat.eqb_spec (shape0 X) (shape0 Y)) as [E0|]; [|reflexivity].
  destruct (Nat.eqb_spec (shape1 X) (shape1 Y)) as [E1|]; [|reflexivity].
  exfalso. destruct Hshape as [(Hd & _)|(Hd & _)]; contradiction.
Qed.

Lemma np_mean_shave_zero (S : ndarray (option Q)) : np_mean (_shave_margin S 0) = None.
Proof.
  pose proof (shave_margin_zero S) as H. unfold shape in H.
  assert (E : shape0 (_shave_margin S 0) = O) by congruence.
  unfold np_mean, is_empty. rewrite E. reflexivity.
Qed.

(** X17: with [win_size = 1] the margin [(win_size - 1) // 2] is 0 and the
    trimmed array is empty: for images of one shape [_mssim_norm] returns the
    mean of no sample, which is no number. *)
Theorem mssim_norm_unit_window :
  forall (cv : Cv2) (X Y : ndarray Q) (K1 K2 sigma : Q),
    is_empty X = false -> shape X = shape Y ->
    _mssim_norm X Y K1 K2 1 sigma = Ok None.
Proof.
  intros cv X Y K1 K2 sigma EX Hshape.
  unfold shape in Hshape. injection Hshape as E0 E1.
  assert (EY : is_empty Y = false) by (unfold is_empty in *; rewrite <- E0, <- E1; exact EX).
  unfold _mssim_norm, ssim_map, cv2_GaussianBlur, np_multiply. cbn [fst snd].
  change (is_empty (arr_mul X X)) with (is_empty X).
  change (is_empty (arr_mul Y Y)) with (is_empty Y).
  rewrite EX, EY. cbn [Z.ltb Z.compare Z.odd andb negb orb bind].
  rewrite E0, E1, !Nat.eqb_refl. cbn [andb bind].
  change (is_empty (arr_mul X Y)) with (is_empty X). rewrite EX. cbn [orb bind].
  f_equal. change ((1 - 1) / 2) with 0. apply np_mean_shave_zero.
Qed.

(** ** A face against itself *)




(** ** A template of another size *)

Lemma norm_rect_square `{Cv2} (cfg : configuration) (im : ndarray Z) (rect : Rect)
  (equalize : bool) :
  0 < NORM_MARGIN cfg -> NORM_MARGIN cfg <= NORM_SIZE cfg -> rect_inside im rect ->
  exists roi,
    _norm_rect cfg im rect equalize false = Ok roi /\
    shape0 roi = Z.to_nat (NORM_SIZE cfg - NORM_MARGIN cfg) /\
    shape1 roi = Z.to_nat (NORM_SIZE cfg - NORM_MARGIN cfg).
Proof.
  intros HM HMN Hin.
  destruct (crop_rect_shape im rect Hin) as [Hc0 Hc1].
  pose proof Hin as (_ & _ & Hw & Hh & _).
  unfold _norm_rect, norm_dsize. cbn [bind].
  set (roi := if equalize then _ else _).
  assert (Hne : is_empty roi = false).
  { subst roi. apply is_empty_false; destruct equalize;
      unfold cv2_equalizeHist, array_map; cbn [shape0 shape1];
      rewrite ?Hc0, ?Hc1; lia. }
  set (side := NORM_SIZE cfg + NORM_MARGIN cfg).
  destruct (cv2_resize_total roi (side, side) Hne) as [dst Hdst];
    cbn [fst snd]; try (subst side; lia).
  rewrite Hdst. cbn [bind]. eexists. split; [reflexivity|].
  apply cv2_resize_Ok in Hdst. cbn [fst snd] in Hdst.
  destruct Hdst as (_ & _ & _ & Hd0 & Hd1).
  destruct (shave_margin_shape dst (NORM_MARGIN cfg) HM) as [Hs0 Hs1].
  rewrite Hs0, Hs1, Hd0, Hd1. subst side. split; f_equal; lia.
Qed.

(** X19: with [0 < NORM_MARGIN < NORM_SIZE], a normalised face more than one
    pixel wide, an odd positive window and a template that is not empty, a
    template whose height or width is neither that of a normalised face,
    [NORM_SIZE - NORM_MARGIN], nor 1 makes [_pairwise_similarity] yield a
    [ValueError] for a rectangle inside the image: the product [X * Y] of
    arrays of different shapes, which the blurs of [X] and of [Y] precede. *)
Theorem pairwise_similarity_template_size :
  forall (cv : Cv2) (cfg : configuration) (im : ndarray Z) (rect : Rect)
         (template : ndarray Z) (K1 K2 : Q) (win_size : Z) (sigma : Q),
    0 < NORM_MARGIN cfg -> NORM_MARGIN cfg < NORM_SIZE cfg -> rect_inside im rect ->
    0 < win_size -> Z.odd win_size = true ->
    is_empty template = false ->
    let side := Z.to_nat (NORM_SIZE cfg - NORM_MARGIN cfg) in
    (1 < side)%nat ->
    (shape0 template <> side /\ shape0 template <> 1%nat) \/
    (shape1 template <> side /\ shape1 template <> 1%nat) ->
    _pairwise_similarity cfg im [rect] template K1 K2 win_size sigma = [Raise ValueError].
Proof.
  intros cv cfg im rect template K1 K2 win_size sigma HM HMN Hin Hwin Hodd Hne side Hside Hd.
  destruct (norm_rect_square cfg im rect true HM ltac:(lia) Hin) as (roi & Hn & H0 & H1).
  fold side in H0, H1.
  unfold _pairwise_similarity. cbn [map]. rewrite Hn. cbn [bind].
  rewrite mssim_norm_shape_mismatch; [reflexivity | ..]; try assumption.
  - apply is_empty_false; cbn [to_unit_range array_map shape0 shape1]; lia.
  - cbn [to_unit_range array_map shape0 shape1]. rewrite H0, H1.
    destruct Hd as [[Ha Hb]|[Ha Hb]]; [left | right]; repeat split; auto; lia.
Qed.

(** ** Sample runs

    The statements above on the inputs of [Samples], and runs that show where
    the code parts from its description. *)

Import Samples.

#[local] Existing Instance Reference.cv2.

Ltac bounds := cbv; intuition congruence.


(** The ranks of the same batch: the second rectangle is the best. *)
Lemma rank_order_stable_argmax_witness :
  let n := length [corner2; whole; corner3] in
  let f i := score_f (nth i ranked3 default_score) in
  let RANK i := score_RANK (nth i ranked3 default_score) in
  length ranked3 = n /\ (0 < n)%nat /\
  (forall i, (i < n)%nat -> exists r, RANK i = Some r /\ (r < n)%nat) /\
  (forall i j ri rj, (i < n)%nat -> (j < n)%nat ->
     RANK i = Some ri -> RANK j = Some rj ->
     ((ri < rj)%nat <->
      (f j <? f i)%float = true \/ ((f i =? f j)%float = true /\ (i < j)%nat))) /\
  (1 < n)%nat /\ RANK 1%nat = Some O /\
  (forall j, (j < n)%nat -> (f j <=? f 1%nat)%float = true).
Proof.
  apply (rank_order_stable_argmax cv cfg_small im4 [corner2; whole; corner3] ranked3 1%nat).
  - reflexivity.
  - repeat constructor.
Defined.

(** On the uniform image every fitness is NaN: the best index is 0, and no
    fitness, its own included, compares less than or equal to its fitness. *)
Lemma rank_order_nan_counterexample :
  @_rank cv cfg_small flat4 [whole; corner2] = Ok (ranked_flat, O) /\
  map (fun sc => (score_f sc <=? score_f (nth O ranked_flat default_score))%float) ranked_flat
  = [false; false].
Proof. split; reflexivity. Qed.

(** The default configuration on a rectangle of the one-pixel image. *)
Lemma norm_rect_square_shape_witness :
  exists roi,
    @_norm_rect cv cfg_default im4 whole true false = Ok roi /\
    Z.of_nat (shape0 roi) = NORM_SIZE cfg_default - NORM_MARGIN cfg_default /\
    Z.of_nat (shape1 roi) = NORM_SIZE cfg_default - NORM_MARGIN cfg_default.
Proof.
  apply (norm_rect_square_shape cv cfg_default im4 whole true); bounds.
Defined.

(** With the defaults [N = 100] and [M = 10] the normalised image has 90 rows
    and 90 columns, not 100. *)
Lemma norm_rect_default_shape_counterexample :
  NORM_SIZE cfg_default = 100 /\ NORM_MARGIN cfg_default = 10 /\
  result_map shape (@_norm_rect cv cfg_default im4 whole true false) = Ok (90%nat, 90%nat).
Proof. repeat split; reflexivity. Qed.

(** The sharpness of the one-pixel image. *)
Lemma rank_sharpness_saturated_witness :
  Forall2 (fun rect sc =>
             exists roi_n,
               @_norm_rect cv cfg_small im4 rect false true = Ok roi_n /\
               score_e sc =
                 (Z2F (np_sum (array_map saturate_u8 (Laplacian_array roi_n)))
                  / Z2F (Z.of_nat (shape1 roi_n) * Z.of_nat (shape0 roi_n)))%float)
          [whole] ranked1.
Proof.
  apply (rank_sharpness_saturated cv cfg_small im4 [whole] ranked1 O). reflexivity.
Defined.

(** The Laplacian of the normalised crop is [-40, 20, 20, 0]: the code's
    sharpness is [(0 + 20 + 20 + 0) / 4 = 10], the mean of the absolute values
    is [(40 + 20 + 20 + 0) / 4 = 20]. *)
Lemma rank_sharpness_absolute_counterexample :
  result_map (fun r => map score_e (fst r)) (@_rank cv cfg_small im4 [whole]) = Ok [10%float] /\
  result_map (fun roi_n => (ravel (Laplacian_array roi_n), spec_sharpness roi_n))
    (@_norm_rect cv cfg_small im4 whole false true)
  = Ok ([-40; 20; 20; 0], 20%float).
Proof. split; reflexivity. Qed.

(** The distances of the batch of three rectangles. *)
Lemma rank_center_distance_witness :
  Forall2 (fun rect sc =>
             rect_inside im4 rect ->
             let dx := (Z2F (Z.of_nat (shape1 im4)) / 2 - Z2F (rect_x rect)
                        + Z2F (rect_w rect) / 2)%float in
             let dy := (Z2F (Z.of_nat (shape0 im4)) / 2 - Z2F (rect_y rect)
                        + Z2F (rect_h rect) / 2)%float in
             score_d sc =
               (sqrt (dx * dx + dy * dy)
                / (Z2F (Z.max (Z.of_nat (shape0 im4)) (Z.of_nat (shape1 im4))) / 2))%float /\
             (0 <=? score_d sc)%float = true)
          [corner2; whole; corner3] ranked3.
Proof.
  apply (rank_center_distance cv cfg_small im4 [corner2; whole; corner3] ranked3 1%nat).
  - reflexivity.
  - bounds.
  - bounds.
Defined.

(** The rectangle that covers the whole image lies inside it, and its
    distance, [sqrt (4^2 + 4^2) / 2], is above 1. *)
Lemma rank_center_distance_counterexample :
  @_rank cv cfg_small im4 [whole] = Ok (ranked1, O) /\
  rect_x whole + rect_w whole <= Z.of_nat (shape1 im4) /\
  rect_y whole + rect_h whole <= Z.of_nat (shape0 im4) /\
  map (fun sc => (score_d sc <=? 1)%float) ranked1 = [false].
Proof. repeat split; try reflexivity; bounds. Qed.



(** Two rectangles of the uniform image. *)
Lemma rank_zero_sharpness_nan_witness :
  exists scores,
    @_rank cv cfg_small flat4 [whole; corner2] = Ok (scores, O) /\
    Forall (fun sc => score_e sc = 0%float /\ score_eN sc = nan /\ score_f sc = nan)
           scores /\
    length scores = length [whole; corner2] /\
    forall i, (i < length [whole; corner2])%nat ->
      score_RANK (nth i scores default_score) = Some i.
Proof.
  apply (rank_zero_sharpness_nan cv cfg_small flat4 [whole; corner2] measured_flat).
  - discriminate.
  - repeat constructor.
  - reflexivity.
  - repeat constructor.
Defined.

(** On the uniform image every sharpness is 0, and every normalised sharpness
    and every fitness is NaN. *)
Lemma rank_zero_sharpness_counterexample :
  result_map
    (fun r => map (fun sc => (score_e sc, is_nan (score_eN sc), is_nan (score_f sc))) (fst r))
    (@_rank cv cfg_small flat4 [whole; corner2])
  = Ok [(0%float, true, true); (0%float, true, true)].
Proof. reflexivity. Qed.

(** [detect] on an image of 40 by 40 pixels, asking for the biggest face. *)
Lemma detect_invokes_cascade_witness :
  exists minSide maxSide flags,
    py_int (sqrt (Z2F (Z.of_nat (shape1 (blank 40 40)) * Z.of_nat (shape0 (blank 40 40)))) / 20)%float
      = Ok minSide /\
    py_int (sqrt (Z2F (Z.of_nat (shape1 (blank 40 40)) * Z.of_nat (shape0 (blank 40 40)))) / 2)%float
      = Ok maxSide /\
    Z.land flags (@CASCADE_DO_CANNY_PRUNING cv) = @CASCADE_DO_CANNY_PRUNING cv /\
    (Z.land flags (@CASCADE_FIND_BIGGEST_OBJECT cv) = @CASCADE_FIND_BIGGEST_OBJECT cv
     <-> true = true) /\
    detect cfg_cascade (blank 40 40) true
    = Ok (@detectMultiScale cv [corner3; whole; mk_rect 0 0 30 30] (blank 40 40) 1.1%float 4 flags
            (minSide, minSide) (maxSide, maxSide)).
Proof.
  apply (detect_invokes_cascade cv cfg_cascade [corner3; whole; mk_rect 0 0 30 30] (blank 40 40) true).
  - reflexivity.
  - bounds.
  - discriminate.
Defined.



(** *** Further properties on the samples *)

(** A rectangle that overhangs the image is clipped to 2 by 2 pixels. *)
Lemma crop_rect_clipped_witness :
  let roi := _crop_rect im4 overhang 0 in
  Z.of_nat (shape0 roi) = 2 /\ Z.of_nat (shape1 roi) = 2 /\
  forall i j, item roi i j = item im4 (2 + i) (2 + j).
Proof. apply (crop_rect_clipped Z im4 overhang 0); bounds. Defined.

(** A margin of one pixel off the image of 4 by 4. *)
Lemma shave_margin_interior_witness :
  let roi := _shave_margin im4 1 in
  Z.of_nat (shape0 roi) = 2 /\ Z.of_nat (shape1 roi) = 2 /\
  forall i j, (i < shape0 roi)%nat -> (j < shape1 roi)%nat ->
    item roi i j = item im4 (1 + i) (1 + j).
Proof. apply (shave_margin_interior Z im4 1); bounds. Defined.

Lemma norm_rect_zero_margin_empty_witness : shape face_flush = (O, O).
Proof.
  apply (norm_rect_zero_margin_empty cv cfg_flush im4 whole false false face_flush);
    reflexivity.
Defined.

Lemma norm_rect_empty_crop_error_witness :
  @_norm_rect cv cfg_default im4 outside true false = Raise cv2_error.
Proof.
  apply (norm_rect_empty_crop_error cv cfg_default im4 outside true); bounds.
Defined.

Lemma rank_ranks_bijective_witness :
  let n := length [corner2; whole; corner3] in
  let RANK i := score_RANK (nth i ranked3 default_score) in
  length ranked3 = n /\
  (forall i, (i < n)%nat -> exists r, (r < n)%nat /\ RANK i = Some r) /\
  (forall r, (r < n)%nat -> exists i, (i < n)%nat /\ RANK i = Some r) /\
  (forall i j, (i < n)%nat -> (j < n)%nat -> RANK i = RANK j -> i = j) /\
  (1 < n)%nat /\ RANK 1%nat = Some O.
Proof.
  apply (rank_ranks_bijective cv cfg_small im4 [corner2; whole; corner3] ranked3 1%nat).
  reflexivity.
Defined.

Lemma rank_outcome_witness :
  (Forall (fun r => exists roi, @_norm_rect cv cfg_small im4 r false true = Ok roi /\
                                is_empty roi = false) [corner2; whole; corner3] ->
   exists scores best, @_rank cv cfg_small im4 [corner2; whole; corner3] = Ok (scores, best)) /\
  (Exists (fun r => forall roi, @_norm_rect cv cfg_small im4 r false true = Ok roi ->
                                is_empty roi = true) [corner2; whole; corner3] ->
   @_rank cv cfg_small im4 [corner2; whole; corner3] = Raise cv2_error).
Proof.
  apply (rank_outcome cv cfg_small im4 [corner2; whole; corner3]).
  - bounds.
  - bounds.
  - discriminate.
  - repeat constructor; bounds.
Defined.

Lemma rank_maximum_normalised_witness :
  exists sMax eMax,
    py_max (map score_s ranked3) = Ok sMax /\
    py_max (map score_e ranked3) = Ok eMax /\
    (exists sc, In sc ranked3 /\ score_s sc = sMax) /\
    (forall sc, In sc ranked3 -> score_s sc = sMax -> score_sN sc = 1%float) /\
    (forall sc s m e, In sc ranked3 -> score_e sc = eMax ->
       Prim2SF eMax = S754_finite s m e -> score_eN sc = 1%float).
Proof.
  apply (rank_maximum_normalised cv cfg_small im4 [corner2; whole; corner3] ranked3 1%nat).
  - reflexivity.
  - repeat constructor; bounds.
Defined.

Lemma detect_missing_cascade_witness :
  detect cfg_default im4 false = Raise KeyError.
Proof. apply (detect_missing_cascade cv cfg_default im4 false); bounds. Defined.

Lemma configure_then_detect_witness :
  EmptyString = EmptyString /\
  exists features, detect (_configuration detector_ready) im4 true = Ok features.
Proof.
  apply (configure_then_detect cv sys_ready __init__ detector_ready None EmptyString im4 true).
  - reflexivity.
  - left. reflexivity.
  - bounds.
Defined.

Lemma configure_keeps_settings_witness :
  let c0 := _configuration (@__init__ cv) in
  let c' := _configuration detector_ready in
  DATA_DIR c' = DATA_DIR c0 /\ NORM_SIZE c' = NORM_SIZE c0 /\
  NORM_MARGIN c' = NORM_MARGIN c0 /\ PROFILES detector_ready = PROFILES (@__init__ cv) /\
  (forall k, In k (map fst (CASCADES c0)) -> In k (map fst (CASCADES c'))) /\
  (forall k, ~ In k (map fst (PROFILES (@__init__ cv))) ->
     dict_get (CASCADES c') k = dict_get (CASCADES c0) k) /\
  Forall (fun p => os_path_exists sys_ready (os_path_join (DATA_DIR c0) (snd p)) = true)
         (PROFILES (@__init__ cv)).
Proof.
  exact (configure_keeps_settings cv sys_ready __init__ detector_ready None EmptyString
           eq_refl).
Defined.

Lemma configure_outcome_witness :
  1 = 1 /\
  exists k v, In (k, v) (PROFILES (@__init__ cv)) /\
    cannot_load
    = (os_path_basename (sys_argv0 sys_bare) ++ ": error: cannot load " ++ k ++ " from "
       ++ os_path_join (DATA_DIR (_configuration (@__init__ cv))) v ++ newline)%string.
Proof.
  exact (configure_outcome cv sys_bare __init__ None cannot_load (Exits 1) eq_refl).
Defined.

Lemma configure_missing_file_witness :
  configure sys_bare __init__ None
  = ((os_path_basename (sys_argv0 sys_bare) ++ ": error: cannot load "
      ++ "HAAR_FRONTALFACE_ALT2" ++ " from "
      ++ os_path_join (DATA_DIR (_configuration (@__init__ cv)))
           "haarcascades/haarcascade_frontalface_alt2.xml" ++ newline)%string, Exits 1).
Proof.
  exact (configure_missing_file cv sys_bare __init__ None "HAAR_FRONTALFACE_ALT2"
           "haarcascades/haarcascade_frontalface_alt2.xml" [] eq_refl eq_refl).
Defined.

Lemma configure_idempotent_witness :
  configure sys_ready detector_ready None = (EmptyString, Returns detector_ready).
Proof.
  apply (configure_idempotent cv sys_ready __init__ detector_ready None EmptyString).
  - reflexivity.
  - repeat constructor. intros [].
Defined.

Lemma mssim_norm_unit_window_witness :
  @_mssim_norm cv X3 Y3 (1 # 100) (3 # 100) 1 (3 # 2) = Ok None.
Proof.
  apply (mssim_norm_unit_window cv X3 Y3 (1 # 100) (3 # 100) (3 # 2)); reflexivity.
Defined.


Lemma pairwise_similarity_template_size_witness :
  @_pairwise_similarity cv cfg_default im4 [whole] im4 (1 # 100) (3 # 100) 3 (3 # 2)
  = [Raise ValueError].
Proof.
  apply (pairwise_similarity_template_size cv cfg_default im4 whole im4
           (1 # 100) (3 # 100) 3 (3 # 2)).
  - bounds.
  - bounds.
  - bounds.
  - bounds.
  - reflexivity.
  - reflexivity.
  - lazy. lia.
  - left. split; lazy; discriminate.
Defined.
